(** * Recovery of legal text from rich-text markup: model and properties

    A shallow embedding of the three recovery scripts
    (advanced_rtf_processor.py, extract_rtf_content.py, manual_rtf_cleaner.py).

    Python strings are sequences of Unicode code points, so a string is a
    [list N] here; [len] is [length], slicing is [firstn]/[skipn].  The
    regular expressions of the scripts are kept as data and run by a small
    backtracking matcher with the priorities of Python's [re] module. *)

From Stdlib Require Import List NArith Arith Bool Ascii String Lia.
From stdpp Require Import base gmap strings.
Import ListNotations.
Local Open Scope N_scope.
Local Open Scope list_scope.

(** ** Strings *)

Definition pystr : Type := list N.

(** The code points of an ASCII literal. *)
Definition str (s : string) : pystr :=
  List.map N_of_ascii (list_ascii_of_string s).

Definition ch (s : string) : N :=
  match s with
  | String a _ => N_of_ascii a
  | EmptyString => 0
  end.

Definition NL : N := 10.
Definition BSL : N := 92.
Definition SPC : N := 32.
Definition RUPEE : N := 8377.

(** The two character escapes the scripts know: backslash uc0 backslash u
    and the decimal code, 8377 (rupee sign) or 8232 (line separator). *)
Definition esc_prefix : pystr := [BSL] ++ str "uc0" ++ [BSL] ++ str "u".
Definition esc_rupee : pystr := esc_prefix ++ str "8377".
Definition esc_linesep : pystr := esc_prefix ++ str "8232".

(** The text of a page template: in the literals of the templates a
    backquote stands for a double quote. *)
Definition quoted (s : string) : pystr :=
  List.map (fun c => if c =? 96 then 34 else c) (str s).

Fixpoint pystr_eqb (a b : pystr) : bool :=
  match a, b with
  | [], [] => true
  | x :: a', y :: b' => (x =? y) && pystr_eqb a' b'
  | _, _ => false
  end.

(** ** The Unicode database

    [\d] and [\w] of a Python [str] pattern follow the Unicode database of
    the interpreter (category Nd, and [str.isalnum]).  Below 128 both are
    fixed; above, the database is a parameter of the model. *)

Record unicode_db : Type := {
  uni_decimal : N -> bool;
  uni_alnum : N -> bool
}.

(** A database with no digit or letter outside ASCII. *)
Definition ascii_db : unicode_db :=
  {| uni_decimal := fun _ => false; uni_alnum := fun _ => false |}.

Definition in_range (lo hi c : N) : bool := (lo <=? c) && (c <=? hi).

(** [str.isspace] of one character, which is also [\s] and what [strip] and
    [split] remove. *)
Definition is_space (c : N) : bool :=
  in_range 9 13 c || in_range 28 32 c || (c =? 133) || (c =? 160)
  || (c =? 5760) || in_range 8192 8202 c || (c =? 8232) || (c =? 8233)
  || (c =? 8239) || (c =? 8287) || (c =? 12288).

Definition is_decimal (U : unicode_db) (c : N) : bool :=
  if c <? 128 then in_range 48 57 c else uni_decimal U c.

Definition is_word (U : unicode_db) (c : N) : bool :=
  if c <? 128
  then in_range 48 57 c || in_range 65 90 c || in_range 97 122 c || (c =? 95)
  else uni_alnum U c.

(** ** Regular expressions *)

(** Character classes. *)
Inductive cset : Type :=
| CChar (c : N)              (* a literal character *)
| CRange (lo hi : N)         (* a-z inside brackets *)
| CDigit                     (* \d *)
| CSpace                     (* \s *)
| CWord                      (* \w *)
| CDot                       (* . : anything but a newline *)
| CNot (cs : cset)           (* [^...] *)
| COr (a b : cset).          (* two members of one bracket *)

Fixpoint cset_mem (U : unicode_db) (cs : cset) (c : N) : bool :=
  match cs with
  | CChar d => c =? d
  | CRange lo hi => in_range lo hi c
  | CDigit => is_decimal U c
  | CSpace => is_space c
  | CWord => is_word U c
  | CDot => negb (c =? NL)
  | CNot a => negb (cset_mem U a c)
  | COr a b => cset_mem U a c || cset_mem U b c
  end.

(** The patterns of the scripts are sequences of these items: every
    repetition in them is over a single character class. *)
Inductive item : Type :=
| One (cs : cset)                             (* one character *)
| Many (lazy : bool) (mn : nat) (cs : cset)   (* cs{mn,}, greedy or lazy *)
| NotNext (cs : cset)                         (* (?!c) *)
| Bos                                         (* ^ (no MULTILINE flag) *)
| GOpen                                       (* ( of group 1 *)
| GClose.                                     (* ) of group 1 *)

Definition regex : Type := list item.

Definition lit (s : string) : regex := List.map (fun c => One (CChar c)) (str s).
Definition star (cs : cset) : item := Many false 0 cs.
Definition plus (cs : cset) : item := Many false 1 cs.

(** What a match attempt leaves: the text of group 1 and the rest of the
    subject after the match. *)
Record gstate : Type := { g_open : pystr; g_text : option pystr }.

Definition g0 : gstate := {| g_open := []; g_text := None |}.

Definition orelse {A : Type} (a b : option A) : option A :=
  match a with
  | Some x => Some x
  | None => b
  end.

Section Matcher.
Variable U : unicode_db.
Variable A : Type.

(** [cs{mn,}] at [s], then [k] on what is left.  Greedy: one more
    character is tried before stopping; lazy: stopping is tried first. *)
Fixpoint many (lz : bool) (cs : cset) (mn : nat) (s : pystr)
         (k : pystr -> option A) : option A :=
  let stop := match mn with O => k s | S _ => None end in
  match s with
  | [] => stop
  | c :: s' =>
      if cset_mem U cs c
      then if lz
           then orelse stop (many lz cs (Nat.pred mn) s' k)
           else orelse (many lz cs (Nat.pred mn) s' k) stop
      else stop
  end.
End Matcher.

Section Regex.
Variable U : unicode_db.
(** The length of the whole subject: [^] matches only where nothing of
    it has been left behind. *)
Variable total : nat.

Fixpoint rmatch (r : regex) (g : gstate) (s : pystr)
  : option (gstate * pystr) :=
  match r with
  | [] => Some (g, s)
  | One cs :: r' =>
      match s with
      | c :: s' => if cset_mem U cs c then rmatch r' g s' else None
      | [] => None
      end
  | Many lz mn cs :: r' => many U _ lz cs mn s (fun s' => rmatch r' g s')
  | NotNext cs :: r' =>
      match s with
      | c :: _ => if cset_mem U cs c then None else rmatch r' g s
      | [] => rmatch r' g s
      end
  | Bos :: r' => if Nat.eqb (length s) total then rmatch r' g s else None
  | GOpen :: r' => rmatch r' {| g_open := s; g_text := g_text g |} s
  | GClose :: r' =>
      rmatch r' {| g_open := g_open g;
                   g_text := Some (firstn (length (g_open g) - length s)
                                          (g_open g)) |} s
  end.

(** A replacement template: literal text and references to group 1. *)
Inductive rpart : Type :=
| RText (t : pystr)
| RGroup1.

Definition expand (rep : list rpart) (g : gstate) : pystr :=
  List.concat (List.map (fun p => match p with
                            | RText t => t
                            | RGroup1 => match g_text g with
                                         | Some t => t
                                         | None => []
                                         end
                            end) rep).

(** [re.sub]: the leftmost match is replaced and the scan goes on after
    it.  No pattern of the scripts matches the empty string (each
    takes [min_len] characters at least, and that is never zero); an empty
    match is passed over here. *)
Fixpoint sub_go (r : regex) (rep : list rpart) (fuel : nat) (s : pystr)
  : pystr :=
  match fuel with
  | O => s
  | S fuel' =>
      match s with
      | [] => []
      | c :: s' =>
          match rmatch r g0 s with
          | Some (g, rest) =>
              if Nat.ltb (length rest) (length s)
              then expand rep g ++ sub_go r rep fuel' rest
              else c :: sub_go r rep fuel' s'
          | None => c :: sub_go r rep fuel' s'
          end
      end
  end.
End Regex.

Definition re_sub (U : unicode_db) (r : regex) (rep : list rpart) (s : pystr)
  : pystr :=
  sub_go U (length s) r rep (length s) s.

(** [re.sub] with a plain replacement string. *)
Definition re_sub_str (U : unicode_db) (r : regex) (rep : pystr) (s : pystr)
  : pystr :=
  re_sub U r [RText rep] s.

(** [re.match]: a match at the start of the subject. *)
Definition re_match (U : unicode_db) (r : regex) (s : pystr) : bool :=
  match rmatch U (length s) r g0 s with
  | Some _ => true
  | None => false
  end.

(** The least number of characters a match of the pattern takes. *)
Fixpoint min_len (r : regex) : nat :=
  match r with
  | [] => O
  | One _ :: r' => S (min_len r')
  | Many _ mn _ :: r' => (mn + min_len r')%nat
  | _ :: r' => min_len r'
  end.

(** ** Python string methods *)

Fixpoint starts_with (p s : pystr) : bool :=
  match p, s with
  | [], _ => true
  | x :: p', y :: s' => (x =? y) && starts_with p' s'
  | _ :: _, [] => false
  end.

(** [s.startswith((p1, p2, ...))] *)
Definition starts_with_any (ps : list pystr) (s : pystr) : bool :=
  existsb (fun p => starts_with p s) ps.

(** [c in s] for a one-character [c]. *)
Definition has_char (c : N) (s : pystr) : bool := existsb (N.eqb c) s.

Definition nonempty (s : pystr) : bool :=
  match s with
  | [] => false
  | _ :: _ => true
  end.

Fixpoint lstrip (s : pystr) : pystr :=
  match s with
  | [] => []
  | c :: s' => if is_space c then lstrip s' else s
  end.

Fixpoint rstrip (s : pystr) : pystr :=
  match s with
  | [] => []
  | c :: s' =>
      match rstrip s' with
      | [] => if is_space c then [] else [c]
      | t => c :: t
      end
  end.

(** [s.strip()] *)
Definition strip (s : pystr) : pystr := rstrip (lstrip s).

(** [s.split(sep)] for a one-character separator: never an empty list. *)
Fixpoint split_on (sep : N) (s : pystr) : list pystr :=
  match s with
  | [] => [[]]
  | c :: s' =>
      if c =? sep then [] :: split_on sep s'
      else match split_on sep s' with
           | l :: ls => (c :: l) :: ls
           | [] => [[c]]
           end
  end.

(** [s.split(sep, 1)]: the text before the first separator and, when
    there is one, the text after it. *)
Fixpoint split_once (sep : N) (s : pystr) : pystr * option pystr :=
  match s with
  | [] => ([], None)
  | c :: s' =>
      if c =? sep then ([], Some s')
      else let (a, b) := split_once sep s' in (c :: a, b)
  end.

(** [s.split()]: the maximal runs of characters that are not whitespace. *)
Fixpoint split_ws (s : pystr) : list pystr :=
  match s with
  | [] => []
  | c :: s' =>
      if is_space c then split_ws s'
      else match s' with
           | [] => [[c]]
           | d :: _ =>
               if is_space d then [c] :: split_ws s'
               else match split_ws s' with
                    | w :: ws => (c :: w) :: ws
                    | [] => [[c]]
                    end
           end
  end.

(** [sep.join(l)] *)
Fixpoint join (sep : pystr) (l : list pystr) : pystr :=
  match l with
  | [] => []
  | x :: l' =>
      match l' with
      | [] => x
      | _ :: _ => x ++ sep ++ join sep l'
      end
  end.

Fixpoint replace_go (old new : pystr) (fuel : nat) (s : pystr) : pystr :=
  match fuel with
  | O => s
  | S fuel' =>
      match s with
      | [] => []
      | c :: s' =>
          if starts_with old s
          then new ++ replace_go old new fuel' (skipn (length old) s)
          else c :: replace_go old new fuel' s'
      end
  end.

(** [s.replace(old, new)]: the occurrences of [old], leftmost first and
    not overlapping; an empty [old] matches between any two characters. *)
Definition replace (old new : pystr) (s : pystr) : pystr :=
  match old with
  | [] => new ++ List.concat (List.map (fun c => c :: new) s)
  | _ :: _ => replace_go old new (length s) s
  end.

(** ** Files and the console

    What the [main] functions touch: the files that can be read with their
    text, the paths where opening for writing fails, and what has been
    printed.  A printed line is kept as an event, not as text. *)

Inductive exn : Type :=
| FileNotFoundError (path : string)   (* open(path, 'r') on a missing file *)
| PermissionError (path : string)     (* open(path, 'w') refused *)
| IndexError.                         (* [l[0]] on an empty list *)

Inductive event : Type :=
| Processing (rtf_file : string)
| Created (html_file : string) (paragraphs : option nat)
| Failed (rtf_file : string) (e : exn).

Record world : Type := {
  files : gmap string pystr;
  unwritable : gset string;
  console : list event
}.

Definition print (e : event) (w : world) : world :=
  {| files := files w; unwritable := unwritable w;
     console := console w ++ [e] |}.

(** [with open(path, 'r') as f: f.read()] *)
Definition read_file (path : string) (w : world) : exn + pystr :=
  match files w !! path with
  | Some text => inr text
  | None => inl (FileNotFoundError path)
  end.

(** [with open(path, 'w') as f: f.write(text)] *)
Definition write_file (path : string) (text : pystr) (w : world)
  : exn + world :=
  if bool_decide (path ∈ unwritable w)
  then inl (PermissionError path)
  else inr {| files := <[path := text]> (files w);
              unwritable := unwritable w; console := console w |}.

Record file_info : Type := {
  rtf_file : string;
  html_file : string;
  title : pystr
}.

(** The list both [main] functions go through. *)
Definition files_to_process : list file_info :=
  [ {| rtf_file := "TERMS AND CONDITIONS OF SERVICE.txt";
       html_file := "terms.html";
       title := str "TERMS AND CONDITIONS OF SERVICE" |};
    {| rtf_file := "PRIVACY AND DATA PROTECTION POLICY.txt";
       html_file := "privacy.html";
       title := str "PRIVACY AND DATA PROTECTION POLICY" |};
    {| rtf_file := "POLICY FOR REFUND, RESTITUTION AND REVERSAL OF PECUNIARY CONSIDERATION.txt";
       html_file := "refund.html";
       title := str "POLICY FOR REFUND, RESTITUTION AND REVERSAL OF PECUNIARY CONSIDERATION" |} ].

(** ** advanced_rtf_processor.py *)

Module Advanced.

Definition not_char (c : N) : cset := CNot (CChar c).
Definition digits : item := plus CDigit.

(* Step 1 *)
Definition re_rtf1 : regex := lit "\rtf1" ++ [star (not_char (ch "}"))].
Definition re_cocoartf : regex := lit "\cocoartf" ++ [digits].
Definition re_cocoascaling : regex :=
  lit "\cocoatextscaling" ++ [digits] ++ lit "\cocoaplatform" ++ [digits].
Definition re_fonttbl : regex :=
  lit "{\fonttbl" ++ [star (not_char (ch "}")); plus (CChar (ch "}"))].
Definition re_colortbl : regex :=
  lit "{\colortbl" ++ [star (not_char (ch "}")); plus (CChar (ch "}"))].
Definition re_expandedcolortbl : regex :=
  lit "{\" ++ [Many true 0 CDot] ++ lit "expandedcolortbl"
    ++ [star (not_char (ch "}")); plus (CChar (ch "}"))].
(* Step 2 *)
Definition re_paper : regex :=
  lit "\paperw" ++ [digits] ++ lit "\paperh" ++ [digits]
    ++ lit "\margl" ++ [digits] ++ lit "\margr" ++ [digits]
    ++ lit "\vieww" ++ [digits] ++ lit "\viewh" ++ [digits]
    ++ lit "\viewkind" ++ [digits].
Definition re_deftab : regex := lit "\deftab" ++ [digits].
(* Step 3 *)
Definition re_pard : regex := lit "\pard" ++ [star (not_char BSL)].
Definition re_pardeftab : regex :=
  lit "\pardeftab" ++ [star CWord; star CDigit; star (not_char BSL)].
(* Step 4 *)
Definition re_bold_fs : regex := lit "\f0\b\fs" ++ [digits].
Definition re_bold : regex := lit "\f0\b" ++ [NotNext (CChar BSL)].
Definition re_bold_end : regex := lit "\f1\b0".
Definition re_italic : regex := lit "\f2\i".
Definition re_italic_end : regex := lit "\f1\i0".
(* Step 5 *)
Definition re_f : regex := lit "\f" ++ [digits].
Definition re_fs : regex := lit "\fs" ++ [digits].
Definition re_cf : regex := lit "\cf" ++ [digits].
Definition re_strokec : regex := lit "\strokec" ++ [digits].
Definition re_expnd : regex :=
  lit "\expnd" ++ [digits] ++ lit "\expndtw" ++ [digits]
    ++ lit "\kerning" ++ [digits].
Definition re_outl : regex :=
  lit "\outl" ++ [digits] ++ lit "\strokewidth" ++ [digits].
(* Step 7 *)
Definition re_command : regex :=
  [One (CChar BSL); plus (COr (CRange (ch "a") (ch "z")) (CRange (ch "A") (ch "Z")));
   star CDigit; star CSpace].
(* Step 8 *)
Definition re_spaces : regex := [plus CSpace].
Definition re_leading : regex := [Bos; plus (COr (CChar (ch "*")) CSpace)].
(* structure_legal_document *)
Definition re_numbered : regex :=
  [Bos; digits; One (CChar (ch ".")); digits].

Definition PARA_BREAK : pystr := str "PARA_BREAK".
Definition para_break_text : pystr := [NL; NL] ++ PARA_BREAK ++ [NL].

Section WithDatabase.
Variable U : unicode_db.

(** Steps 1 to 7 of [clean_rtf_content]: the text before it is cut into
    lines. *)
Definition strip_controls (content : pystr) : pystr :=
  (* Step 1: Remove RTF header and setup *)
  let content := re_sub_str U re_rtf1 [] content in
  let content := re_sub_str U re_cocoartf [] content in
  let content := re_sub_str U re_cocoascaling [] content in
  let content := re_sub_str U re_fonttbl [] content in
  let content := re_sub_str U re_colortbl [] content in
  let content := re_sub_str U re_expandedcolortbl [] content in
  (* Step 2: Clean up page layout and paragraph controls *)
  let content := re_sub_str U re_paper [] content in
  let content := re_sub_str U re_deftab [] content in
  (* Step 3: Process paragraph markers and formatting *)
  let content := re_sub_str U re_pard para_break_text content in
  let content := re_sub_str U re_pardeftab [] content in
  (* Step 4: Handle font and formatting *)
  let content := re_sub_str U re_bold_fs (str "BOLD_START") content in
  let content := re_sub_str U re_bold (str "BOLD_START") content in
  let content := re_sub_str U re_bold_end (str "BOLD_END") content in
  let content := re_sub_str U re_italic (str "ITALIC_START") content in
  let content := re_sub_str U re_italic_end (str "ITALIC_END") content in
  (* Step 5: Remove other formatting codes *)
  let content := re_sub_str U re_f [] content in
  let content := re_sub_str U re_fs [] content in
  let content := re_sub_str U re_cf [] content in
  let content := re_sub_str U re_strokec [] content in
  let content := re_sub_str U re_expnd [] content in
  let content := re_sub_str U re_outl [] content in
  (* Step 6: Handle special characters *)
  let content := replace esc_rupee [RUPEE] content in
  let content := replace esc_linesep [NL] content in
  (* Step 7: Clean up backslashes and braces *)
  let content := re_sub_str U re_command (str " ") content in
  let content := replace (str "}") [] (replace (str "{") [] content) in
  replace [BSL] [NL] content.

(** The body of the loop of step 8: what one line of the stripped text
    appends to [lines]. *)
Definition clean_line (line : pystr) : list pystr :=
  let line := strip line in
  if negb (nonempty line) || starts_with PARA_BREAK line
     || Nat.ltb (length line) 3
  then if starts_with PARA_BREAK line then [[]] else []
  else
    let line := replace (str "BOLD_START") (str "<strong>") line in
    let line := replace (str "BOLD_END") (str "</strong>") line in
    let line := replace (str "ITALIC_START") (str "<em>") line in
    let line := replace (str "ITALIC_END") (str "</em>") line in
    let line := re_sub_str U re_spaces (str " ") line in
    let line := re_sub_str U re_leading [] line in
    if nonempty line then [line] else [].

Definition clean_rtf_content (content : pystr) : pystr :=
  join [NL] (flat_map clean_line (split_on NL (strip_controls content))).

(** The first loop of [structure_legal_document]: one step on the pair
    ([paragraphs], [current_para]). *)
Definition gather_step (st : list pystr * pystr) (line : pystr)
  : list pystr * pystr :=
  let (paragraphs, current_para) := st in
  let line := strip line in
  if negb (nonempty line)
  then if nonempty current_para
       then (paragraphs ++ [strip current_para], [])
       else (paragraphs, current_para)
  else if nonempty current_para
       then (paragraphs, current_para ++ str " " ++ line)
       else (paragraphs, line).

Definition gather (content : pystr) : list pystr :=
  let (paragraphs, current_para) :=
    fold_left gather_step (split_on NL content) ([], []) in
  if nonempty current_para
  then paragraphs ++ [strip current_para]
  else paragraphs.

(** The body of the second loop for a paragraph that is not blank.
    [None] is the [IndexError] of [x.split()[0]] on a blank [x]. *)
Definition format_para (para : pystr) : option pystr :=
  let para := re_sub_str U re_spaces (str " ") para in
  para ← (if starts_with_any [str "WHEREAS"; str "AND WHEREAS";
                               str "NOW THEREFORE"] para
          then w ← hd_error (split_ws para);
               Some (str "<strong>" ++ w ++ str "</strong> "
                       ++ join (str " ") (tl (split_ws para)))
          else Some para);
  let para := if starts_with (str "ARTICLE") para && has_char (ch ":") para
              then str "<strong>" ++ para ++ str "</strong>"
              else para in
  if re_match U re_numbered para
  then match split_once SPC para with
       | (p0, Some p1) =>
           w ← hd_error (split_ws p1);
           Some (str "<strong>" ++ p0 ++ str " " ++ w ++ str "</strong> "
                   ++ join (str " ") (tl (split_ws p1)))
       | (_, None) => Some para
       end
  else Some para.

Fixpoint format_all (paragraphs : list pystr) : option (list pystr) :=
  match paragraphs with
  | [] => Some []
  | para :: rest =>
      if nonempty (strip para)
      then p ← format_para para;
           ps ← format_all rest;
           Some (p :: ps)
      else format_all rest
  end.

Definition structure_legal_document (content title : pystr)
  : option (list pystr) :=
  format_all (gather content).

(** The recovery engine of this script: what [main] computes from the
    text of a file. *)
Definition recover (raw title : pystr) : option (list pystr) :=
  structure_legal_document (clean_rtf_content raw) title.

End WithDatabase.
(** [create_clean_legal_html] *)
Definition html_head (title : pystr) : pystr :=
    quoted "<!DOCTYPE html>
<html lang=`en`>
<head>
    <meta charset=`UTF-8`>
    <meta name=`viewport` content=`width=device-width, initial-scale=1.0`>
    <title>"
    ++ title
    ++ quoted " - Lotuslion Venture</title>
    <style>
        body {
            font-family: `Times New Roman`, Times, serif;
            background-color: white;
            color: black;
            line-height: 1.6;
            margin: 0;
            padding: 40px;
            font-size: 14px;
        }
        
        .container {
            max-width: 900px;
            margin: 0 auto;
            padding: 0;
        }
        
        h1 {
            text-align: center;
            font-size: 20px;
            font-weight: bold;
            margin: 40px 0;
            line-height: 1.3;
            text-transform: uppercase;
        }
        
        .company-info {
            text-align: center;
            margin: 30px 0;
            font-style: italic;
        }
        
        p {
            margin: 16px 0;
            text-align: justify;
            text-indent: 0;
            line-height: 1.6;
        }
        
        .back-link {
            display: inline-block;
            margin-top: 50px;
            color: black;
            text-decoration: underline;
            font-weight: normal;
        }
        
        .back-link:hover {
            text-decoration: none;
        }
        
        strong {
            font-weight: bold;
        }
        
        em {
            font-style: italic;
        }
    </style>
</head>
<body>
    <div class=`container`>
        <h1>"
    ++ title
    ++ quoted "</h1>
        
        <div class=`company-info`>
            <p><strong>LOTUSLION VENTURE LLP</strong></p>
            <p><em>(A Limited Liability Partnership incorporated under the Limited Liability Partnership Act, 2008)</em></p>
        </div>
".

Definition html_tail : pystr :=
    quoted "
        <a href=`index.html` class=`back-link`>"
    ++ [8592]
    ++ quoted " Back to Course</a>
    </div>
</body>
</html>".

Definition para_element (para : pystr) : pystr :=
  str "        <p>" ++ para ++ str "</p>" ++ [NL].

Definition create_clean_legal_html (title : pystr) (paragraphs : list pystr)
  : pystr :=
  html_head title
    ++ List.concat (List.map para_element
                      (List.filter (fun para => nonempty (strip para))
                                   paragraphs))
    ++ html_tail.

(** The body of the loop of [main]: everything after the first [print]
    is inside [try], and [except Exception] reports the failure. *)
Definition process_file (U : unicode_db) (w : world) (fi : file_info)
  : world :=
  let w := print (Processing (rtf_file fi)) w in
  match read_file (rtf_file fi) w with
  | inl e => print (Failed (rtf_file fi) e) w
  | inr rtf_content =>
      let cleaned_content := clean_rtf_content U rtf_content in
      match structure_legal_document U cleaned_content (title fi) with
      | None => print (Failed (rtf_file fi) IndexError) w
      | Some paragraphs =>
          let html_content :=
            create_clean_legal_html (title fi) paragraphs in
          match write_file (html_file fi) html_content w with
          | inl e => print (Failed (rtf_file fi) e) w
          | inr w =>
              print (Created (html_file fi) (Some (length paragraphs))) w
          end
      end
  end.

Definition run (U : unicode_db) (batch : list file_info) (w : world)
  : world :=
  fold_left (process_file U) batch w.

Definition main (U : unicode_db) (w : world) : world :=
  run U files_to_process w.

End Advanced.


(** ** extract_rtf_content.py *)

Module Extract.

Definition not_char (c : N) : cset := CNot (CChar c).
Definition digits : item := plus CDigit.
Definition close_brace : cset := CChar (ch "}").

Definition re_rtf1 : regex :=
  lit "\rtf1" ++ [star (not_char (ch "}")); One close_brace].
Definition re_cocoartf : regex := lit "\cocoartf" ++ [digits].
Definition re_cocoascaling : regex :=
  lit "\cocoatextscaling" ++ [digits] ++ lit "\cocoaplatform" ++ [digits].
Definition re_fonttbl : regex :=
  lit "\fonttbl" ++ [star (not_char (ch "}")); plus close_brace].
Definition re_colortbl : regex :=
  lit "\colortbl" ++ [star (not_char (ch "}")); plus close_brace].
Definition re_expandedcolortbl : regex :=
  lit "\expandedcolortbl" ++ [star (not_char (ch "}")); plus close_brace].
Definition re_paper : regex :=
  lit "\paperw" ++ [digits] ++ lit "\paperh" ++ [digits]
    ++ lit "\margl" ++ [digits] ++ lit "\margr" ++ [digits]
    ++ lit "\vieww" ++ [digits] ++ lit "\viewh" ++ [digits]
    ++ lit "\viewkind" ++ [digits].
Definition re_deftab : regex := lit "\deftab" ++ [digits].
Definition re_pard : regex := lit "\pard" ++ [star (not_char BSL)].
Definition re_pardeftab : regex :=
  lit "\pardeftab" ++ [digits; star (not_char BSL)].
Definition re_bold_fs : regex := lit "\f0\b\fs" ++ [digits].
Definition re_bold : regex := lit "\f0\b".
Definition re_bold_end : regex := lit "\f1\b0".
Definition re_italic : regex := lit "\f2\i".
Definition re_italic_end : regex := lit "\f1\i0".
Definition re_f : regex := lit "\f" ++ [digits].
Definition re_fs : regex := lit "\fs" ++ [digits].
Definition re_cf : regex := lit "\cf" ++ [digits].
Definition re_strokec : regex := lit "\strokec" ++ [digits].
Definition re_expnd : regex :=
  lit "\expnd" ++ [digits] ++ lit "\expndtw" ++ [digits]
    ++ lit "\kerning" ++ [digits].
Definition re_outl : regex :=
  lit "\outl" ++ [digits] ++ lit "\strokewidth" ++ [digits].
Definition re_newlines : regex := [Many false 3 (CChar NL)].
Definition re_blanks : regex := [Many false 2 (CChar SPC)].
Definition re_command : regex :=
  [One (CChar BSL);
   plus (COr (CRange (ch "a") (ch "z")) (CRange (ch "A") (ch "Z")));
   star CDigit].
Definition re_braces : regex := [One (COr (CChar (ch "{")) (CChar (ch "}")))].
Definition re_bold_span : regex :=
  lit "**BOLD**" ++ [GOpen; star (not_char (ch "*")); GClose]
    ++ lit "**NORMAL**".
Definition re_italic_span : regex :=
  lit "**ITALIC**" ++ [GOpen; star (not_char (ch "*")); GClose]
    ++ lit "**NORMAL**".
Definition re_bold_mark : regex := lit "**BOLD**".
Definition re_normal_mark : regex := lit "**NORMAL**".
Definition re_italic_mark : regex := lit "**ITALIC**".

Section WithDatabase.
Variable U : unicode_db.

(** [extract_rtf_text] up to the loop over the lines. *)
Definition strip_controls (rtf_content : pystr) : pystr :=
  let text := rtf_content in
  (* Remove RTF control group declarations *)
  let text := re_sub_str U re_rtf1 [] text in
  let text := re_sub_str U re_cocoartf [] text in
  let text := re_sub_str U re_cocoascaling [] text in
  (* Remove font table *)
  let text := re_sub_str U re_fonttbl [] text in
  (* Remove color table *)
  let text := re_sub_str U re_colortbl [] text in
  let text := re_sub_str U re_expandedcolortbl [] text in
  (* Remove page layout controls *)
  let text := re_sub_str U re_paper [] text in
  let text := re_sub_str U re_deftab [] text in
  (* Remove paragraph formatting controls but preserve breaks *)
  let text := re_sub_str U re_pard [NL; NL] text in
  let text := re_sub_str U re_pardeftab [] text in
  (* Handle font changes - preserve bold markers *)
  let text := re_sub_str U re_bold_fs (str "**BOLD**") text in
  let text := re_sub_str U re_bold (str "**BOLD**") text in
  let text := re_sub_str U re_bold_end (str "**NORMAL**") text in
  let text := re_sub_str U re_italic (str "**ITALIC**") text in
  let text := re_sub_str U re_italic_end (str "**NORMAL**") text in
  (* Remove other font controls *)
  let text := re_sub_str U re_f [] text in
  let text := re_sub_str U re_fs [] text in
  (* Remove color and styling controls *)
  let text := re_sub_str U re_cf [] text in
  let text := re_sub_str U re_strokec [] text in
  let text := re_sub_str U re_expnd [] text in
  let text := re_sub_str U re_outl [] text in
  (* Handle line breaks and special characters *)
  let text := replace esc_rupee [RUPEE] text in
  let text := replace esc_linesep [NL] text in
  let text := replace [BSL] [NL] text in
  (* Clean up excessive whitespace while preserving structure *)
  let text := re_sub_str U re_newlines [NL; NL] text in
  let text := re_sub_str U re_blanks (str " ") text in
  (* Remove any remaining RTF controls *)
  let text := re_sub_str U re_command [] text in
  re_sub_str U re_braces [] text.

(** The body of the loop over the lines. *)
Definition clean_line (line : pystr) : list pystr :=
  let line := strip line in
  if nonempty line && negb (starts_with (str "{") line)
     && negb (starts_with (str "}") line)
  then
    let line := re_sub U re_bold_span
                  [RText (str "<strong>"); RGroup1; RText (str "</strong>")]
                  line in
    let line := re_sub U re_italic_span
                  [RText (str "<em>"); RGroup1; RText (str "</em>")]
                  line in
    let line := re_sub_str U re_bold_mark (str "<strong>") line in
    let line := re_sub_str U re_normal_mark (str "</strong>") line in
    let line := re_sub_str U re_italic_mark (str "<em>") line in
    if nonempty line then [line] else []
  else [].

Definition extract_rtf_text (rtf_content : pystr) : pystr :=
  join [NL] (flat_map clean_line (split_on NL (strip_controls rtf_content))).

End WithDatabase.

(** The first loop of [create_legal_html]. *)
Definition gather_step (st : list pystr * pystr) (line : pystr)
  : list pystr * pystr :=
  let (paragraphs, current_para) := st in
  let line := strip line in
  if negb (nonempty line)
  then if nonempty current_para
       then (paragraphs ++ [current_para], [])
       else (paragraphs, current_para)
  else if nonempty current_para
       then (paragraphs, current_para ++ str " " ++ line)
       else (paragraphs, line).

Definition gather (content : pystr) : list pystr :=
  let (paragraphs, current_para) :=
    fold_left gather_step (split_on NL content) ([], []) in
  if nonempty current_para
  then paragraphs ++ [current_para]
  else paragraphs.

(** [html.escape(s, quote=False)] *)
Definition html_escape (s : pystr) : pystr :=
  replace (str ">") (str "&gt;")
    (replace (str "<") (str "&lt;")
       (replace (str "&") (str "&amp;") s)).

(** What the last loop writes between [<p>] and [</p>]. *)
Definition para_markup (para : pystr) : pystr :=
  let para := html_escape para in
  let para := replace (str "&lt;/strong&gt;") (str "</strong>")
                (replace (str "&lt;strong&gt;") (str "<strong>") para) in
  replace (str "&lt;/em&gt;") (str "</em>")
    (replace (str "&lt;em&gt;") (str "<em>") para).

Definition para_element (para : pystr) : pystr :=
  str "        <p>" ++ para_markup para ++ str "</p>" ++ [NL].

Definition html_head (title : pystr) : pystr :=
    quoted "<!DOCTYPE html>
<html lang=`en`>
<head>
    <meta charset=`UTF-8`>
    <meta name=`viewport` content=`width=device-width, initial-scale=1.0`>
    <title>"
    ++ title
    ++ quoted " - Lotuslion Venture</title>
    <style>
        body {
            font-family: `Times New Roman`, Times, serif;
            background-color: white;
            color: black;
            line-height: 1.5;
            margin: 0;
            padding: 40px;
            font-size: 14px;
        }
        
        .container {
            max-width: 800px;
            margin: 0 auto;
            padding: 0 20px;
        }
        
        h1 {
            text-align: center;
            font-size: 18px;
            font-weight: bold;
            margin: 30px 0;
            line-height: 1.3;
        }
        
        p {
            margin: 12px 0;
            text-align: justify;
            text-indent: 0;
        }
        
        .back-link {
            display: inline-block;
            margin-top: 40px;
            color: black;
            text-decoration: underline;
            font-weight: normal;
        }
        
        .back-link:hover {
            text-decoration: none;
        }
        
        strong {
            font-weight: bold;
        }
        
        em {
            font-style: italic;
        }
    </style>
</head>
<body>
    <div class=`container`>
        <h1>"
    ++ title
    ++ quoted "</h1>
".

Definition html_tail : pystr :=
    quoted "
        <a href=`index.html` class=`back-link`>"
    ++ [8592]
    ++ quoted " Back to Course</a>
    </div>
</body>
</html>".

Definition create_legal_html (title content : pystr) (filename : string)
  : pystr :=
  html_head title
    ++ List.concat (List.map para_element
                      (List.filter (fun para => nonempty (strip para))
                                   (gather content)))
    ++ html_tail.

(** The paragraphs of the document of this script. *)
Definition recover (U : unicode_db) (raw : pystr) : list pystr :=
  List.filter (fun para => nonempty (strip para))
              (gather (extract_rtf_text U raw)).

(** The loop of [main]: nothing catches an exception, which ends the
    loop and the program.  The result is the world then, and the
    exception if there was one. *)
Fixpoint run (U : unicode_db) (batch : list file_info) (w : world)
  : world * option exn :=
  match batch with
  | [] => (w, None)
  | fi :: rest =>
      let w := print (Processing (rtf_file fi)) w in
      match read_file (rtf_file fi) w with
      | inl e => (w, Some e)
      | inr rtf_content =>
          let extracted_text := extract_rtf_text U rtf_content in
          let html_content :=
            create_legal_html (title fi) extracted_text (html_file fi) in
          match write_file (html_file fi) html_content w with
          | inl e => (w, Some e)
          | inr w => run U rest (print (Created (html_file fi) None) w)
          end
      end
  end.

Definition main (U : unicode_db) (w : world) : world * option exn :=
  run U files_to_process w.

End Extract.

(** ** manual_rtf_cleaner.py *)

Module Manual.

Definition ARROW : N := 8594.

Definition control_prefixes : list pystr :=
  [str "\rtf"; str "\cocoartf"; str "\cocoatextscaling"; str "\paperw";
   str "\deftab"].
Definition table_prefixes : list pystr :=
  [str "{\fonttbl"; str "{\colortbl"; str "{\*\expandedcolortbl"].
Definition heading_prefixes : list pystr :=
  [str "WHEREAS"; str "AND WHEREAS"; str "NOW THEREFORE"; str "ARTICLE";
   str "PREAMBLE"; str "ACCEPTANCE ACKNOWLEDGMENT"; str "EFFECTIVE DATE"].

Definition re_line_number : regex :=
  [Bos; star CSpace; plus CDigit; One (CChar ARROW)].
Definition re_command : regex :=
  [One (CChar BSL);
   plus (COr (CRange (ch "a") (ch "z")) (CRange (ch "A") (ch "Z")));
   star CDigit; star CSpace].
Definition re_spaces : regex := [plus CSpace].
Definition re_numbered : regex :=
  [Bos; plus CDigit; One (CChar (ch ".")); plus CDigit].

(** [x in l] for a list of strings. *)
Definition mem (x : pystr) (l : list pystr) : bool :=
  existsb (pystr_eqb x) l.

Definition html_head (title : pystr) : pystr :=
    quoted "<!DOCTYPE html>
<html lang=`en`>
<head>
    <meta charset=`UTF-8`>
    <meta name=`viewport` content=`width=device-width, initial-scale=1.0`>
    <title>"
    ++ title
    ++ quoted " - Lotuslion Venture</title>
    <style>
        body {
            font-family: `Times New Roman`, Times, serif;
            background-color: white;
            color: black;
            line-height: 1.6;
            margin: 0;
            padding: 40px;
            font-size: 14px;
        }
        
        .container {
            max-width: 900px;
            margin: 0 auto;
            padding: 0 20px;
        }
        
        h1 {
            text-align: center;
            font-size: 18px;
            font-weight: bold;
            margin: 40px 0;
            line-height: 1.3;
            text-transform: uppercase;
        }
        
        .company-info {
            text-align: center;
            margin: 30px 0;
            font-style: italic;
            font-size: 14px;
        }
        
        p {
            margin: 16px 0;
            text-align: justify;
            text-indent: 0;
            line-height: 1.6;
            font-size: 14px;
        }
        
        .back-link {
            display: inline-block;
            margin-top: 50px;
            color: black;
            text-decoration: underline;
            font-weight: normal;
        }
        
        .back-link:hover {
            text-decoration: none;
        }
        
        strong {
            font-weight: bold;
        }
        
        em {
            font-style: italic;
        }
    </style>
</head>
<body>
    <div class=`container`>
        <h1>"
    ++ title
    ++ quoted "</h1>
        
        <div class=`company-info`>
            <p><strong>LOTUSLION VENTURE LLP</strong></p>
            <p><em>(A Limited Liability Partnership incorporated under the Limited Liability Partnership Act, 2008)</em></p>
        </div>
".

Definition html_tail : pystr :=
    quoted "
        <a href=`index.html` class=`back-link`>"
    ++ [8592]
    ++ quoted " Back to Course</a>
    </div>
</body>
</html>".

Section WithDatabase.
Variable U : unicode_db.

(** The loop body of [extract_clean_text_from_lines] up to its last
    test: the cleaned text of a line, [None] where the loop goes on to
    the next line before that test. *)
Definition cleaned (line : pystr) : option pystr :=
  (* Skip RTF control lines *)
  if starts_with_any control_prefixes line then None
  else if starts_with_any table_prefixes (strip line) then None
  else
    let line := if re_match U re_line_number line
                then re_sub_str U re_line_number [] line
                else line in
    (* Clean up RTF formatting while preserving text *)
    let line := strip line in
    if negb (nonempty line) || Nat.ltb (length line) 3 then None
    else
      (* Remove RTF control sequences but keep content *)
      let line := re_sub_str U re_command (str " ") line in
      let line := replace (str "}") [] (replace (str "{") [] line) in
      Some (strip (re_sub_str U re_spaces (str " ") line)).

Definition visit (clean_lines : list pystr) (line : pystr) : list pystr :=
  match cleaned line with
  | None => clean_lines
  | Some line =>
      if nonempty line && negb (starts_with [BSL] line)
         && negb (mem line clean_lines)
      then clean_lines ++ [line]
      else clean_lines
  end.

Definition extract_clean_text_from_lines (lines : list pystr)
  : list pystr :=
  fold_left visit lines [].

Definition para_element (para : pystr) : pystr :=
  str "        <p>" ++ strip para ++ str "</p>" ++ [NL].

(** The loop of [create_final_legal_html] on the pair ([html_content],
    [current_paragraph]). *)
Definition group_step (st : pystr * pystr) (line : pystr) : pystr * pystr :=
  let (html_content, current_paragraph) := st in
  if negb (nonempty (strip line)) then st
  else if starts_with_any heading_prefixes line
          || re_match U re_numbered line
  then
    if nonempty (strip current_paragraph)
    then (html_content ++ para_element current_paragraph, line)
    else (html_content, line)
  else if nonempty current_paragraph
       then (html_content, current_paragraph ++ str " " ++ line)
       else (html_content, line).

Definition create_final_legal_html (title : pystr)
           (clean_text_lines : list pystr) : pystr :=
  let (html_content, current_paragraph) :=
    fold_left group_step clean_text_lines (html_head title, []) in
  let html_content :=
    if nonempty (strip current_paragraph)
    then html_content ++ para_element current_paragraph
    else html_content in
  html_content ++ html_tail.

End WithDatabase.
(** [process_single_file]: the whole body is inside [try]. *)
Definition process_single_file (U : unicode_db)
           (rtf_file html_file : string) (title : pystr) (w : world)
  : world :=
  let w := print (Processing rtf_file) w in
  match read_file rtf_file w with
  | inl e => print (Failed rtf_file e) w
  | inr content =>
      let lines := split_on NL content in
      let clean_lines := extract_clean_text_from_lines U lines in
      let html_content := create_final_legal_html U title clean_lines in
      match write_file html_file html_content w with
      | inl e => print (Failed rtf_file e) w
      | inr w => print (Created html_file None) w
      end
  end.

(** [main] is [pass]. *)
Definition main (w : world) : world := w.

End Manual.


(** * Vocabulary of the properties *)

(** ** Patterns *)

(** The character a pattern opens with, when that is a literal. *)
Definition first_lit (r : regex) : option N :=
  match r with
  | One (CChar a) :: _ => Some a
  | _ => None
  end.

(** The first two characters of a pattern that opens with two literal
    characters. *)
Definition first_two (r : regex) : option (N * N) :=
  match r with
  | One (CChar a) :: One (CChar b) :: _ => Some (a, b)
  | _ => None
  end.

(** Patterns without [^]. *)
Fixpoint no_bos (r : regex) : bool :=
  match r with
  | [] => true
  | Bos :: _ => false
  | _ :: r' => no_bos r'
  end.

(** The patterns of the three scripts. *)
Definition all_patterns : list regex :=
  [ Advanced.re_rtf1; Advanced.re_cocoartf; Advanced.re_cocoascaling;
    Advanced.re_fonttbl; Advanced.re_colortbl; Advanced.re_expandedcolortbl;
    Advanced.re_paper; Advanced.re_deftab; Advanced.re_pard;
    Advanced.re_pardeftab; Advanced.re_bold_fs; Advanced.re_bold;
    Advanced.re_bold_end; Advanced.re_italic; Advanced.re_italic_end;
    Advanced.re_f; Advanced.re_fs; Advanced.re_cf; Advanced.re_strokec;
    Advanced.re_expnd; Advanced.re_outl; Advanced.re_command;
    Advanced.re_spaces; Advanced.re_leading; Advanced.re_numbered;
    Extract.re_rtf1; Extract.re_cocoartf; Extract.re_cocoascaling;
    Extract.re_fonttbl; Extract.re_colortbl; Extract.re_expandedcolortbl;
    Extract.re_paper; Extract.re_deftab; Extract.re_pard;
    Extract.re_pardeftab; Extract.re_bold_fs; Extract.re_bold;
    Extract.re_bold_end; Extract.re_italic; Extract.re_italic_end;
    Extract.re_f; Extract.re_fs; Extract.re_cf; Extract.re_strokec;
    Extract.re_expnd; Extract.re_outl; Extract.re_newlines;
    Extract.re_blanks; Extract.re_command; Extract.re_braces;
    Extract.re_bold_span; Extract.re_italic_span; Extract.re_bold_mark;
    Extract.re_normal_mark; Extract.re_italic_mark;
    Manual.re_line_number; Manual.re_command; Manual.re_spaces;
    Manual.re_numbered ].

(** [[a-zA-Z]] *)
Definition letter : cset :=
  COr (CRange (ch "a") (ch "z")) (CRange (ch "A") (ch "Z")).

(** [[*\s]] *)
Definition leading : cset := COr (CChar (ch "*")) CSpace.

(** [s.replace(old, new)] for an [old] that is not empty. *)
Definition repl (old new s : pystr) : pystr :=
  replace_go old new (length s) s.

(** ** Whitespace *)

(** All characters are whitespace. *)
Definition blank (s : pystr) : bool := forallb is_space s.

(** The first character is not whitespace. *)
Definition starts_solid (s : pystr) : bool :=
  match s with
  | [] => false
  | c :: _ => negb (is_space c)
  end.

(** The last character, if there is one, is not whitespace. *)
Fixpoint ends_solid (s : pystr) : bool :=
  match s with
  | [] => true
  | c :: s' =>
      match s' with
      | [] => negb (is_space c)
      | _ :: _ => ends_solid s'
      end
  end.

(** Every whitespace character is a single space with a character that is
    not whitespace after it. *)
Fixpoint tight (s : pystr) : bool :=
  match s with
  | [] => true
  | c :: s' =>
      (if is_space c
       then (c =? SPC) && match s' with
                          | d :: _ => negb (is_space d)
                          | [] => false
                          end
       else true) && tight s'
  end.

(** What [re.sub(r'\s+', ' ', s)] computes: [skipping] says that the
    character before was whitespace. *)
Fixpoint squeeze_go (skipping : bool) (s : pystr) : pystr :=
  match s with
  | [] => []
  | c :: s' =>
      if is_space c
      then if skipping then squeeze_go true s' else SPC :: squeeze_go true s'
      else c :: squeeze_go false s'
  end.

Definition squeeze (s : pystr) : pystr := squeeze_go false s.

(** Every whitespace character is a space and none comes after another;
    [after] says that the character before was whitespace. *)
Fixpoint spaced (after : bool) (s : pystr) : bool :=
  match s with
  | [] => true
  | c :: s' =>
      if is_space c then (c =? SPC) && negb after && spaced true s'
      else spaced false s'
  end.

(** No whitespace. *)
Definition solid (w : pystr) : bool :=
  forallb (fun c => negb (is_space c)) w.

(** ** Words *)

(** The text before the first space, and the text after it. *)
Definition first_word (s : pystr) : pystr := fst (split_once SPC s).

Definition after_space (s : pystr) : pystr :=
  match snd (split_once SPC s) with
  | Some rest => rest
  | None => []
  end.

(** ** Text without control markers *)

(** No backslash and no brace. *)
Definition plain (s : pystr) : bool :=
  negb (has_char BSL s) && negb (has_char (ch "{") s)
  && negb (has_char (ch "}") s).

(** Somewhere in [s] the character [a] has [b] right after it. *)
Fixpoint follows (a b : N) (s : pystr) : bool :=
  match s with
  | [] => false
  | c :: s' =>
      ((c =? a) && match s' with
                   | d :: _ => d =? b
                   | [] => false
                   end)
      || follows a b s'
  end.

(** No brace is followed by a backslash, and no backslash by one of the
    letters a control word of steps 1 to 5 of [clean_rtf_content] starts
    with. *)
Definition no_early_control (s : pystr) : bool :=
  negb (follows (ch "{") BSL s)
  && forallb (fun b => negb (follows BSL b s))
             [ch "r"; ch "c"; ch "p"; ch "d"; ch "f"; ch "s"; ch "e"; ch "o"].

(** A clean plain-text document: no backslash, no brace, and no line that
    starts with the sentinel the engine uses for a paragraph break. *)
Definition clean_text (raw : pystr) : bool :=
  plain raw
  && forallb (fun l => negb (starts_with Advanced.PARA_BREAK (strip l)))
             (split_on NL raw).

Section Vocabulary.
Variable U : unicode_db.

(** [re.sub] on a subject of which [total] characters are known: the
    function the scan is, whatever came before. *)
Definition rsub (total : nat) (r : regex) (rep : list rpart) (s : pystr)
  : pystr :=
  sub_go U total r rep (length s) s.

(** The subject after the longest run of characters of a class. *)
Fixpoint after_run (cs : cset) (s : pystr) : pystr :=
  match s with
  | [] => []
  | c :: s' => if cset_mem U cs c then after_run cs s' else s
  end.

(** The text after a control word that starts at a backslash: its
    letters, the digits of its parameter and the whitespace after that
    are gone. *)
Definition after_command (s : pystr) : pystr :=
  after_run CSpace (after_run CDigit (after_run letter s)).

(** Steps 1 to 5 of [clean_rtf_content]. *)
Definition before_escapes (content : pystr) : pystr :=
  let content := re_sub_str U Advanced.re_rtf1 [] content in
  let content := re_sub_str U Advanced.re_cocoartf [] content in
  let content := re_sub_str U Advanced.re_cocoascaling [] content in
  let content := re_sub_str U Advanced.re_fonttbl [] content in
  let content := re_sub_str U Advanced.re_colortbl [] content in
  let content := re_sub_str U Advanced.re_expandedcolortbl [] content in
  let content := re_sub_str U Advanced.re_paper [] content in
  let content := re_sub_str U Advanced.re_deftab [] content in
  let content :=
    re_sub_str U Advanced.re_pard Advanced.para_break_text content in
  let content := re_sub_str U Advanced.re_pardeftab [] content in
  let content := re_sub_str U Advanced.re_bold_fs (str "BOLD_START") content in
  let content := re_sub_str U Advanced.re_bold (str "BOLD_START") content in
  let content := re_sub_str U Advanced.re_bold_end (str "BOLD_END") content in
  let content := re_sub_str U Advanced.re_italic (str "ITALIC_START") content in
  let content :=
    re_sub_str U Advanced.re_italic_end (str "ITALIC_END") content in
  let content := re_sub_str U Advanced.re_f [] content in
  let content := re_sub_str U Advanced.re_fs [] content in
  let content := re_sub_str U Advanced.re_cf [] content in
  let content := re_sub_str U Advanced.re_strokec [] content in
  let content := re_sub_str U Advanced.re_expnd [] content in
  re_sub_str U Advanced.re_outl [] content.

(** Steps 1 and 2 of [clean_rtf_content]: the header and the layout. *)
Definition preamble (content : pystr) : pystr :=
  let content := re_sub_str U Advanced.re_rtf1 [] content in
  let content := re_sub_str U Advanced.re_cocoartf [] content in
  let content := re_sub_str U Advanced.re_cocoascaling [] content in
  let content := re_sub_str U Advanced.re_fonttbl [] content in
  let content := re_sub_str U Advanced.re_colortbl [] content in
  let content := re_sub_str U Advanced.re_expandedcolortbl [] content in
  let content := re_sub_str U Advanced.re_paper [] content in
  re_sub_str U Advanced.re_deftab [] content.

(** Step 3 after its first line, and steps 4 and 5: fonts and styles. *)
Definition styles (content : pystr) : pystr :=
  let content := re_sub_str U Advanced.re_pardeftab [] content in
  let content := re_sub_str U Advanced.re_bold_fs (str "BOLD_START") content in
  let content := re_sub_str U Advanced.re_bold (str "BOLD_START") content in
  let content := re_sub_str U Advanced.re_bold_end (str "BOLD_END") content in
  let content := re_sub_str U Advanced.re_italic (str "ITALIC_START") content in
  let content :=
    re_sub_str U Advanced.re_italic_end (str "ITALIC_END") content in
  let content := re_sub_str U Advanced.re_f [] content in
  let content := re_sub_str U Advanced.re_fs [] content in
  let content := re_sub_str U Advanced.re_cf [] content in
  let content := re_sub_str U Advanced.re_strokec [] content in
  let content := re_sub_str U Advanced.re_expnd [] content in
  re_sub_str U Advanced.re_outl [] content.

(** Steps 6 and 7 of [clean_rtf_content]. *)
Definition from_escapes (content : pystr) : pystr :=
  let content := replace esc_rupee [RUPEE] content in
  let content := replace esc_linesep [NL] content in
  let content := re_sub_str U Advanced.re_command (str " ") content in
  let content := replace (str "}") [] (replace (str "{") [] content) in
  replace [BSL] [NL] content.

End Vocabulary.

(** [extract_rtf_text] of extract_rtf_content.py up to the clean-up of
    whitespace, before what is left of the controls is removed. *)
Definition extract_normalised (U : unicode_db) (rtf_content : pystr)
  : pystr :=
  let text := rtf_content in
  (* Remove RTF control group declarations *)
  let text := re_sub_str U Extract.re_rtf1 [] text in
  let text := re_sub_str U Extract.re_cocoartf [] text in
  let text := re_sub_str U Extract.re_cocoascaling [] text in
  (* Remove font table *)
  let text := re_sub_str U Extract.re_fonttbl [] text in
  (* Remove color table *)
  let text := re_sub_str U Extract.re_colortbl [] text in
  let text := re_sub_str U Extract.re_expandedcolortbl [] text in
  (* Remove page layout controls *)
  let text := re_sub_str U Extract.re_paper [] text in
  let text := re_sub_str U Extract.re_deftab [] text in
  (* Remove paragraph formatting controls but preserve breaks *)
  let text := re_sub_str U Extract.re_pard [NL; NL] text in
  let text := re_sub_str U Extract.re_pardeftab [] text in
  (* Handle font changes - preserve bold markers *)
  let text := re_sub_str U Extract.re_bold_fs (str "**BOLD**") text in
  let text := re_sub_str U Extract.re_bold (str "**BOLD**") text in
  let text := re_sub_str U Extract.re_bold_end (str "**NORMAL**") text in
  let text := re_sub_str U Extract.re_italic (str "**ITALIC**") text in
  let text := re_sub_str U Extract.re_italic_end (str "**NORMAL**") text in
  (* Remove other font controls *)
  let text := re_sub_str U Extract.re_f [] text in
  let text := re_sub_str U Extract.re_fs [] text in
  (* Remove color and styling controls *)
  let text := re_sub_str U Extract.re_cf [] text in
  let text := re_sub_str U Extract.re_strokec [] text in
  let text := re_sub_str U Extract.re_expnd [] text in
  let text := re_sub_str U Extract.re_outl [] text in
  (* Handle line breaks and special characters *)
  let text := replace esc_rupee [RUPEE] text in
  let text := replace esc_linesep [NL] text in
  let text := replace [BSL] [NL] text in
  (* Clean up excessive whitespace while preserving structure *)
  let text := re_sub_str U Extract.re_newlines [NL; NL] text in
  re_sub_str U Extract.re_blanks (str " ") text.

(** ** HTML text *)

Notation AMP := (38%N) (only parsing).
Notation LT := (60%N) (only parsing).
Notation GT := (62%N) (only parsing).

(** What an HTML generator writes for a character of text. *)
Definition entity (c : N) : pystr :=
  if c =? AMP then str "&amp;"
  else if c =? LT then str "&lt;"
  else if c =? GT then str "&gt;"
  else [c].

(** The markup the scripts put into paragraphs. *)
Definition emphasis_tags : list pystr :=
  [str "<strong>"; str "</strong>"; str "<em>"; str "</em>"].

(** The first of [tags] that the text starts with. *)
Definition find_tag (tags : list pystr) (s : pystr) : option pystr :=
  List.find (fun t => starts_with t s) tags.

(** One pass over a text: a tag of [tags] is copied, any other character
    is written as its entity. *)
Fixpoint markup_go (tags : list pystr) (fuel : nat) (s : pystr) : pystr :=
  match fuel with
  | O => []
  | S fuel' =>
      match s with
      | [] => []
      | c :: s' =>
          match find_tag tags s with
          | Some t => t ++ markup_go tags fuel' (skipn (length t) s)
          | None => entity c ++ markup_go tags fuel' s'
          end
      end
  end.

Definition markup (tags : list pystr) (s : pystr) : pystr :=
  markup_go tags (length s) s.

(** The paragraph text as the claim describes it: [&], [<] and [>] as
    entities, the four emphasis tags as they are. *)
Definition markup_spec (para : pystr) : pystr := markup emphasis_tags para.

(** A tag and its escaped form, from the name between the brackets. *)
Definition tag_of (w : pystr) : pystr := LT :: w ++ [GT].
Definition esc_of (w : pystr) : pystr :=
  AMP :: str "lt;" ++ w ++ str "&gt;".

(** Not one of [&], [<], [>]. *)
Definition ordinary (c : N) : bool :=
  negb (c =? AMP) && negb (c =? LT) && negb (c =? GT).

(** ** Content *)

Notation USCORE := (95%N) (only parsing).
Notation STAR := (42%N) (only parsing).

(** The visible characters of a text: those that are not whitespace. *)
Definition visible (s : pystr) : pystr :=
  List.filter (fun c => negb (is_space c)) s.

(** A paragraph without the emphasis markup. *)
Definition strip_emphasis (p : pystr) : pystr :=
  replace (str "</em>") []
    (replace (str "<em>") []
       (replace (str "</strong>") [] (replace (str "<strong>") [] p))).

(** A line that step 8 of [clean_rtf_content] keeps whole: blank, or of
    three characters at least once trimmed and not starting with an
    asterisk. *)
Definition body_line (l : pystr) : bool :=
  negb (nonempty (strip l))
  || (Nat.leb 3 (length (strip l)) && negb (starts_with [STAR] (strip l))).

(** A document of plain text: no control marker (backslash, brace), none
    of [<] and [_], which markup and the sentinels of the engine are made
    with, and only lines that step 8 keeps whole. *)
Definition plain_document (raw : pystr) : bool :=
  plain raw && negb (has_char LT raw) && negb (has_char USCORE raw)
  && forallb body_line (split_on NL raw).

(** ** Emphasis *)

Inductive emphasis : Type := Bold | Italic.

(** A paragraph read from left to right, with the emphasis that is open:
    a START needs that none is open, an END that its own kind is, and at
    the end none is open. *)
Fixpoint balanced_from (opened : option emphasis) (s : pystr) : bool :=
  match s with
  | [] => match opened with None => true | Some _ => false end
  | _ :: s' =>
      if starts_with (str "<strong>") s
      then match opened with
           | None => balanced_from (Some Bold) s'
           | Some _ => false
           end
      else if starts_with (str "</strong>") s
      then match opened with
           | Some Bold => balanced_from None s'
           | _ => false
           end
      else if starts_with (str "<em>") s
      then match opened with
           | None => balanced_from (Some Italic) s'
           | Some _ => false
           end
      else if starts_with (str "</em>") s
      then match opened with
           | Some Italic => balanced_from None s'
           | _ => false
           end
      else balanced_from opened s'
  end.

(** Every START has its END after it and no two are open together. *)
Definition balanced (s : pystr) : bool := balanced_from None s.

(** Lowercase letters and spaces. *)
Definition lower_text (s : pystr) : bool :=
  forallb (fun c => in_range 97 122 c || (c =? SPC)) s.

(** A lowercase letter at the head of a text. *)
Definition lower_head (s : pystr) : bool :=
  match s with
  | c :: _ => in_range 97 122 c
  | [] => false
  end.

(** Words of lowercase letters with one space between them. *)
Definition sentence (s : pystr) : bool :=
  lower_text s && starts_solid s && ends_solid s && tight s.

(** A text, a switch to bold, a text, the switch back, a text. *)
Definition with_bold (before emphasised after : pystr) : pystr :=
  before ++ str " \f0\b " ++ emphasised ++ str "\f1\b0 " ++ after.

(** The same with the switches as markup. *)
Definition with_strong (before emphasised after : pystr) : pystr :=
  before ++ str " <strong> " ++ emphasised ++ str "</strong> " ++ after.

(** A text, a switch to italic, a text, the switch back, a text. *)
Definition with_italic (before emphasised after : pystr) : pystr :=
  before ++ str " \f2\i " ++ emphasised ++ str "\f1\i0 " ++ after.

(** The same with the switches as markup. *)
Definition with_em (before emphasised after : pystr) : pystr :=
  before ++ str " <em> " ++ emphasised ++ str "</em> " ++ after.

(** An italic span with a line break in it: the switch back comes on the
    next line. *)
Definition italic_over_lines (before first rest after : pystr) : pystr :=
  before ++ str " \f2\i " ++ first ++ [NL] ++ rest ++ str "\f1\i0 "
    ++ after.

(** ** Inputs of the examples *)

(** A repeated sentence of the source text. *)
Definition c9_lines : list pystr :=
  [str "The Company shall refund the fee."; str "Clause two applies.";
   str "  The Company   shall refund the fee. "].

(** A run in which the first file of the list is missing and the other two
    are there. *)
Definition missing_first : world :=
  {| files :=
       {[ "PRIVACY AND DATA PROTECTION POLICY.txt"%string :=
            str "We keep your data private.";
          "POLICY FOR REFUND, RESTITUTION AND REVERSAL OF PECUNIARY CONSIDERATION.txt"%string :=
            str "Refunds are made within ten days." ]};
     unwritable := ∅;
     console := [] |}.

(** The three files are there; the first page cannot be written. *)
Definition locked_first : world :=
  {| files :=
       {[ "TERMS AND CONDITIONS OF SERVICE.txt"%string :=
            str "These terms bind both parties.";
          "PRIVACY AND DATA PROTECTION POLICY.txt"%string :=
            str "We keep your data private.";
          "POLICY FOR REFUND, RESTITUTION AND REVERSAL OF PECUNIARY CONSIDERATION.txt"%string :=
            str "Refunds are made within ten days." ]};
     unwritable := {[ "terms.html"%string ]};
     console := [] |}.

(** Two groups of lines with a blank line between them. *)
Definition c5_input : pystr :=
  str "The first paragraph." ++ [NL; NL] ++ str "The second paragraph.".

(** The input of the example scenario of the specification. *)
Definition c2_input : pystr :=
  str "\pard\f0\b\fs24 WHEREAS the parties agree\f1\b0 as follows.\pard next paragraph.".


(** * Properties *)

(** ** The matcher and [re.sub] *)

Section EngineFacts.
Variable U : unicode_db.

Lemma sub_go_fuel total r rep :
  forall n m s, (length s <= n)%nat -> (length s <= m)%nat ->
    sub_go U total r rep n s = sub_go U total r rep m s.
Proof.
  induction n as [|n IH]; intros m s Hn Hm.
  - destruct s; simpl in *; [|lia]. destruct m; reflexivity.
  - destruct m as [|m].
    + destruct s; simpl in *; [reflexivity|lia].
    + destruct s as [|c s']; [reflexivity|].
      simpl in Hn, Hm. cbn [sub_go].
      destruct (rmatch U total r g0 (c :: s')) as [[g rest]|].
      * destruct (Nat.ltb (length rest) (length (c :: s'))) eqn:E.
        -- apply Nat.ltb_lt in E. simpl in E.
           f_equal. apply IH; lia.
        -- f_equal. apply IH; lia.
      * f_equal. apply IH; lia.
Qed.

Lemma re_sub_rsub r rep s : re_sub U r rep s = rsub U (length s) r rep s.
Proof. reflexivity. Qed.

Lemma rsub_nil total r rep : rsub U total r rep [] = [].
Proof. reflexivity. Qed.

Lemma rsub_cons total r rep c s :
  rsub U total r rep (c :: s) =
  match rmatch U total r g0 (c :: s) with
  | Some (g, rest) =>
      if Nat.ltb (length rest) (length (c :: s))
      then expand rep g ++ rsub U total r rep rest
      else c :: rsub U total r rep s
  | None => c :: rsub U total r rep s
  end.
Proof.
  unfold rsub. cbn [length sub_go].
  destruct (rmatch U total r g0 (c :: s)) as [[g rest]|]; [|reflexivity].
  destruct (Nat.ltb (length rest) (S (length s))) eqn:E; [|reflexivity].
  apply Nat.ltb_lt in E. f_equal. apply sub_go_fuel; lia.
Qed.

Lemma rsub_miss total r rep c s :
  rmatch U total r g0 (c :: s) = None ->
  rsub U total r rep (c :: s) = c :: rsub U total r rep s.
Proof. intros H. rewrite rsub_cons, H. reflexivity. Qed.

Lemma rsub_hit total r rep c s g rest :
  rmatch U total r g0 (c :: s) = Some (g, rest) ->
  (length rest < length (c :: s))%nat ->
  rsub U total r rep (c :: s) = expand rep g ++ rsub U total r rep rest.
Proof.
  intros H L. rewrite rsub_cons, H.
  apply Nat.ltb_lt in L. rewrite L. reflexivity.
Qed.

Lemma rmatch_first_lit total r g a c s :
  first_lit r = Some a -> c <> a -> rmatch U total r g (c :: s) = None.
Proof.
  destruct r as [|[[]| | | | |] r']; try discriminate.
  intros [= ->] Hc. cbn.
  destruct (N.eqb_spec c a); [contradiction|reflexivity].
Qed.

Lemma has_char_false_cons a c p :
  has_char a (c :: p) = false -> c <> a /\ has_char a p = false.
Proof.
  unfold has_char. cbn. intros H. apply orb_false_elim in H as [H1 H2].
  split; [|exact H2]. apply N.eqb_neq in H1. congruence.
Qed.

Lemma has_char_app a p q :
  has_char a (p ++ q) = has_char a p || has_char a q.
Proof. unfold has_char. apply existsb_app. Qed.

Lemma rsub_skip total r rep a p s :
  first_lit r = Some a -> has_char a p = false ->
  rsub U total r rep (p ++ s) = p ++ rsub U total r rep s.
Proof.
  intros Hr. induction p as [|c p IH]; intros Hp; [reflexivity|].
  apply has_char_false_cons in Hp as [Hc Hp].
  cbn [app]. rewrite rsub_miss by (eapply rmatch_first_lit; eauto).
  rewrite IH by assumption. reflexivity.
Qed.

Lemma re_sub_absent r rep a s :
  first_lit r = Some a -> has_char a s = false -> re_sub U r rep s = s.
Proof.
  intros Hr Hs. rewrite re_sub_rsub.
  rewrite <- (app_nil_r s) at 2. rewrite (rsub_skip _ _ _ a) by assumption.
  rewrite rsub_nil. apply app_nil_r.
Qed.

(** A match takes at least [min_len] characters of the subject. *)
Lemma many_min (A : Type) lz cs (k : pystr -> option A) x :
  forall s mn, many U A lz cs mn s k = Some x ->
    exists s', k s' = Some x /\ (length s' + mn <= length s)%nat.
Proof.
  induction s as [|c s IH]; intros mn H.
  - destruct mn; cbn in H; [|discriminate].
    exists []. split; [exact H|cbn; lia].
  - assert (More : many U A lz cs (Nat.pred mn) s k = Some x ->
                   exists s', k s' = Some x
                              /\ (length s' + mn <= length (c :: s))%nat).
    { intros E. apply IH in E as (s' & E & L). exists s'.
      split; [exact E|cbn; lia]. }
    cbn [many] in H. cbv zeta in H.
    destruct (cset_mem U cs c).
    + destruct lz; unfold orelse in H.
      * destruct mn as [|mn]; [|auto].
        destruct (k (c :: s)) eqn:E; [|auto].
        exists (c :: s). split; [congruence|cbn; lia].
      * destruct (many U A false cs (Nat.pred mn) s k) eqn:E; [auto|].
        destruct mn as [|mn]; [|discriminate].
        exists (c :: s). split; [exact H|cbn; lia].
    + destruct mn as [|mn]; [|discriminate].
      exists (c :: s). split; [exact H|cbn; lia].
Qed.

Lemma rmatch_min_len total r :
  forall g s g' rest,
    rmatch U total r g s = Some (g', rest) ->
    (length rest + min_len r <= length s)%nat.
Proof.
  induction r as [|i r IH]; intros g s g' rest H.
  - cbn in H. inversion H; subst. cbn. lia.
  - destruct i; cbn [rmatch min_len] in *.
    + destruct s as [|c s]; [discriminate|].
      destruct (cset_mem U cs c); [|discriminate].
      apply IH in H. cbn. lia.
    + apply many_min in H as (s' & H & L). apply IH in H. lia.
    + destruct s as [|c s]; [apply IH in H; exact H|].
      destruct (cset_mem U cs c); [discriminate|]. apply IH in H. exact H.
    + destruct (Nat.eqb (length s) total); [|discriminate].
      apply IH in H. exact H.
    + apply IH in H. exact H.
    + apply IH in H. exact H.
Qed.

(** For a pattern that cannot match the empty string, [re.sub] replaces
    every match it finds: the test on lengths in [sub_go] never fails. *)
Lemma rsub_cons_progress total r rep c s :
  (0 < min_len r)%nat ->
  rsub U total r rep (c :: s) =
  match rmatch U total r g0 (c :: s) with
  | Some (g, rest) => expand rep g ++ rsub U total r rep rest
  | None => c :: rsub U total r rep s
  end.
Proof.
  intros Hr. rewrite rsub_cons.
  destruct (rmatch U total r g0 (c :: s)) as [[g rest]|] eqn:E; [|reflexivity].
  apply rmatch_min_len in E.
  replace (Nat.ltb (length rest) (length (c :: s))) with true; [reflexivity|].
  symmetry. apply Nat.ltb_lt. lia.
Qed.

End EngineFacts.

(** No pattern of the scripts matches the empty string. *)
Lemma patterns_take_a_character :
  forallb (fun r => Nat.ltb 0 (min_len r)) all_patterns = true.
Proof. vm_compute. reflexivity. Qed.

(** ** [str.replace] *)

Lemma replace_go_fuel o old new :
  forall n m s, (length s <= n)%nat -> (length s <= m)%nat ->
    replace_go (o :: old) new n s = replace_go (o :: old) new m s.
Proof.
  induction n as [|n IH]; intros m s Hn Hm.
  - destruct s; simpl in *; [|lia]. destruct m; reflexivity.
  - destruct m as [|m].
    + destruct s; simpl in *; [reflexivity|lia].
    + destruct s as [|c s']; [reflexivity|].
      simpl in Hn, Hm. cbn [replace_go].
      destruct (starts_with (o :: old) (c :: s')).
      * f_equal. apply IH; rewrite length_skipn; simpl; lia.
      * f_equal. apply IH; lia.
Qed.

Lemma replace_repl o old new s :
  replace (o :: old) new s = repl (o :: old) new s.
Proof. reflexivity. Qed.

Lemma repl_nil old new : repl old new [] = [].
Proof. reflexivity. Qed.

Lemma repl_cons o old new c s :
  repl (o :: old) new (c :: s) =
  if starts_with (o :: old) (c :: s)
  then new ++ repl (o :: old) new (skipn (length old) s)
  else c :: repl (o :: old) new s.
Proof.
  unfold repl. cbn [length replace_go].
  destruct (starts_with (o :: old) (c :: s)) eqn:E; [|reflexivity].
  f_equal. cbn [skipn]. apply replace_go_fuel; rewrite length_skipn; lia.
Qed.

Lemma repl_skip o old new p s :
  has_char o p = false ->
  repl (o :: old) new (p ++ s) = p ++ repl (o :: old) new s.
Proof.
  induction p as [|c p IH]; intros Hp; [reflexivity|].
  apply has_char_false_cons in Hp as [Hc Hp].
  cbn [app]. rewrite repl_cons. cbn [starts_with].
  destruct (N.eqb_spec o c); [congruence|]. cbn.
  rewrite IH by assumption. reflexivity.
Qed.

Lemma replace_absent old new o s :
  hd_error old = Some o -> has_char o s = false -> replace old new s = s.
Proof.
  destruct old as [|o' old]; [discriminate|]. intros [= ->] Hs.
  rewrite replace_repl. rewrite <- (app_nil_r s) at 1.
  rewrite repl_skip by assumption. rewrite repl_nil. apply app_nil_r.
Qed.


(** ** Whitespace *)

Lemma lstrip_blank s : lstrip s = [] <-> blank s = true.
Proof.
  induction s as [|c s IH]; cbn; [tauto|].
  destruct (is_space c); cbn; [exact IH|]. split; discriminate.
Qed.

Lemma rstrip_nil s : rstrip s = [] <-> blank s = true.
Proof.
  induction s as [|c s IH]; cbn; [tauto|].
  destruct (rstrip s) eqn:E.
  - destruct (is_space c); cbn.
    + tauto.
    + split; discriminate.
  - split; [discriminate|]. intros H. apply andb_true_iff in H as [_ H].
    apply IH in H. discriminate.
Qed.

Lemma blank_lstrip s : blank (lstrip s) = blank s.
Proof.
  induction s as [|c s IH]; cbn; [reflexivity|].
  destruct (is_space c) eqn:E; cbn; [exact IH|]. rewrite E. reflexivity.
Qed.

Lemma strip_nil s : strip s = [] <-> blank s = true.
Proof. unfold strip. rewrite rstrip_nil, blank_lstrip. tauto. Qed.

Lemma nonempty_strip s : nonempty (strip s) = negb (blank s).
Proof.
  destruct (blank s) eqn:E.
  - apply strip_nil in E. rewrite E. reflexivity.
  - destruct (strip s) eqn:F; [|reflexivity].
    apply strip_nil in F. congruence.
Qed.

Lemma rstrip_ends_solid s : ends_solid (rstrip s) = true.
Proof.
  induction s as [|c s IH]; cbn; [reflexivity|].
  destruct (rstrip s) as [|d t] eqn:E.
  - destruct (is_space c) eqn:F; cbn; [reflexivity|]. rewrite F. reflexivity.
  - cbn. exact IH.
Qed.

Lemma strip_ends_solid s : ends_solid (strip s) = true.
Proof. apply rstrip_ends_solid. Qed.

Lemma ends_solid_blank s :
  ends_solid s = true -> s <> [] -> blank s = false.
Proof.
  induction s as [|c s IH]; [congruence|]. intros H _.
  change (blank (c :: s)) with (is_space c && blank s).
  destruct s as [|d s'].
  - cbn in H. apply negb_true_iff in H. rewrite H. reflexivity.
  - rewrite IH; [apply andb_false_r|exact H|discriminate].
Qed.

Lemma ends_solid_tail c s :
  ends_solid (c :: s) = true -> is_space c = true ->
  ends_solid s = true /\ blank s = false.
Proof.
  intros H Hc. destruct s as [|d s'].
  - cbn in H. rewrite Hc in H. discriminate.
  - split; [exact H|]. apply ends_solid_blank; [exact H|discriminate].
Qed.

Lemma ends_solid_cons c s : ends_solid (c :: s) = true -> ends_solid s = true.
Proof. destruct s; [reflexivity|]. intros H; exact H. Qed.

Lemma squeeze_go_tight s :
  forall b, ends_solid s = true -> (b = true -> blank s = false) ->
    tight (squeeze_go b s) = true
    /\ (b = true -> starts_solid (squeeze_go b s) = true).
Proof.
  induction s as [|c s IH]; intros b He Hb.
  - split; [reflexivity|]. intros ->. specialize (Hb eq_refl). discriminate.
  - cbn [squeeze_go]. destruct (is_space c) eqn:Hc.
    + destruct (ends_solid_tail _ _ He Hc) as [He' Hs'].
      destruct (IH true He' (fun _ => Hs')) as [T S].
      specialize (S eq_refl).
      destruct b; [split; [exact T|intros _; exact S]|].
      split; [|discriminate].
      cbn [tight]. replace (is_space SPC) with true by reflexivity.
      rewrite N.eqb_refl, T. destruct (squeeze_go true s); [discriminate|].
      cbn in S. rewrite S. reflexivity.
    + destruct (IH false (ends_solid_cons _ _ He)) as [T _]; [discriminate|].
      split.
      * cbn [tight]. rewrite Hc, T. reflexivity.
      * intros _. cbn. rewrite Hc. reflexivity.
Qed.

Lemma squeeze_tight s : ends_solid s = true -> tight (squeeze s) = true.
Proof.
  intros H. apply (squeeze_go_tight s false H). discriminate.
Qed.

Lemma squeeze_go_blank s : forall b, blank (squeeze_go b s) = true -> blank s = true.
Proof.
  induction s as [|c s IH]; intros b; [reflexivity|].
  cbn. destruct (is_space c) eqn:Hc; cbn.
  - destruct b; cbn; [apply IH|]. apply IH.
  - rewrite Hc. discriminate.
Qed.

Lemma squeeze_go_lstrip s : squeeze_go true s = squeeze (lstrip s).
Proof.
  induction s as [|c s IH]; [reflexivity|].
  cbn. destruct (is_space c) eqn:Hc; [exact IH|].
  unfold squeeze. cbn. rewrite Hc. reflexivity.
Qed.

Lemma squeeze_head c s :
  is_space c = false -> squeeze (c :: s) = c :: squeeze s.
Proof. intros H. unfold squeeze. cbn. rewrite H. reflexivity. Qed.

(** ** Repetitions *)

Section ManyFacts.
Variable U : unicode_db.

Lemma after_run_length cs s : (length (after_run U cs s) <= length s)%nat.
Proof.
  induction s as [|c s IH]; cbn; [lia|].
  destruct (cset_mem U cs c); cbn; lia.
Qed.

(** A greedy repetition takes the whole run when what follows accepts
    that. *)
Lemma many_greedy_run (A : Type) cs (k : pystr -> option A) x :
  forall s mn,
    k (after_run U cs s) = Some x ->
    (mn <= length s - length (after_run U cs s))%nat ->
    many U A false cs mn s k = Some x.
Proof.
  induction s as [|c s IH]; intros mn Hk Hmn; cbn in *.
  - assert (mn = O) by lia. subst. exact Hk.
  - destruct (cset_mem U cs c) eqn:E.
    + rewrite (IH (Nat.pred mn) Hk); [reflexivity|].
      pose proof (after_run_length cs s). lia.
    + cbn in Hmn. assert (mn = O) by lia. subst. exact Hk.
Qed.

Lemma many_miss (A : Type) lz cs mn c s (k : pystr -> option A) :
  cset_mem U cs c = false -> many U A lz cs (S mn) (c :: s) k = None.
Proof. intros H. cbn. rewrite H. reflexivity. Qed.

Lemma many_nil (A : Type) lz cs mn (k : pystr -> option A) :
  many U A lz cs (S mn) [] k = None.
Proof. reflexivity. Qed.

Lemma after_run_space s : after_run U CSpace s = lstrip s.
Proof.
  induction s as [|c s IH]; cbn; [reflexivity|].
  destruct (is_space c); [exact IH|reflexivity].
Qed.

Lemma rmatch_spaces total c s :
  rmatch U total Advanced.re_spaces g0 (c :: s) =
  if is_space c then Some (g0, lstrip s) else None.
Proof.
  unfold Advanced.re_spaces, plus. cbn [rmatch].
  destruct (is_space c) eqn:E.
  - apply many_greedy_run.
    + rewrite after_run_space. cbn. rewrite E. reflexivity.
    + cbn [after_run cset_mem]. rewrite E. cbn.
      pose proof (after_run_length CSpace s). lia.
  - apply many_miss. exact E.
Qed.

Lemma lstrip_length s : (length (lstrip s) <= length s)%nat.
Proof.
  induction s as [|c s IH]; cbn; [lia|]. destruct (is_space c); cbn; lia.
Qed.

(** [re.sub(r'\s+', ' ', s)] *)
Lemma rsub_spaces total s :
  rsub U total Advanced.re_spaces [RText (str " ")] s = squeeze s.
Proof.
  remember (length s) as n eqn:Hn.
  revert s Hn. induction n as [n IH] using lt_wf_ind. intros s Hn.
  destruct s as [|c s]; [reflexivity|].
  rewrite rsub_cons, rmatch_spaces.
  destruct (is_space c) eqn:E.
  - pose proof (lstrip_length s) as L.
    replace (Nat.ltb (length (lstrip s)) (length (c :: s))) with true
      by (symmetry; apply Nat.ltb_lt; cbn; lia).
    rewrite (IH (length (lstrip s))); [|cbn in Hn; lia|reflexivity].
    unfold squeeze at 2. cbn. rewrite E. rewrite squeeze_go_lstrip.
    reflexivity.
  - rewrite (IH (length s)); [|cbn in Hn; lia|reflexivity].
    rewrite squeeze_head by exact E. reflexivity.
Qed.

Lemma re_sub_spaces s :
  re_sub_str U Advanced.re_spaces (str " ") s = squeeze s.
Proof. apply rsub_spaces. Qed.

End ManyFacts.


(** ** [structure_legal_document] *)

Lemma split_ws_solid c s :
  is_space c = false -> exists w ws, split_ws (c :: s) = w :: ws.
Proof.
  intros H. cbn [split_ws]. rewrite H.
  destruct s as [|d s']; [eauto|].
  destruct (is_space d); [eauto|].
  destruct (split_ws (d :: s')); eauto.
Qed.

Lemma tight_split_once s :
  forall a b, tight s = true -> split_once SPC s = (a, Some b) ->
    starts_solid b = true.
Proof.
  induction s as [|c s IH]; intros a b T H; [discriminate|].
  cbn [split_once] in H. cbn [tight] in T.
  apply andb_true_iff in T as [T1 T2].
  destruct (N.eqb_spec c SPC) as [->|Hc].
  - cbn in H. inversion H; subst; clear H.
    replace (is_space SPC) with true in T1 by reflexivity.
    destruct b; [discriminate|]. exact T1.
  - destruct (split_once SPC s) as [a' b'] eqn:E.
    inversion H; subst; clear H. eapply IH; eauto.
Qed.

Lemma starts_with_any_solid ps c s :
  forallb starts_solid ps = true -> starts_with_any ps (c :: s) = true ->
  is_space c = false.
Proof.
  unfold starts_with_any. induction ps as [|p ps IH]; [discriminate|].
  cbn [forallb existsb]. intros F W.
  apply andb_true_iff in F as [F1 F2].
  apply orb_true_iff in W as [W|W]; [|auto].
  destruct p as [|x p]; [discriminate|]. cbn in F1, W.
  apply andb_true_iff in W as [W _]. apply N.eqb_eq in W. subst.
  apply negb_true_iff. exact F1.
Qed.

Lemma blank_solid_head c s : is_space c = false -> blank (c :: s) = false.
Proof. intros H. cbn. rewrite H. reflexivity. Qed.

Section StructureFacts.
Variable U : unicode_db.

Lemma re_match_bos r s :
  re_match U (Bos :: r) s =
  match rmatch U (length s) r g0 s with Some _ => true | None => false end.
Proof. unfold re_match. cbn [rmatch]. rewrite Nat.eqb_refl. reflexivity. Qed.

Lemma numbered_head s :
  re_match U Advanced.re_numbered s = true ->
  exists c s', s = c :: s' /\ is_decimal U c = true.
Proof.
  unfold Advanced.re_numbered. rewrite re_match_bos.
  destruct s as [|c s']; [discriminate|].
  destruct (is_decimal U c) eqn:E; [eauto|].
  unfold Advanced.digits, plus. cbn [rmatch].
  rewrite many_miss by exact E. discriminate.
Qed.

Lemma numbered_markup s :
  re_match U Advanced.re_numbered (str "<strong>" ++ s) = false.
Proof.
  destruct (re_match U Advanced.re_numbered (str "<strong>" ++ s)) eqn:E;
    [|reflexivity].
  apply numbered_head in E as (c & s' & H & D).
  injection H as <- _. discriminate.
Qed.

(** [format_para] raises no [IndexError] on a paragraph that does not
    end in whitespace, and what it returns is blank only if the
    paragraph was. *)
Lemma format_para_total para :
  ends_solid para = true ->
  exists q, Advanced.format_para U para = Some q
            /\ (blank para = false -> blank q = false).
Proof.
  intros He. unfold Advanced.format_para.
  rewrite re_sub_spaces.
  pose proof (squeeze_tight _ He) as T.
  assert (B : blank para = false -> blank (squeeze para) = false).
  { intros B. destruct (blank (squeeze para)) eqn:E; [|reflexivity].
    apply squeeze_go_blank in E. congruence. }
  set (sq := squeeze para) in *. clearbody sq.
  destruct (starts_with_any _ sq) eqn:W.
  - (* a leading WHEREAS, AND WHEREAS or NOW THEREFORE *)
    assert (exists c s, sq = c :: s /\ is_space c = false) as (c & s & -> & Hc).
    { destruct sq as [|c s]; [discriminate|]. exists c, s. split; [reflexivity|].
      eapply starts_with_any_solid; [|exact W]. reflexivity. }
    destruct (split_ws_solid c s Hc) as (w & ws & ->).
    cbn [hd_error mbind option_bind tl].
    replace (starts_with (str "ARTICLE") _) with false by reflexivity.
    cbn [andb]. rewrite numbered_markup.
    eexists. split; [reflexivity|]. intros _. reflexivity.
  - cbn [mbind option_bind].
    destruct (starts_with (str "ARTICLE") sq && has_char (ch ":") sq).
    + rewrite numbered_markup.
      eexists. split; [reflexivity|]. intros _. reflexivity.
    + destruct (re_match U Advanced.re_numbered sq) eqn:N.
      * destruct (split_once SPC sq) as [p0 [p1|]] eqn:S.
        -- pose proof (tight_split_once _ _ _ T S) as Hs.
           destruct p1 as [|d p1]; [discriminate|].
           apply negb_true_iff in Hs.
           destruct (split_ws_solid d p1 Hs) as (w & ws & ->).
           cbn [hd_error mbind option_bind tl].
           eexists. split; [reflexivity|]. intros _. reflexivity.
        -- eexists. split; [reflexivity|]. exact B.
      * eexists. split; [reflexivity|]. exact B.
Qed.

Lemma format_all_total ps :
  Forall (fun p => ends_solid p = true) ps ->
  exists qs, Advanced.format_all U ps = Some qs
             /\ Forall (fun q => blank q = false) qs
             /\ (length qs <= length ps)%nat.
Proof.
  induction 1 as [|p ps Hp _ IH].
  - exists []. repeat split; constructor.
  - destruct IH as (qs & E & F & L). cbn [Advanced.format_all].
    rewrite nonempty_strip.
    destruct (blank p) eqn:B; cbn [negb].
    + exists qs. repeat split; auto. cbn; lia.
    + destruct (format_para_total p Hp) as (q & Eq & Bq).
      rewrite Eq, E. cbn. exists (q :: qs). repeat split.
      * constructor; auto.
      * cbn; lia.
Qed.

(** The paragraphs of the first loop end in a character that is not
    whitespace: each is a [strip] of something. *)
Lemma gather_step_solid st line :
  Forall (fun p => ends_solid p = true) (fst st) ->
  Forall (fun p => ends_solid p = true) (fst (Advanced.gather_step st line)).
Proof.
  destruct st as [ps cur]. unfold Advanced.gather_step. cbn [fst]. intros H.
  destruct (nonempty (strip line)); cbn [negb].
  - destruct (nonempty cur); exact H.
  - destruct (nonempty cur); cbn [fst]; [|exact H].
    apply Forall_app. split; [exact H|].
    constructor; [apply strip_ends_solid|constructor].
Qed.

Lemma gather_fold_solid lines :
  forall st, Forall (fun p => ends_solid p = true) (fst st) ->
    Forall (fun p => ends_solid p = true)
           (fst (fold_left Advanced.gather_step lines st)).
Proof.
  induction lines as [|l lines IH]; intros st H; [exact H|].
  cbn [fold_left]. apply IH. apply gather_step_solid. exact H.
Qed.

Lemma gather_solid content :
  Forall (fun p => ends_solid p = true) (Advanced.gather content).
Proof.
  unfold Advanced.gather.
  pose proof (gather_fold_solid (split_on NL content) ([], [])
                (List.Forall_nil _)) as H.
  destruct (fold_left _ _ _) as [ps cur]. cbn [fst] in H.
  destruct (nonempty cur); [|exact H].
  apply Forall_app. split; [exact H|].
  constructor; [apply strip_ends_solid|constructor].
Qed.

(** [structure_legal_document] returns, whatever its input, and none of
    the paragraphs it returns is blank. *)
Lemma structure_total content title :
  exists ps, Advanced.structure_legal_document U content title = Some ps
             /\ Forall (fun p => blank p = false) ps
             /\ (length ps <= length (Advanced.gather content))%nat.
Proof.
  unfold Advanced.structure_legal_document.
  apply format_all_total, gather_solid.
Qed.

End StructureFacts.

(** C4 (paragraph non-emptiness): for every input the advanced recovery
    returns a list of paragraphs (it raises nothing), and no paragraph of it
    is empty or made of whitespace only: [p.strip()] is never empty. *)
Theorem C4_paragraphs_not_blank :
  forall (U : unicode_db) (raw title : pystr),
    exists ps, Advanced.recover U raw title = Some ps
               /\ Forall (fun p => nonempty (strip p) = true) ps.
Proof.
  intros U raw title. unfold Advanced.recover.
  destruct (structure_total U (Advanced.clean_rtf_content U raw) title)
    as (ps & E & F & _).
  exists ps. split; [exact E|].
  eapply List.Forall_impl; [|exact F]. cbn. intros p B.
  rewrite nonempty_strip, B. reflexivity.
Qed.

(** Two paragraph-reset markers with nothing between them leave no empty
    paragraph. *)
Lemma consecutive_resets :
  forall (U : unicode_db) (title : pystr),
    Advanced.recover U (str "First clause.\pard\pard\f1 Second clause.") title
    = Some [str "First clause."; str "Second clause."].
Proof. intros U title. vm_compute. reflexivity. Qed.


(** ** The manual variant: no line twice *)

Lemma pystr_eqb_eq a : forall b, pystr_eqb a b = true <-> a = b.
Proof.
  induction a as [|x a IH]; intros [|y b]; cbn; try (split; congruence).
  rewrite andb_true_iff, N.eqb_eq, IH. split.
  - intros [-> ->]. reflexivity.
  - intros H. inversion H. auto.
Qed.

Lemma mem_In x l : Manual.mem x l = true <-> List.In x l.
Proof.
  unfold Manual.mem. rewrite existsb_exists. split.
  - intros (y & Hy & E). apply pystr_eqb_eq in E. subst. exact Hy.
  - intros H. exists x. split; [exact H|]. apply pystr_eqb_eq. reflexivity.
Qed.

Section ManualFacts.
Variable U : unicode_db.

Lemma visit_NoDup acc line :
  List.NoDup acc -> List.NoDup (Manual.visit U acc line).
Proof.
  intros H. unfold Manual.visit.
  destruct (Manual.cleaned U line) as [c|]; [|exact H].
  destruct (Manual.mem c acc) eqn:M.
  - rewrite andb_false_r. exact H.
  - destruct (nonempty c && negb (starts_with [BSL] c)); [|exact H].
    cbn [negb andb].
    apply List.NoDup_rev in H. rewrite <- (rev_involutive (acc ++ [c])).
    apply List.NoDup_rev. rewrite rev_app_distr. cbn.
    constructor; [|exact H].
    rewrite <- in_rev. intros I. apply mem_In in I. congruence.
Qed.

Lemma fold_visit_NoDup lines :
  forall acc, List.NoDup acc ->
    List.NoDup (fold_left (Manual.visit U) lines acc).
Proof.
  induction lines as [|l lines IH]; intros acc H; [exact H|].
  cbn [fold_left]. apply IH, visit_NoDup, H.
Qed.

Lemma visit_seen acc line c :
  Manual.cleaned U line = Some c -> List.In c acc ->
  Manual.visit U acc line = acc.
Proof.
  intros E I. unfold Manual.visit. rewrite E.
  apply mem_In in I. rewrite I. rewrite andb_false_r. reflexivity.
Qed.

End ManualFacts.

(** C9 (line deduplication in the manual variant): the list that
    [extract_clean_text_from_lines] returns has no line twice, and a line
    whose cleaned text has been emitted for the lines before it changes
    nothing: the result is that of the list without it. *)
Theorem C9_manual_emits_each_line_once :
  forall (U : unicode_db) (lines : list pystr),
    List.NoDup (Manual.extract_clean_text_from_lines U lines)
    /\ forall before line after c,
        lines = before ++ line :: after ->
        Manual.cleaned U line = Some c ->
        List.In c (Manual.extract_clean_text_from_lines U before) ->
        Manual.extract_clean_text_from_lines U lines
        = Manual.extract_clean_text_from_lines U (before ++ after).
Proof.
  intros U lines. split.
  - apply fold_visit_NoDup. constructor.
  - intros before line after c -> E I.
    unfold Manual.extract_clean_text_from_lines in *.
    rewrite !fold_left_app. cbn [fold_left].
    rewrite (visit_seen U _ _ _ E I). reflexivity.
Qed.

Lemma C9_witness :
  List.NoDup (Manual.extract_clean_text_from_lines ascii_db c9_lines)
  /\ Manual.extract_clean_text_from_lines ascii_db c9_lines
     = [str "The Company shall refund the fee."; str "Clause two applies."].
Proof.
  destruct (C9_manual_emits_each_line_once ascii_db c9_lines) as [N D].
  split; [exact N|].
  rewrite (D [str "The Company shall refund the fee."; str "Clause two applies."]
             (str "  The Company   shall refund the fee. ") []
             (str "The Company shall refund the fee."));
    [vm_compute; reflexivity | reflexivity | vm_compute; reflexivity
    | vm_compute; left; reflexivity].
Defined.

(** ** The batch loops *)

Section BatchFacts.
Variable U : unicode_db.

(** What one turn of the loop of the advanced variant prints: the file
    is announced, then created or reported as failed; what was printed
    before stays. *)
Lemma process_file_console w fi :
  exists out,
    console (Advanced.process_file U w fi)
    = console w ++ [Processing (rtf_file fi); out]
    /\ ((exists n, out = Created (html_file fi) n)
        \/ exists e, out = Failed (rtf_file fi) e).
Proof.
  unfold Advanced.process_file.
  destruct (read_file _ _) as [e|text] eqn:R.
  - exists (Failed (rtf_file fi) e). cbn. rewrite <- app_assoc. eauto.
  - destruct (Advanced.structure_legal_document _ _ _) as [ps|].
    + destruct (write_file _ _ _) as [e|w'] eqn:Wr.
      * exists (Failed (rtf_file fi) e). cbn. rewrite <- app_assoc. eauto.
      * exists (Created (html_file fi) (Some (length ps))).
        unfold write_file in Wr.
        destruct (bool_decide _); [discriminate|].
        inversion Wr; subst; clear Wr. cbn. rewrite <- app_assoc. eauto.
    + exists (Failed (rtf_file fi) IndexError).
      cbn. rewrite <- app_assoc. eauto.
Qed.

Lemma run_console_keeps batch :
  forall w ev, List.In ev (console w) ->
    List.In ev (console (Advanced.run U batch w)).
Proof.
  unfold Advanced.run.
  induction batch as [|fi batch IH]; intros w ev H; [exact H|].
  cbn [fold_left]. apply IH.
  destruct (process_file_console w fi) as (out & -> & _).
  apply in_or_app. left. exact H.
Qed.

(** The loop of the advanced variant goes through the whole list: every
    file of it is announced and then created or reported, whatever
    happened to the files before it. *)
Lemma advanced_run_fail_independent batch :
  forall w fi, List.In fi batch ->
    List.In (Processing (rtf_file fi)) (console (Advanced.run U batch w))
    /\ exists out,
        List.In out (console (Advanced.run U batch w))
        /\ ((exists n, out = Created (html_file fi) n)
            \/ exists e, out = Failed (rtf_file fi) e).
Proof.
  induction batch as [|fi0 batch IH]; intros w fi H; [destruct H|].
  destruct H as [->|H]; [|apply IH; exact H].
  unfold Advanced.run. cbn [fold_left]. fold (Advanced.run U batch).
  destruct (process_file_console w fi) as (out & E & D).
  split.
  - apply run_console_keeps. rewrite E.
    apply in_or_app. right. left. reflexivity.
  - exists out. split; [|exact D].
    apply run_console_keeps. rewrite E.
    apply in_or_app. right. right. left. reflexivity.
Qed.

End BatchFacts.

(** C6 (fail-independent batch): [main] of extract_rtf_content.py does not
    have it.  With the first file missing, [open] raises, nothing catches
    it, and the program ends: the two files that are there are never
    announced and their pages are not written. *)
Theorem C6_extract_main_aborts :
  forall U : unicode_db,
    snd (Extract.main U missing_first)
    = Some (FileNotFoundError "TERMS AND CONDITIONS OF SERVICE.txt")
    /\ console (fst (Extract.main U missing_first))
       = [Processing "TERMS AND CONDITIONS OF SERVICE.txt"]
    /\ files (fst (Extract.main U missing_first)) !! "privacy.html"%string
       = None
    /\ files (fst (Extract.main U missing_first)) !! "refund.html"%string
       = None.
Proof.
  intros U. vm_compute. repeat split; reflexivity.
Qed.

(** On the same files [main] of advanced_rtf_processor.py reports the
    missing file and goes on: both pages are written. *)
Lemma advanced_main_goes_on :
  forall U : unicode_db,
    console (Advanced.main U missing_first)
    = [Processing "TERMS AND CONDITIONS OF SERVICE.txt";
       Failed "TERMS AND CONDITIONS OF SERVICE.txt"
              (FileNotFoundError "TERMS AND CONDITIONS OF SERVICE.txt");
       Processing "PRIVACY AND DATA PROTECTION POLICY.txt";
       Created "privacy.html" (Some 1%nat);
       Processing "POLICY FOR REFUND, RESTITUTION AND REVERSAL OF PECUNIARY CONSIDERATION.txt";
       Created "refund.html" (Some 1%nat)]
    /\ is_Some (files (Advanced.main U missing_first) !! "privacy.html"%string)
    /\ is_Some (files (Advanced.main U missing_first) !! "refund.html"%string).
Proof.
  intros U. vm_compute. repeat split; eexists; reflexivity.
Qed.

(** The same holds when a page cannot be written: the first script ends
    there, the second reports the failure and writes the other two pages. *)
Lemma extract_main_aborts_on_write :
  forall U : unicode_db,
    snd (Extract.main U locked_first) = Some (PermissionError "terms.html")
    /\ files (fst (Extract.main U locked_first)) !! "privacy.html"%string
       = None.
Proof.
  intros U. vm_compute. split; reflexivity.
Qed.

Lemma advanced_main_goes_on_after_write :
  forall U : unicode_db,
    console (Advanced.main U locked_first)
    = [Processing "TERMS AND CONDITIONS OF SERVICE.txt";
       Failed "TERMS AND CONDITIONS OF SERVICE.txt"
              (PermissionError "terms.html");
       Processing "PRIVACY AND DATA PROTECTION POLICY.txt";
       Created "privacy.html" (Some 1%nat);
       Processing "POLICY FOR REFUND, RESTITUTION AND REVERSAL OF PECUNIARY CONSIDERATION.txt";
       Created "refund.html" (Some 1%nat)].
Proof.
  intros U. vm_compute. reflexivity.
Qed.


(** ** Residual control words *)

Section TotalFacts.
Variable U : unicode_db.

Lemma many_ext (A : Type) lz cs (k1 k2 : pystr -> option A) :
  (forall s, k1 s = k2 s) ->
  forall s mn, many U A lz cs mn s k1 = many U A lz cs mn s k2.
Proof.
  intros E. induction s as [|c s IH]; intros mn; cbn.
  - destruct mn; [apply E|reflexivity].
  - rewrite (IH (Nat.pred mn)).
    destruct mn; [rewrite E|]; reflexivity.
Qed.

(** Such a pattern matches the same way wherever it is tried. *)
Lemma rmatch_total t1 t2 r :
  no_bos r = true -> forall g s, rmatch U t1 r g s = rmatch U t2 r g s.
Proof.
  induction r as [|i r IH]; intros H g s; [reflexivity|].
  destruct i; cbn in H; try discriminate; cbn [rmatch].
  - destruct s as [|c s]; [reflexivity|].
    destruct (cset_mem U cs c); [apply IH; exact H|reflexivity].
  - apply many_ext. intros s'. apply IH. exact H.
  - destruct s as [|c s]; [apply IH; exact H|].
    destruct (cset_mem U cs c); [reflexivity|apply IH; exact H].
  - apply IH. exact H.
  - apply IH. exact H.
Qed.

Lemma sub_go_total t1 t2 r rep :
  no_bos r = true ->
  forall n s, sub_go U t1 r rep n s = sub_go U t2 r rep n s.
Proof.
  intros H. induction n as [|n IH]; intros s; [reflexivity|].
  destruct s as [|c s]; [reflexivity|]. cbn [sub_go].
  rewrite (rmatch_total t1 t2 r H).
  destruct (rmatch U t2 r g0 (c :: s)) as [[g rest]|]; rewrite ?IH;
    reflexivity.
Qed.

Lemma rsub_total t1 t2 r rep s :
  no_bos r = true -> rsub U t1 r rep s = rsub U t2 r rep s.
Proof. intros H. apply sub_go_total. exact H. Qed.

(** For a pattern without [^], [re.sub] of a text is [rsub], whatever
    the text is part of. *)
Lemma re_sub_any_total t r rep s :
  no_bos r = true -> re_sub U r rep s = rsub U t r rep s.
Proof. intros H. rewrite re_sub_rsub. apply rsub_total. exact H. Qed.

Lemma after_command_length s : (length (after_command U s) <= length s)%nat.
Proof.
  unfold after_command.
  pose proof (after_run_length U letter s).
  pose proof (after_run_length U CDigit (after_run U letter s)).
  pose proof (after_run_length U CSpace
                (after_run U CDigit (after_run U letter s))).
  lia.
Qed.

Lemma rmatch_command total c s :
  cset_mem U letter c = true ->
  rmatch U total Advanced.re_command g0 (BSL :: c :: s)
  = Some (g0, after_command U s).
Proof.
  intros L. unfold Advanced.re_command, plus, star. cbn [rmatch].
  replace (cset_mem U (CChar BSL) BSL) with true by reflexivity.
  fold letter.
  apply many_greedy_run.
  - apply many_greedy_run; [|lia].
    apply many_greedy_run; [|lia].
    cbn [after_run]. rewrite L. reflexivity.
  - cbn [after_run]. rewrite L. cbn [length].
    pose proof (after_run_length U letter s). lia.
Qed.

(** Residual control stripping in [clean_rtf_content] (step 7): in a
    text with no backslash before it, a control word and what belongs
    to it become one space, and the scan goes on after it. *)
Lemma advanced_command_single_space before c s :
  has_char BSL before = false ->
  cset_mem U letter c = true ->
  re_sub_str U Advanced.re_command (str " ") (before ++ BSL :: c :: s)
  = before ++ str " "
      ++ re_sub_str U Advanced.re_command (str " ") (after_command U s).
Proof.
  intros Hb Hc. unfold re_sub_str.
  rewrite (re_sub_any_total O), (re_sub_any_total O (_) _ (after_command U s))
    by reflexivity.
  rewrite (rsub_skip U _ _ _ BSL) by (reflexivity || assumption).
  f_equal.
  rewrite (rsub_hit U _ _ _ _ _ g0 (after_command U s)).
  - reflexivity.
  - apply rmatch_command. exact Hc.
  - pose proof (after_command_length s). cbn [length]. lia.
Qed.

(** The same holds in manual_rtf_cleaner.py, whose pattern is the same. *)
Lemma manual_command_single_space before c s :
  has_char BSL before = false ->
  cset_mem U letter c = true ->
  re_sub_str U Manual.re_command (str " ") (before ++ BSL :: c :: s)
  = before ++ str " "
      ++ re_sub_str U Manual.re_command (str " ") (after_command U s).
Proof. apply advanced_command_single_space. Qed.

End TotalFacts.

(** Braces go without a space in their place. *)
Lemma braces_removed s :
  replace (str "}") [] (replace (str "{") [] s)
  = List.filter (fun c => negb (c =? ch "{") && negb (c =? ch "}")) s.
Proof.
  assert (R : forall x s, replace [x] [] s = List.filter (fun c => negb (c =? x)) s).
  { intros x t. rewrite replace_repl.
    induction t as [|c t IH]; [reflexivity|].
    rewrite repl_cons. cbn [starts_with length skipn List.filter].
    change (skipn 0 t) with t.
    rewrite N.eqb_sym. destruct (c =? x); cbn; rewrite IH; reflexivity. }
  change (str "}") with [ch "}"]. change (str "{") with [ch "{"].
  rewrite !R. induction s as [|c s IH]; [reflexivity|].
  cbn [List.filter]. destruct (c =? ch "{"); cbn [negb andb List.filter].
  - exact IH.
  - destruct (c =? ch "}"); cbn [negb]; rewrite IH; reflexivity.
Qed.

(** C7 (residual control stripping): extract_rtf_content.py does not do
    it.  Its backslashes have become line breaks before the pattern for
    control words is tried, so the pattern finds none: the keyword [par]
    stays in the text of the paragraph. *)
Theorem C7_extract_keeps_control_word :
  forall U : unicode_db,
    Extract.recover U (str "Clause one.\par Clause two.")
    = [str "Clause one. par Clause two."].
Proof. intros U. vm_compute. reflexivity. Qed.

(** On the same text advanced_rtf_processor.py puts one space for the
    control word. *)
Lemma advanced_strips_control_word :
  forall U : unicode_db,
    Advanced.recover U (str "Clause one.\par Clause two.") []
    = Some [str "Clause one. Clause two."].
Proof. intros U. vm_compute. reflexivity. Qed.


(** ** Text without control markers *)

Lemma follows_absent a b s : has_char a s = false -> follows a b s = false.
Proof.
  induction s as [|c s IH]; [reflexivity|]. intros H.
  apply has_char_false_cons in H as [Hc Hs].
  cbn [follows]. rewrite IH by exact Hs.
  destruct (N.eqb_spec c a); [contradiction|reflexivity].
Qed.

Lemma follows_skip a b p s :
  has_char a p = false -> follows a b (p ++ s) = follows a b s.
Proof.
  induction p as [|c p IH]; [reflexivity|]. intros H.
  apply has_char_false_cons in H as [Hc Hs].
  cbn [app follows]. rewrite IH by exact Hs.
  destruct (N.eqb_spec c a); [contradiction|reflexivity].
Qed.

Section GuardFacts.
Variable U : unicode_db.

Lemma rmatch_first_two total r g a b c s :
  first_two r = Some (a, b) ->
  ((c =? a) && match s with d :: _ => d =? b | [] => false end) = false ->
  rmatch U total r g (c :: s) = None.
Proof.
  destruct r as [|[[]| | | | |] [|[[]| | | | |] r']]; try discriminate.
  intros [= -> ->] H. cbn [rmatch cset_mem].
  destruct (c =? a); [|reflexivity].
  destruct s as [|d s]; [reflexivity|].
  cbn in H. rewrite H. reflexivity.
Qed.

(** [re.sub] changes nothing where the first two characters of the
    pattern do not occur together. *)
Lemma rsub_unguarded total r rep a b s :
  first_two r = Some (a, b) -> follows a b s = false ->
  rsub U total r rep s = s.
Proof.
  intros Hr. induction s as [|c s IH]; [reflexivity|].
  cbn [follows]. intros H. apply orb_false_elim in H as [H1 H2].
  rewrite rsub_miss by (eapply rmatch_first_two; eauto).
  rewrite IH by exact H2. reflexivity.
Qed.

Lemma re_sub_unguarded r rep a b s :
  first_two r = Some (a, b) -> follows a b s = false ->
  re_sub_str U r rep s = s.
Proof. intros. eapply rsub_unguarded; eauto. Qed.

Lemma strip_controls_split content :
  Advanced.strip_controls U content = from_escapes U (before_escapes U content).
Proof.
  unfold Advanced.strip_controls, from_escapes, before_escapes.
  cbv zeta. reflexivity.
Qed.

Lemma before_escapes_id s :
  no_early_control s = true -> before_escapes U s = s.
Proof.
  unfold no_early_control. cbn [forallb]. intros H.
  repeat (apply andb_true_iff in H as [?H%negb_true_iff H]).
  unfold before_escapes.
  repeat (erewrite (re_sub_unguarded _ _ _ _ s); [|reflexivity|eassumption]).
  reflexivity.
Qed.

Lemma plain_chars s :
  plain s = true ->
  has_char BSL s = false /\ has_char (ch "{") s = false
  /\ has_char (ch "}") s = false.
Proof.
  unfold plain. intros H.
  apply andb_true_iff in H as [H H3]. apply andb_true_iff in H as [H1 H2].
  apply negb_true_iff in H1, H2, H3. auto.
Qed.

Lemma plain_no_early_control s : plain s = true -> no_early_control s = true.
Proof.
  intros H. apply plain_chars in H as (H1 & H2 & H3).
  unfold no_early_control. cbn [forallb].
  rewrite (follows_absent _ _ _ H2), !(follows_absent _ _ _ H1).
  reflexivity.
Qed.

Lemma from_escapes_plain s : plain s = true -> from_escapes U s = s.
Proof.
  intros H. apply plain_chars in H as (H1 & H2 & H3).
  unfold from_escapes.
  rewrite (replace_absent esc_rupee _ BSL s) by (reflexivity || exact H1).
  rewrite (replace_absent esc_linesep _ BSL s) by (reflexivity || exact H1).
  unfold re_sub_str.
  rewrite (re_sub_absent U _ _ BSL s) by (reflexivity || exact H1).
  rewrite (replace_absent _ _ (ch "{") s) by (reflexivity || exact H2).
  rewrite (replace_absent _ _ (ch "}") s) by (reflexivity || exact H3).
  apply (replace_absent _ _ BSL); [reflexivity|exact H1].
Qed.

(** Steps 1 to 7 leave a text without control markers as it is. *)
Lemma strip_controls_plain s :
  plain s = true -> Advanced.strip_controls U s = s.
Proof.
  intros H. rewrite strip_controls_split.
  rewrite before_escapes_id by (apply plain_no_early_control, H).
  apply from_escapes_plain, H.
Qed.

End GuardFacts.


(** ** Lines *)

Lemma split_on_single sep l :
  has_char sep l = false -> split_on sep l = [l].
Proof.
  induction l as [|c l IH]; [reflexivity|]. intros H.
  apply has_char_false_cons in H as [Hc Hl]. cbn [split_on].
  destruct (N.eqb_spec c sep); [contradiction|].
  rewrite IH by exact Hl. reflexivity.
Qed.

Lemma split_on_app sep l rest :
  has_char sep l = false ->
  split_on sep (l ++ sep :: rest) = l :: split_on sep rest.
Proof.
  induction l as [|c l IH]; intros H.
  - cbn. rewrite N.eqb_refl. reflexivity.
  - apply has_char_false_cons in H as [Hc Hl]. cbn [app split_on].
    destruct (N.eqb_spec c sep); [contradiction|].
    rewrite IH by exact Hl. reflexivity.
Qed.

(** [split] undoes [join] when no line has the separator in it. *)
Lemma split_join sep l ls :
  Forall (fun x => has_char sep x = false) (l :: ls) ->
  split_on sep (join [sep] (l :: ls)) = l :: ls.
Proof.
  revert l. induction ls as [|l' ls IH]; intros l H.
  - cbn. apply split_on_single. inversion H; assumption.
  - inversion H as [|? ? Hl H']; subst.
    change (join [sep] (l :: l' :: ls)) with (l ++ sep :: join [sep] (l' :: ls)).
    rewrite split_on_app by exact Hl. rewrite IH by exact H'. reflexivity.
Qed.

Lemma has_char_cons a c s : has_char a (c :: s) = (a =? c) || has_char a s.
Proof. reflexivity. Qed.

Lemma squeeze_go_no_newline s : forall b, has_char NL (squeeze_go b s) = false.
Proof.
  induction s as [|c s IH]; intros b; [reflexivity|].
  cbn [squeeze_go]. destruct (is_space c) eqn:E.
  - destruct b; [apply IH|]. rewrite has_char_cons, IH. reflexivity.
  - rewrite has_char_cons, IH.
    destruct (N.eqb_spec NL c) as [<-|]; [discriminate|reflexivity].
Qed.

Section LineFacts.
Variable U : unicode_db.

Lemma after_run_keeps_absent cs x s :
  has_char x s = false -> has_char x (after_run U cs s) = false.
Proof.
  induction s as [|c s IH]; [reflexivity|]. intros H. cbn [after_run].
  destruct (cset_mem U cs c); [|exact H].
  apply has_char_false_cons in H as [_ H]. apply IH, H.
Qed.

Lemma after_run_head cs s c t :
  after_run U cs s = c :: t -> cset_mem U cs c = false.
Proof.
  induction s as [|d s IH]; [discriminate|]. cbn [after_run].
  destruct (cset_mem U cs d) eqn:E; [exact IH|].
  intros [= -> _]. exact E.
Qed.

(** Nothing matches a pattern that opens with [^] once the scan has
    left the start of the subject. *)
Lemma rsub_bos_late total r rep s :
  (length s < total)%nat -> rsub U total (Bos :: r) rep s = s.
Proof.
  induction s as [|c s IH]; [reflexivity|]. intros L.
  rewrite rsub_miss.
  - rewrite IH by (cbn in L; lia). reflexivity.
  - cbn [rmatch]. destruct (Nat.eqb_spec (length (c :: s)) total); [lia|].
    reflexivity.
Qed.

(** [re.sub(r'^[*\s]+', '', s)] *)
Lemma re_sub_leading s :
  re_sub_str U Advanced.re_leading [] s = after_run U leading s.
Proof.
  unfold re_sub_str. rewrite re_sub_rsub.
  destruct s as [|c s]; [reflexivity|].
  rewrite rsub_cons. unfold Advanced.re_leading, plus. cbn [rmatch].
  rewrite Nat.eqb_refl. fold leading.
  destruct (cset_mem U leading c) eqn:E.
  - pose proof (after_run_length U leading s) as L.
    rewrite (many_greedy_run U _ leading _ (g0, after_run U leading (c :: s))).
    + cbn [after_run]. rewrite E.
      replace (Nat.ltb _ _) with true
        by (symmetry; apply Nat.ltb_lt; cbn; lia).
      cbn [expand List.map List.concat app].
      apply rsub_bos_late. cbn. lia.
    + reflexivity.
    + cbn [after_run]. rewrite E. cbn. lia.
  - rewrite many_miss by exact E. cbn [after_run]. rewrite E.
    f_equal. apply rsub_bos_late. cbn. lia.
Qed.

(** What the loop of step 8 appends for a line: the empty string for a
    paragraph break, nothing, or a line that has no line break in it
    and does not start with whitespace. *)
Lemma clean_line_cases line :
  (Advanced.clean_line U line = [[]]
   /\ starts_with Advanced.PARA_BREAK (strip line) = true)
  \/ Advanced.clean_line U line = []
  \/ exists l, Advanced.clean_line U line = [l]
               /\ has_char NL l = false /\ starts_solid l = true.
Proof.
  unfold Advanced.clean_line.
  destruct (starts_with Advanced.PARA_BREAK (strip line)) eqn:P.
  - left. rewrite orb_true_r. cbn. auto.
  - right.
    destruct (negb (nonempty (strip line)) || false
              || Nat.ltb (length (strip line)) 3); [left; reflexivity|].
    rewrite re_sub_spaces, re_sub_leading.
    set (x := replace _ _ _).
    destruct (after_run U leading (squeeze x)) as [|c t] eqn:E;
      [left; reflexivity|].
    right. exists (c :: t). split; [reflexivity|]. split.
    + rewrite <- E. apply after_run_keeps_absent, squeeze_go_no_newline.
    + apply after_run_head in E. cbn in E.
      apply orb_false_elim in E as [_ E]. cbn. rewrite E. reflexivity.
Qed.

Lemma gather_step_keeps ps cur line :
  blank line = false ->
  fst (Advanced.gather_step (ps, cur) line) = ps.
Proof.
  intros B. unfold Advanced.gather_step.
  rewrite nonempty_strip, B. cbn. destruct (nonempty cur); reflexivity.
Qed.

(** Lines that are not blank all go into one paragraph. *)
Lemma gather_fold_keeps lines :
  Forall (fun l => blank l = false) lines ->
  forall ps cur,
    fst (fold_left Advanced.gather_step lines (ps, cur)) = ps.
Proof.
  induction 1 as [|l lines B _ IH]; intros ps cur; [reflexivity|].
  cbn [fold_left].
  pose proof (gather_step_keeps ps cur l B) as E.
  destruct (Advanced.gather_step (ps, cur) l) as [ps' cur'].
  cbn in E. subst. apply IH.
Qed.

Lemma gather_one lines :
  Forall (fun l => blank l = false) lines ->
  (length (let (paragraphs, current_para) :=
             fold_left Advanced.gather_step lines ([], []) in
           if nonempty current_para
           then paragraphs ++ [strip current_para]
           else paragraphs) <= 1)%nat.
Proof.
  intros H. pose proof (gather_fold_keeps lines H [] []) as E.
  destruct (fold_left _ _ _) as [ps cur]. cbn in E. subst.
  destruct (nonempty cur); cbn; lia.
Qed.

Lemma starts_solid_not_blank l : starts_solid l = true -> blank l = false.
Proof.
  destruct l as [|c l]; [discriminate|]. cbn. intros H.
  apply negb_true_iff in H. rewrite H. reflexivity.
Qed.

(** The text of a document that has no paragraph-break sentinel is made
    of lines that all go into one paragraph. *)
Lemma gather_without_breaks lines :
  Forall (fun l => starts_with Advanced.PARA_BREAK (strip l) = false) lines ->
  (length (Advanced.gather
             (join [NL] (flat_map (Advanced.clean_line U) lines))) <= 1)%nat.
Proof.
  intros H.
  assert (S : Forall (fun l => has_char NL l = false /\ starts_solid l = true)
                     (flat_map (Advanced.clean_line U) lines)).
  { induction H as [|l lines P _ IH]; [constructor|].
    cbn [flat_map]. apply Forall_app. split; [|exact IH].
    destruct (clean_line_cases l) as [[_ Q]|[->|(x & -> & Hx)]].
    - congruence.
    - constructor.
    - constructor; [exact Hx|constructor]. }
  unfold Advanced.gather.
  destruct (flat_map (Advanced.clean_line U) lines) as [|l ls].
  - cbn. lia.
  - rewrite split_join
      by (eapply List.Forall_impl; [|exact S]; cbn; tauto).
    apply gather_one.
    eapply List.Forall_impl; [|exact S]. cbn.
    intros a [_ Ha]. apply starts_solid_not_blank, Ha.
Qed.

Lemma clean_rtf_content_plain raw :
  plain raw = true ->
  Advanced.clean_rtf_content U raw
  = join [NL] (flat_map (Advanced.clean_line U) (split_on NL raw)).
Proof.
  intros H. unfold Advanced.clean_rtf_content.
  rewrite strip_controls_plain by exact H. reflexivity.
Qed.

End LineFacts.





(** ** The rupee escape *)

Lemma starts_with_app p s : starts_with p (p ++ s) = true.
Proof.
  induction p as [|c p IH]; [reflexivity|].
  cbn [app starts_with]. rewrite N.eqb_refl. exact IH.
Qed.

Lemma skipn_app_exact (p s : pystr) : skipn (length p) (p ++ s) = s.
Proof. induction p as [|c p IH]; [reflexivity|exact IH]. Qed.

(** One occurrence of [old], with none before it, is replaced by [new]. *)
Lemma repl_hit o old new p s :
  has_char o p = false ->
  repl (o :: old) new (p ++ (o :: old) ++ s)
  = p ++ new ++ repl (o :: old) new s.
Proof.
  intros H. rewrite repl_skip by exact H. f_equal.
  cbn [app]. rewrite repl_cons.
  change (o :: old ++ s) with ((o :: old) ++ s).
  rewrite starts_with_app. rewrite skipn_app_exact. reflexivity.
Qed.

Lemma repl_hit_here o old new s :
  repl (o :: old) new ((o :: old) ++ s) = new ++ repl (o :: old) new s.
Proof. apply (repl_hit o old new [] s). reflexivity. Qed.

Lemma plain_app p q : plain (p ++ q) = plain p && plain q.
Proof.
  unfold plain. rewrite !has_char_app.
  destruct (has_char BSL p), (has_char BSL q), (has_char (ch "{") p),
    (has_char (ch "{") q), (has_char (ch "}") p), (has_char (ch "}") q);
    reflexivity.
Qed.

Section RupeeFacts.
Variable U : unicode_db.

Lemma rupee_no_early_control p q :
  plain p = true -> plain q = true ->
  no_early_control (p ++ esc_rupee ++ q) = true.
Proof.
  intros Hp Hq.
  apply plain_chars in Hp as (P1 & P2 & P3).
  apply plain_chars in Hq as (Q1 & Q2 & Q3).
  unfold no_early_control. cbn [forallb].
  rewrite (follows_absent (ch "{")); cycle 1.
  { rewrite !has_char_app, P2, Q2. reflexivity. }
  rewrite !(follows_skip BSL _ p) by exact P1.
  change (esc_rupee ++ q)
    with (BSL :: ch "u" :: ch "c" :: ch "0" :: BSL :: ch "u" :: str "8377" ++ q).
  cbn [follows].
  rewrite !(follows_skip BSL _ (str "8377")) by reflexivity.
  rewrite !(follows_absent BSL _ q) by exact Q1.
  reflexivity.
Qed.

Lemma replace_rupee p q :
  plain p = true -> plain q = true ->
  replace esc_rupee [RUPEE] (p ++ esc_rupee ++ q) = p ++ [RUPEE] ++ q.
Proof.
  intros Hp Hq.
  apply plain_chars in Hp as (P1 & _ & _).
  apply plain_chars in Hq as (Q1 & _ & _).
  change esc_rupee with (BSL :: List.tl esc_rupee).
  rewrite replace_repl, repl_hit by exact P1.
  rewrite <- replace_repl.
  rewrite (replace_absent _ _ BSL q) by (reflexivity || exact Q1).
  reflexivity.
Qed.

Lemma plain_with_rupee p q :
  plain p = true -> plain q = true -> plain (p ++ [RUPEE] ++ q) = true.
Proof. intros Hp Hq. rewrite !plain_app, Hp, Hq. reflexivity. Qed.

(** Steps 1 to 7 put the rupee sign where the escape was and leave the
    text around it as it is. *)
Lemma strip_controls_rupee p q :
  plain p = true -> plain q = true ->
  Advanced.strip_controls U (p ++ esc_rupee ++ q) = p ++ [RUPEE] ++ q.
Proof.
  intros Hp Hq. rewrite strip_controls_split.
  rewrite before_escapes_id by (apply rupee_no_early_control; assumption).
  pose proof (plain_with_rupee p q Hp Hq) as Hy.
  etransitivity; [|exact (from_escapes_plain U (p ++ [RUPEE] ++ q) Hy)].
  unfold from_escapes. rewrite replace_rupee by assumption.
  apply plain_chars in Hy as (Y1 & _ & _).
  rewrite (replace_absent esc_rupee _ BSL (p ++ [RUPEE] ++ q))
    by (reflexivity || exact Y1).
  reflexivity.
Qed.

Lemma clean_rtf_content_rupee p q :
  plain p = true -> plain q = true ->
  Advanced.clean_rtf_content U (p ++ esc_rupee ++ q)
  = Advanced.clean_rtf_content U (p ++ [RUPEE] ++ q).
Proof.
  intros Hp Hq. unfold Advanced.clean_rtf_content.
  rewrite strip_controls_rupee by assumption.
  rewrite strip_controls_plain by (apply plain_with_rupee; assumption).
  reflexivity.
Qed.

End RupeeFacts.




(** ** The example of the specification *)

(** C2 as amended (example scenario): the first paragraph recovered from
    the input of the example is the sentence with its emphasis, the space
    that follows the font switch kept inside the emphasis. *)
Theorem C2_first_paragraph :
  forall (U : unicode_db) (title : pystr),
    exists rest,
      Advanced.recover U c2_input title
      = Some (str "<strong> WHEREAS the parties agree</strong> as follows."
                :: rest).
Proof. intros U title. eexists. vm_compute. reflexivity. Qed.

(** C2 as stated fails: the result is not the two paragraphs of the
    example. *)
Lemma C2_counterexample :
  Advanced.recover ascii_db c2_input []
  <> Some [str "<strong>WHEREAS the parties agree</strong> as follows.";
           str "next paragraph."].
Proof. vm_compute. discriminate. Qed.

(** What the result is: one paragraph; the text after the second
    paragraph-reset marker is not in it. *)
Lemma c2_recovered :
  forall (U : unicode_db) (title : pystr),
    Advanced.recover U c2_input title
    = Some [str "<strong> WHEREAS the parties agree</strong> as follows."].
Proof. intros U title. vm_compute. reflexivity. Qed.


(** ** Escaping in the page of the extract variant *)

Lemma starts_with_split t : forall s,
  starts_with t s = true -> s = t ++ skipn (length t) s.
Proof.
  induction t as [|x t IH]; intros s H; [reflexivity|].
  destruct s as [|c s]; [discriminate|]. cbn [starts_with] in H.
  apply andb_true_iff in H as [E H]. apply N.eqb_eq in E. subst.
  cbn [length skipn app]. f_equal. apply IH, H.
Qed.

Lemma find_tag_app tags t s :
  find_tag (tags ++ [t]) s
  = match find_tag tags s with
    | Some u => Some u
    | None => if starts_with t s then Some t else None
    end.
Proof.
  unfold find_tag. induction tags as [|u tags IH]; cbn [app List.find].
  - destruct (starts_with t s); reflexivity.
  - destruct (starts_with u s); [reflexivity|exact IH].
Qed.

Lemma find_tag_snoc ws w s :
  find_tag (List.map tag_of (ws ++ [w])) s
  = match find_tag (List.map tag_of ws) s with
    | Some u => Some u
    | None => if starts_with (tag_of w) s then Some (tag_of w) else None
    end.
Proof. rewrite map_app. apply find_tag_app. Qed.

Lemma find_tag_in tags s t :
  find_tag tags s = Some t -> List.In t tags /\ starts_with t s = true.
Proof. intros H. apply List.find_some in H. exact H. Qed.

Lemma ordinary_head c :
  ordinary c = true -> c <> AMP /\ c <> LT /\ c <> GT.
Proof.
  unfold ordinary. intros H.
  apply andb_true_iff in H as [H H3]. apply andb_true_iff in H as [H1 H2].
  apply negb_true_iff, N.eqb_neq in H1, H2, H3. auto.
Qed.

Lemma entity_ordinary c : ordinary c = true -> entity c = [c].
Proof.
  intros H. apply ordinary_head in H as (H1 & H2 & H3). unfold entity.
  apply N.eqb_neq in H1, H2, H3. rewrite H1, H2, H3. reflexivity.
Qed.

(** The characters a text of entities can start with. *)
Lemma entity_cases c :
  (c = AMP /\ entity c = AMP :: str "amp;")
  \/ (c = LT /\ entity c = AMP :: str "lt;")
  \/ (c = GT /\ entity c = AMP :: str "gt;")
  \/ (ordinary c = true /\ entity c = [c]).
Proof.
  change (str "amp;") with (List.tl (str "&amp;")).
  change (str "lt;") with (List.tl (str "&lt;")).
  change (str "gt;") with (List.tl (str "&gt;")).
  unfold entity, ordinary.
  destruct (N.eqb_spec c (AMP)); [auto|].
  destruct (N.eqb_spec c (LT)); [auto|].
  destruct (N.eqb_spec c (GT)); [auto 6|].
  right. right. right. auto.
Qed.

Section MarkupFacts.
(** The names of the tags that are copied. *)
Variable ws : list pystr.
Hypothesis ws_ordinary : Forall (fun w => forallb ordinary w = true) ws.

Let tags : list pystr := List.map tag_of ws.

Lemma tag_in t : List.In t tags -> exists w, t = tag_of w /\ forallb ordinary w = true.
Proof.
  unfold tags. rewrite in_map_iff. intros (w & <- & I).
  exists w. split; [reflexivity|].
  rewrite List.Forall_forall in ws_ordinary. apply ws_ordinary, I.
Qed.

Lemma markup_go_fuel :
  forall n m s, (length s <= n)%nat -> (length s <= m)%nat ->
    markup_go tags n s = markup_go tags m s.
Proof.
  induction n as [|n IH]; intros m s Hn Hm.
  - destruct s; cbn in *; [|lia]. destruct m; reflexivity.
  - destruct m as [|m]; [destruct s; cbn in *; [reflexivity|lia]|].
    destruct s as [|c s]; [reflexivity|]. cbn [markup_go].
    destruct (find_tag tags (c :: s)) as [t|] eqn:F.
    + apply find_tag_in in F as [I _]. apply tag_in in I as (w & -> & _).
      f_equal. cbn [tag_of length skipn].
      apply IH; rewrite length_skipn; cbn in *; lia.
    + f_equal. apply IH; cbn in *; lia.
Qed.

Lemma markup_nil : markup tags [] = [].
Proof. reflexivity. Qed.

Lemma markup_cons c s :
  markup tags (c :: s)
  = match find_tag tags (c :: s) with
    | Some t => t ++ markup tags (skipn (length t) (c :: s))
    | None => entity c ++ markup tags s
    end.
Proof.
  unfold markup. cbn [length markup_go].
  destruct (find_tag tags (c :: s)) as [t|] eqn:F; [|reflexivity].
  apply find_tag_in in F as [I _]. apply tag_in in I as (w & -> & _).
  f_equal. cbn [tag_of length skipn].
  apply markup_go_fuel; rewrite length_skipn; lia.
Qed.

(** No tag starts where the text has a character other than [<]. *)
Lemma find_tag_other c s : c <> LT -> find_tag tags (c :: s) = None.
Proof.
  intros H. destruct (find_tag tags (c :: s)) as [t|] eqn:F; [|reflexivity].
  apply find_tag_in in F as [I S]. apply tag_in in I as (w & -> & _).
  cbn [tag_of starts_with] in S. apply andb_true_iff in S as [E _].
  apply N.eqb_eq in E. congruence.
Qed.

Lemma markup_other c s :
  c <> LT -> markup tags (c :: s) = entity c ++ markup tags s.
Proof. intros H. rewrite markup_cons, find_tag_other by exact H. reflexivity. Qed.

Lemma markup_ordinary w s :
  forallb ordinary w = true -> markup tags (w ++ s) = w ++ markup tags s.
Proof.
  induction w as [|x w IH]; [reflexivity|]. cbn [forallb]. intros H.
  apply andb_true_iff in H as [Hx Hw]. cbn [app].
  rewrite markup_other by (apply ordinary_head in Hx; tauto).
  rewrite entity_ordinary by exact Hx. rewrite IH by exact Hw. reflexivity.
Qed.

(** The head of the output: a tag that is copied starts with [<], an
    entity with [&] or with the character itself. *)
Lemma markup_head s x out :
  markup tags s = x :: out -> x <> LT ->
  exists c s', s = c :: s' /\ find_tag tags s = None
               /\ entity c ++ markup tags s' = x :: out.
Proof.
  destruct s as [|c s']; [discriminate|]. rewrite markup_cons.
  destruct (find_tag tags (c :: s')) as [t|] eqn:F.
  - apply find_tag_in in F as [I _]. apply tag_in in I as (w & -> & _).
    cbn [tag_of app]. intros [= <- _] H. congruence.
  - intros E _. exists c, s'. auto.
Qed.

(** Where the output starts with the escaped end of a tag, the text
    starts with the end of the tag. *)
Lemma markup_starts_esc w :
  forallb ordinary w = true ->
  forall s, starts_with (w ++ str "&gt;") (markup tags s) = true ->
            starts_with (w ++ [GT]) s = true.
Proof.
  induction w as [|x w IH]; intros Hw s H.
  - cbn [app] in H.
    destruct (markup tags s) as [|y out] eqn:M; [discriminate|].
    change (str "&gt;") with (AMP :: str "gt;") in H.
    cbn [starts_with] in H. apply andb_true_iff in H as [E H].
    apply N.eqb_eq in E. subst y.
    apply markup_head in M as (c & s' & -> & _ & E); [|discriminate].
    destruct (entity_cases c) as [[-> Ec]|[[-> Ec]|[[-> Ec]|[Hc Ec]]]];
      rewrite Ec in E.
    + cbn [app] in E. injection E as <-. discriminate.
    + cbn [app] in E. injection E as <-. discriminate.
    + reflexivity.
    + cbn [app] in E. injection E as -> _. discriminate.
  - cbn [forallb] in Hw. apply andb_true_iff in Hw as [Hx Hw].
    cbn [app] in H.
    destruct (markup tags s) as [|y out] eqn:M; [discriminate|].
    cbn [starts_with] in H. apply andb_true_iff in H as [E H].
    apply N.eqb_eq in E. subst y.
    pose proof (ordinary_head x Hx) as (X1 & X2 & X3).
    apply markup_head in M as (c & s' & -> & _ & E); [|exact X2].
    destruct (entity_cases c) as [[-> Ec]|[[-> Ec]|[[-> Ec]|[Hc Ec]]]];
      rewrite Ec in E.
    + cbn [app] in E. injection E as <- _. congruence.
    + cbn [app] in E. injection E as <- _. congruence.
    + cbn [app] in E. injection E as <- _. congruence.
    + cbn [app] in E. injection E as -> <-. cbn [app starts_with]. rewrite N.eqb_refl.
      apply IH; assumption.
Qed.

Lemma tag_no_amp w :
  forallb ordinary w = true -> has_char (AMP) (tag_of w) = false.
Proof.
  intros H. unfold tag_of. rewrite has_char_cons, has_char_app.
  replace (has_char (AMP) w) with false; [reflexivity|].
  symmetry. induction w as [|x w IH]; [reflexivity|].
  cbn [forallb] in H. apply andb_true_iff in H as [Hx Hw].
  rewrite has_char_cons, IH by exact Hw.
  apply ordinary_head in Hx as (X & _ & _).
  destruct (N.eqb_spec (AMP) x); [congruence|reflexivity].
Qed.

End MarkupFacts.

(** One [replace] of an escaped tag by the tag, after the pass that
    copies the tags of [ws], is the pass that copies that tag too. *)
Lemma replace_stage ws w :
  Forall (fun w => forallb ordinary w = true) (ws ++ [w]) ->
  forall s,
    replace (esc_of w) (tag_of w) (markup (List.map tag_of ws) s)
    = markup (List.map tag_of (ws ++ [w])) s.
Proof.
  intros Hall. pose proof Hall as Hsplit.
  apply Forall_app in Hsplit as [Hws Hw].
  apply Forall_inv in Hw.
  intros s. unfold esc_of. rewrite replace_repl.
  set (old := str "lt;" ++ w ++ str "&gt;").
  remember (length s) as n eqn:Hn. revert s Hn.
  induction n as [n IH] using lt_wf_ind. intros s Hn.
  destruct s as [|c s]; [reflexivity|].
  rewrite (markup_cons ws Hws), (markup_cons (ws ++ [w]) Hall).
  rewrite find_tag_snoc.
  destruct (find_tag (List.map tag_of ws) (c :: s)) as [u|] eqn:F.
  - (* a tag that was copied before *)
    apply find_tag_in in F as [I S].
    apply (tag_in ws Hws) in I as (w' & -> & Hw').
    rewrite repl_skip by (apply tag_no_amp; exact Hw').
    f_equal.
    apply (IH (length (skipn (length (tag_of w')) (c :: s)))); [|reflexivity].
    rewrite length_skipn. subst n. cbn. lia.
  - destruct (starts_with (tag_of w) (c :: s)) eqn:T.
    + (* the tag of this stage *)
      apply starts_with_split in T.
      set (rest := skipn (length (tag_of w)) (c :: s)) in *.
      assert (L : (length rest < n)%nat).
      { subst n rest. rewrite length_skipn. cbn. lia. }
      clearbody rest.
      assert (E : entity c ++ markup (List.map tag_of ws) s
                  = (AMP :: old) ++ markup (List.map tag_of ws) rest).
      { unfold tag_of in T. cbn [app] in T. injection T as -> ->.
        rewrite <- app_assoc, (markup_ordinary ws Hws) by exact Hw.
        cbn [app]. rewrite (markup_other ws Hws) by discriminate.
        subst old. cbn. rewrite <- !app_assoc. reflexivity. }
      rewrite E.
      rewrite repl_hit_here.
      rewrite (IH (length rest) L rest eq_refl). reflexivity.
    + (* a character written as its entity *)
      rewrite <- (IH (length s)) by (subst n; cbn; lia || reflexivity).
      destruct (entity_cases c) as [[-> Ec]|[[-> Ec]|[[-> Ec]|[Hc Ec]]]];
        rewrite Ec.
      * cbn [app]. rewrite repl_cons.
        replace (starts_with _ _) with false by reflexivity.
        rewrite repl_skip by reflexivity. reflexivity.
      * cbn [app]. rewrite repl_cons.
        replace (starts_with (AMP :: old) _) with false.
        -- rewrite repl_skip by reflexivity. reflexivity.
        -- symmetry. subst old. cbn [starts_with app].
           rewrite N.eqb_refl. cbn [andb].
           change (str "lt;" ++ w ++ str "&gt;")
             with (108 :: 116 :: 59 :: w ++ str "&gt;").
           change (str "lt;" ++ markup (List.map tag_of ws) s)
             with (108 :: 116 :: 59 :: markup (List.map tag_of ws) s).
           cbn [starts_with]. rewrite !N.eqb_refl. cbn [andb].
           destruct (starts_with (w ++ str "&gt;") _) eqn:X; [|reflexivity].
           apply (markup_starts_esc ws Hws w Hw) in X.
           unfold tag_of in T. cbn [starts_with] in T.
           rewrite N.eqb_refl in T. cbn [andb] in T. congruence.
      * cbn [app]. rewrite repl_cons.
        replace (starts_with _ _) with false by reflexivity.
        rewrite repl_skip by reflexivity. reflexivity.
      * apply ordinary_head in Hc as (C & _ & _).
        rewrite (repl_skip _ _ _ [c]); [reflexivity|].
        rewrite has_char_cons. cbn [has_char existsb].
        destruct (N.eqb_spec AMP c); [congruence|reflexivity].
Qed.

(** [s.replace(x, new)] for a one-character [x]. *)
Lemma replace_char x new s :
  replace [x] new s
  = flat_map (fun c => if c =? x then new else [c]) s.
Proof.
  rewrite replace_repl. induction s as [|c s IH]; [reflexivity|].
  rewrite repl_cons. cbn [starts_with length flat_map].
  change (skipn 0 s) with s. rewrite N.eqb_sym, andb_true_r.
  destruct (c =? x); rewrite IH; reflexivity.
Qed.

Lemma replace_char_app x new a b :
  replace [x] new (a ++ b) = replace [x] new a ++ replace [x] new b.
Proof. rewrite !replace_char. apply flat_map_app. Qed.

Lemma html_escape_app a b :
  Extract.html_escape (a ++ b) = Extract.html_escape a ++ Extract.html_escape b.
Proof.
  unfold Extract.html_escape.
  change (str "&") with [AMP]. change (str "<") with [LT].
  change (str ">") with [GT].
  rewrite !replace_char_app. reflexivity.
Qed.

Lemma html_escape_char c : Extract.html_escape [c] = entity c.
Proof.
  destruct (entity_cases c) as [[-> Ec]|[[-> Ec]|[[-> Ec]|[Hc Ec]]]];
    rewrite Ec; try (vm_compute; reflexivity).
  apply ordinary_head in Hc as (C1 & C2 & C3).
  apply N.eqb_neq in C1, C2, C3.
  unfold Extract.html_escape.
  change (str "&") with [AMP]. change (str "<") with [LT].
  change (str ">") with [GT].
  rewrite (replace_char AMP). cbn [flat_map]. rewrite C1. cbn [app].
  rewrite (replace_char LT). cbn [flat_map]. rewrite C2. cbn [app].
  rewrite (replace_char GT). cbn [flat_map]. rewrite C3. reflexivity.
Qed.

(** [html.escape] writes every character as its entity. *)
Lemma html_escape_markup s : Extract.html_escape s = markup [] s.
Proof.
  induction s as [|c s IH]; [reflexivity|].
  change (c :: s) with ([c] ++ s) at 1.
  rewrite html_escape_app, html_escape_char, IH.
  symmetry. apply (markup_cons [] (List.Forall_nil _)).
Qed.

(** The text [create_legal_html] writes for a paragraph is the text of
    the one pass: the three replacements of [html.escape] and the four
    that restore the tags come to the same. *)
Lemma para_markup_spec para : Extract.para_markup para = markup_spec para.
Proof.
  unfold Extract.para_markup. rewrite html_escape_markup.
  change (@nil pystr) with (List.map tag_of []).
  change (str "&lt;strong&gt;") with (esc_of (str "strong")).
  change (str "<strong>") with (tag_of (str "strong")).
  rewrite (replace_stage [] (str "strong"))
    by (repeat constructor; reflexivity).
  change (str "&lt;/strong&gt;") with (esc_of (str "/strong")).
  change (str "</strong>") with (tag_of (str "/strong")).
  rewrite (replace_stage [str "strong"] (str "/strong"))
    by (repeat constructor; reflexivity).
  change (str "&lt;em&gt;") with (esc_of (str "em")).
  change (str "<em>") with (tag_of (str "em")).
  rewrite (replace_stage [str "strong"; str "/strong"] (str "em"))
    by (repeat constructor; reflexivity).
  change (str "&lt;/em&gt;") with (esc_of (str "/em")).
  change (str "</em>") with (tag_of (str "/em")).
  rewrite (replace_stage [str "strong"; str "/strong"; str "em"] (str "/em"))
    by (repeat constructor; reflexivity).
  reflexivity.
Qed.

Lemma manual_single_line U title line :
  Manual.create_final_legal_html U title [line]
  = Manual.html_head title
      ++ (if nonempty (strip line)
          then str "        <p>" ++ strip line ++ str "</p>" ++ [NL]
          else [])
      ++ Manual.html_tail.
Proof.
  unfold Manual.create_final_legal_html. cbn [fold_left].
  unfold Manual.group_step.
  destruct (nonempty (strip line)) eqn:E; cbn [negb].
  - destruct (starts_with_any Manual.heading_prefixes line
              || re_match U Manual.re_numbered line);
      cbn [strip lstrip rstrip nonempty]; rewrite E;
      unfold Manual.para_element; rewrite <- !app_assoc; reflexivity.
  - cbn [strip lstrip rstrip nonempty]. reflexivity.
Qed.


(** The same paragraph in the pages of the three scripts. *)
Lemma c10_example :
  Extract.para_markup (str "Fees & taxes: <strong>5 < 7</strong>")
  = str "Fees &amp; taxes: <strong>5 &lt; 7</strong>"
  /\ Advanced.para_element (str "Fees & taxes: <strong>5 < 7</strong>")
     = str "        <p>Fees & taxes: <strong>5 < 7</strong></p>" ++ [NL].
Proof. split; vm_compute; reflexivity. Qed.


(** ** Content of plain documents *)

Lemma visible_app a b : visible (a ++ b) = visible a ++ visible b.
Proof. apply List.filter_app. Qed.

Lemma visible_cons_space c s : is_space c = true -> visible (c :: s) = visible s.
Proof. intros H. unfold visible. cbn. rewrite H. reflexivity. Qed.

Lemma visible_cons_solid c s :
  is_space c = false -> visible (c :: s) = c :: visible s.
Proof. intros H. unfold visible. cbn. rewrite H. reflexivity. Qed.

Lemma visible_blank s : blank s = true -> visible s = [].
Proof.
  induction s as [|c s IH]; [reflexivity|]. cbn [blank forallb]. intros H.
  apply andb_true_iff in H as [Hc Hs].
  rewrite visible_cons_space by exact Hc. apply IH, Hs.
Qed.

Lemma visible_lstrip s : visible (lstrip s) = visible s.
Proof.
  induction s as [|c s IH]; [reflexivity|]. cbn [lstrip].
  destruct (is_space c) eqn:E; [|reflexivity].
  rewrite visible_cons_space by exact E. exact IH.
Qed.

Lemma visible_rstrip s : visible (rstrip s) = visible s.
Proof.
  induction s as [|c s IH]; [reflexivity|]. cbn [rstrip].
  destruct (rstrip s) as [|d t] eqn:R.
  - destruct (is_space c) eqn:E.
    + rewrite visible_cons_space by exact E. exact IH.
    + rewrite (visible_cons_solid c []), (visible_cons_solid c s) by exact E.
      rewrite <- IH. reflexivity.
  - destruct (is_space c) eqn:E.
    + rewrite (visible_cons_space c (d :: t)), (visible_cons_space c s)
        by exact E.
      exact IH.
    + rewrite (visible_cons_solid c (d :: t)), (visible_cons_solid c s)
        by exact E.
      rewrite IH. reflexivity.
Qed.

Lemma visible_strip s : visible (strip s) = visible s.
Proof. unfold strip. rewrite visible_rstrip. apply visible_lstrip. Qed.

Lemma visible_squeeze_go s : forall b, visible (squeeze_go b s) = visible s.
Proof.
  induction s as [|c s IH]; intros b; [reflexivity|]. cbn [squeeze_go].
  destruct (is_space c) eqn:E.
  - rewrite (visible_cons_space c) by exact E.
    destruct b; [apply IH|]. rewrite visible_cons_space by reflexivity.
    apply IH.
  - rewrite (visible_cons_solid c (squeeze_go false s)),
      (visible_cons_solid c s) by exact E.
    rewrite IH. reflexivity.
Qed.

Lemma visible_squeeze s : visible (squeeze s) = visible s.
Proof. apply visible_squeeze_go. Qed.

Lemma visible_join l :
  visible (join (str " ") l) = List.concat (List.map visible l).
Proof.
  induction l as [|x l IH]; [reflexivity|].
  destruct l as [|y l].
  - cbn. rewrite app_nil_r. reflexivity.
  - change (join (str " ") (x :: y :: l))
      with (x ++ str " " ++ join (str " ") (y :: l)).
    rewrite !visible_app, IH. reflexivity.
Qed.

Lemma visible_join_lines l :
  visible (join [NL] l) = List.concat (List.map visible l).
Proof.
  induction l as [|x l IH]; [reflexivity|].
  destruct l as [|y l].
  - cbn. rewrite app_nil_r. reflexivity.
  - change (join [NL] (x :: y :: l)) with (x ++ [NL] ++ join [NL] (y :: l)).
    rewrite !visible_app, IH. reflexivity.
Qed.

(** The words of [split] are the visible characters. *)
Lemma visible_split_ws s :
  List.concat (List.map visible (split_ws s)) = visible s.
Proof.
  induction s as [|c s IH]; [reflexivity|]. cbn [split_ws].
  destruct (is_space c) eqn:E.
  - rewrite visible_cons_space by exact E. exact IH.
  - rewrite (visible_cons_solid c s) by exact E.
    destruct s as [|d s'].
    + cbn. rewrite E. reflexivity.
    + destruct (is_space d) eqn:D.
      * cbn [List.map List.concat]. rewrite IH.
        rewrite visible_cons_solid by exact E. reflexivity.
      * destruct (split_ws_solid d s' D) as (w & ws & W).
        rewrite W in *. cbn [List.map List.concat] in *.
        rewrite visible_cons_solid by exact E. cbn [app]. rewrite IH.
        reflexivity.
Qed.

Lemma split_on_cons sep s : exists l ls, split_on sep s = l :: ls.
Proof.
  destruct s as [|c s]; cbn [split_on]; [eauto|].
  destruct (c =? sep); [eauto|]. destruct (split_on sep s); eauto.
Qed.

(** [join] undoes [split]. *)
Lemma join_split sep s : join [sep] (split_on sep s) = s.
Proof.
  induction s as [|c s IH]; [reflexivity|]. cbn [split_on].
  destruct (split_on_cons sep s) as (l & ls & E). rewrite E in *.
  destruct (N.eqb_spec c sep) as [->|N].
  - change (join [sep] ([] :: l :: ls)) with (sep :: join [sep] (l :: ls)).
    rewrite IH. reflexivity.
  - rewrite <- IH. destruct ls; reflexivity.
Qed.

Lemma visible_lines s :
  List.concat (List.map visible (split_on NL s)) = visible s.
Proof. rewrite <- visible_join_lines, join_split. reflexivity. Qed.

(** *** Characters that are not in a text *)

Lemma absent_lstrip x s : has_char x s = false -> has_char x (lstrip s) = false.
Proof.
  induction s as [|c s IH]; [reflexivity|]. intros H. cbn [lstrip].
  destruct (is_space c); [|exact H].
  apply has_char_false_cons in H as [_ H]. apply IH, H.
Qed.

Lemma absent_rstrip x s : has_char x s = false -> has_char x (rstrip s) = false.
Proof.
  induction s as [|c s IH]; [reflexivity|]. intros H.
  pose proof H as H0. apply has_char_false_cons in H as [Hc H].
  specialize (IH H). cbn [rstrip]. destruct (rstrip s) as [|d t].
  - destruct (is_space c); [reflexivity|].
    rewrite has_char_cons. destruct (N.eqb_spec x c); [congruence|reflexivity].
  - rewrite has_char_cons, IH.
    destruct (N.eqb_spec x c); [congruence|reflexivity].
Qed.

Lemma absent_strip x s : has_char x s = false -> has_char x (strip s) = false.
Proof. intros H. apply absent_rstrip, absent_lstrip, H. Qed.

Lemma absent_squeeze_go x s :
  x <> SPC -> has_char x s = false ->
  forall b, has_char x (squeeze_go b s) = false.
Proof.
  intros Hx. induction s as [|c s IH]; [reflexivity|]. intros H b.
  apply has_char_false_cons in H as [Hc H]. specialize (IH H).
  cbn [squeeze_go]. destruct (is_space c).
  - destruct b; [apply IH|]. rewrite has_char_cons, IH.
    destruct (N.eqb_spec x SPC); [congruence|reflexivity].
  - rewrite has_char_cons, IH.
    destruct (N.eqb_spec x c); [congruence|reflexivity].
Qed.

Lemma absent_squeeze x s :
  x <> SPC -> has_char x s = false -> has_char x (squeeze s) = false.
Proof. intros Hx H. apply absent_squeeze_go; assumption. Qed.

Lemma absent_lines x sep s :
  has_char x s = false ->
  Forall (fun l => has_char x l = false) (split_on sep s).
Proof.
  induction s as [|c s IH]; intros H; [repeat constructor|].
  apply has_char_false_cons in H as [Hc H]. specialize (IH H).
  cbn [split_on]. destruct (c =? sep).
  - constructor; [reflexivity|exact IH].
  - destruct (split_on sep s) as [|l ls]; inversion IH; subst;
      repeat constructor; try assumption;
      rewrite has_char_cons; destruct (N.eqb_spec x c); congruence || auto.
Qed.

Lemma absent_words x s :
  has_char x s = false -> Forall (fun w => has_char x w = false) (split_ws s).
Proof.
  induction s as [|c s IH]; intros H; [constructor|].
  apply has_char_false_cons in H as [Hc H]. specialize (IH H).
  assert (C : has_char x [c] = false).
  { rewrite has_char_cons. destruct (N.eqb_spec x c); [congruence|reflexivity]. }
  cbn [split_ws]. destruct (is_space c); [exact IH|].
  destruct s as [|d s']; [repeat constructor; exact C|].
  destruct (is_space d); [constructor; [exact C|exact IH]|].
  destruct (split_ws (d :: s')) as [|w ws]; [repeat constructor; exact C|].
  inversion IH; subst. constructor; [|assumption].
  rewrite has_char_cons. destruct (N.eqb_spec x c); [congruence|assumption].
Qed.

Lemma absent_join x sep l :
  has_char x sep = false -> Forall (fun w => has_char x w = false) l ->
  has_char x (join sep l) = false.
Proof.
  intros Hs. induction 1 as [|w l Hw _ IH]; [reflexivity|].
  destruct l as [|y l]; [exact Hw|].
  change (join sep (w :: y :: l)) with (w ++ sep ++ join sep (y :: l)).
  rewrite !has_char_app, Hw, Hs, IH. reflexivity.
Qed.

Lemma split_once_eq sep s :
  forall a b, split_once sep s = (a, Some b) -> s = a ++ sep :: b.
Proof.
  induction s as [|c s IH]; intros a b H; [discriminate|].
  cbn [split_once] in H. destruct (N.eqb_spec c sep) as [->|N].
  - inversion H; subst. reflexivity.
  - destruct (split_once sep s) as [a' b'] eqn:E.
    inversion H; subst. cbn [app]. f_equal. apply IH. reflexivity.
Qed.

(** A text that one of the characters of [old] is not in has no
    occurrence of [old]. *)
Lemma starts_with_has_char x old : forall s,
  starts_with old s = true -> has_char x old = true -> has_char x s = true.
Proof.
  induction old as [|o old IH]; intros s S H; [discriminate|].
  destruct s as [|c s]; [discriminate|]. cbn [starts_with] in S.
  apply andb_true_iff in S as [E S]. apply N.eqb_eq in E. subst c.
  rewrite has_char_cons in *. destruct (x =? o); [reflexivity|].
  apply IH; assumption.
Qed.

Lemma replace_without x old new s :
  has_char x old = true -> has_char x s = false -> replace old new s = s.
Proof.
  intros Ho. destruct old as [|o old]; [discriminate|].
  rewrite replace_repl. induction s as [|c s IH]; [reflexivity|]. intros Hs.
  rewrite repl_cons.
  destruct (starts_with (o :: old) (c :: s)) eqn:S.
  - apply (starts_with_has_char x) in S; [congruence|exact Ho].
  - apply has_char_false_cons in Hs as [_ Hs]. rewrite IH by exact Hs.
    reflexivity.
Qed.

Lemma strip_starts_solid s : nonempty (strip s) = true -> starts_solid (strip s) = true.
Proof.
  unfold strip. intros H.
  assert (L : starts_solid (lstrip s) = true).
  { destruct (lstrip s) eqn:E; [discriminate|]. clear H.
    induction s as [|c s IH]; [discriminate|]. cbn [lstrip] in E.
    destruct (is_space c) eqn:C; [apply IH, E|].
    inversion E; subst. cbn. rewrite C. reflexivity. }
  destruct (lstrip s) as [|c t]; [discriminate|].
  cbn in L. cbn [rstrip]. destruct (rstrip t); [|exact L].
  apply negb_true_iff in L. rewrite L. cbn. rewrite L. reflexivity.
Qed.

Lemma squeeze_starts_solid s : starts_solid s = true -> starts_solid (squeeze s) = true.
Proof.
  destruct s as [|c s]; [discriminate|]. cbn. intros H.
  apply negb_true_iff in H. rewrite H. cbn. rewrite H. reflexivity.
Qed.

Lemma squeeze_hd s : starts_solid s = true -> hd_error (squeeze s) = hd_error s.
Proof.
  destruct s as [|c s]; [discriminate|]. cbn. intros H.
  apply negb_true_iff in H. rewrite H. reflexivity.
Qed.

Section PlainFacts.
Variable U : unicode_db.

(** What step 8 appends for a line of a plain document: the line,
    trimmed and with its runs of whitespace made one space. *)
Lemma clean_line_body l :
  has_char USCORE l = false -> body_line l = true ->
  Advanced.clean_line U l
  = if nonempty (strip l) then [squeeze (strip l)] else [].
Proof.
  intros Hu Hb. unfold Advanced.clean_line.
  apply absent_strip in Hu. unfold body_line in Hb.
  pose proof (strip_starts_solid l) as Hs.
  set (t := strip l) in *. clearbody t.
  assert (P : starts_with Advanced.PARA_BREAK t = false).
  { destruct (starts_with Advanced.PARA_BREAK t) eqn:S; [|reflexivity].
    apply (starts_with_has_char USCORE) in S; [congruence|reflexivity]. }
  rewrite P. destruct (nonempty t) eqn:N; [|reflexivity].
  specialize (Hs eq_refl).
  cbn [negb orb] in *. apply andb_true_iff in Hb as [Len St].
  apply Nat.leb_le in Len.
  replace (Nat.ltb (length t) 3) with false
    by (symmetry; apply Nat.ltb_ge; exact Len).
  rewrite (replace_without USCORE _ _ t) by (reflexivity || exact Hu).
  rewrite (replace_without USCORE _ _ t) by (reflexivity || exact Hu).
  rewrite (replace_without USCORE _ _ t) by (reflexivity || exact Hu).
  rewrite (replace_without USCORE _ _ t) by (reflexivity || exact Hu).
  rewrite re_sub_spaces, re_sub_leading.
  destruct t as [|c t']; [discriminate|].
  cbn [starts_solid] in Hs. apply negb_true_iff in Hs.
  cbn [starts_with] in St. rewrite andb_true_r in St.
  apply negb_true_iff in St. rewrite N.eqb_sym in St.
  rewrite squeeze_head by exact Hs.
  cbn [after_run leading cset_mem]. change (ch "*") with 42.
  rewrite St, Hs. reflexivity.
Qed.

Lemma lines_body lines :
  Forall (fun l => has_char USCORE l = false /\ body_line l = true) lines ->
  flat_map (Advanced.clean_line U) lines
  = List.map (fun l => squeeze (strip l))
             (List.filter (fun l => nonempty (strip l)) lines).
Proof.
  induction 1 as [|l lines [Hu Hb] _ IH]; [reflexivity|].
  cbn [flat_map List.filter]. rewrite clean_line_body by assumption.
  destruct (nonempty (strip l)); cbn [List.map app]; rewrite IH; reflexivity.
Qed.

Lemma visible_kept_lines lines :
  List.concat
    (List.map visible
       (List.map (fun l => squeeze (strip l))
                 (List.filter (fun l => nonempty (strip l)) lines)))
  = List.concat (List.map visible lines).
Proof.
  induction lines as [|l lines IH]; [reflexivity|]. cbn [List.filter].
  destruct (nonempty (strip l)) eqn:N; cbn [List.map List.concat].
  - rewrite visible_squeeze, visible_strip, IH. reflexivity.
  - rewrite nonempty_strip in N. apply negb_false_iff in N.
    rewrite (visible_blank l N). exact IH.
Qed.

(** The first loop of [structure_legal_document] on lines that are not
    blank: no paragraph is closed, and the open one gets their visible
    characters. *)
Lemma gather_fold_content lines :
  Forall (fun l => blank l = false /\ has_char LT l = false) lines ->
  forall cur : list N, has_char LT cur = false ->
    exists cur' : list N,
      fold_left Advanced.gather_step lines ([], cur) = ([], cur')
      /\ visible cur' = visible cur ++ List.concat (List.map visible lines)
      /\ has_char LT cur' = false.
Proof.
  induction 1 as [|l lines [Hb Hl] _ IH]; intros cur Hc.
  - exists cur. cbn. rewrite app_nil_r. auto.
  - cbn [fold_left]. unfold Advanced.gather_step at 2.
    rewrite nonempty_strip, Hb. cbn [negb].
    pose proof (absent_strip LT l Hl) as Hs.
    destruct (nonempty cur) eqn:Ne.
    + destruct (IH (cur ++ str " " ++ strip l)) as (cur' & E & V & A).
      { rewrite !has_char_app, Hc, Hs. reflexivity. }
      exists cur'. split; [exact E|]. split; [|exact A].
      rewrite V, !visible_app, visible_strip. cbn [List.map List.concat].
      change (visible (str " ")) with (@nil N). cbn [app].
      rewrite <- app_assoc. reflexivity.
    + destruct cur; [|discriminate].
      destruct (IH (strip l) Hs) as (cur' & E & V & A).
      exists cur'. split; [exact E|]. split; [|exact A].
      rewrite V, visible_strip. reflexivity.
Qed.

End PlainFacts.

(** *** Emphasis markup *)

Lemma repl_absent o old new s :
  has_char o s = false -> repl (o :: old) new s = s.
Proof.
  intros H. rewrite <- replace_repl.
  apply (replace_absent _ _ o); [reflexivity|exact H].
Qed.

Lemma strip_emphasis_plain s : has_char LT s = false -> strip_emphasis s = s.
Proof.
  intros H. unfold strip_emphasis.
  rewrite (replace_absent (str "<strong>") _ LT s) by (reflexivity || exact H).
  rewrite (replace_absent (str "</strong>") _ LT s) by (reflexivity || exact H).
  rewrite (replace_absent (str "<em>") _ LT s) by (reflexivity || exact H).
  apply (replace_absent _ _ LT); [reflexivity|exact H].
Qed.

(** A pair of tags around a text is what [strip_emphasis] removes. *)
Lemma strip_emphasis_wrap a b :
  has_char LT a = false -> has_char LT b = false ->
  strip_emphasis (str "<strong>" ++ a ++ str "</strong>" ++ b) = a ++ b.
Proof.
  intros Ha Hb.
  assert (Hab : has_char LT (a ++ b) = false)
    by (rewrite has_char_app, Ha, Hb; reflexivity).
  unfold strip_emphasis.
  assert (E1 : replace (str "<strong>") []
                 (str "<strong>" ++ a ++ str "</strong>" ++ b)
               = a ++ str "</strong>" ++ b).
  { change (str "<strong>") with (LT :: str "strong>").
    rewrite replace_repl, repl_hit_here. cbn [app].
    rewrite repl_skip by exact Ha. f_equal.
    change (str "</strong>" ++ b) with (LT :: str "/strong>" ++ b).
    rewrite repl_cons.
    replace (starts_with _ _) with false by reflexivity.
    rewrite repl_absent; [reflexivity|].
    rewrite has_char_app, Hb. reflexivity. }
  rewrite E1.
  assert (E2 : replace (str "</strong>") [] (a ++ str "</strong>" ++ b)
               = a ++ b).
  { change (str "</strong>") with (LT :: str "/strong>").
    rewrite replace_repl, repl_hit by exact Ha. cbn [app].
    rewrite repl_absent by exact Hb. reflexivity. }
  rewrite E2.
  rewrite (replace_absent (str "<em>") _ LT) by (reflexivity || exact Hab).
  apply (replace_absent _ _ LT); [reflexivity|exact Hab].
Qed.

Section FormatFacts.
Variable U : unicode_db.

(** [format_para] adds emphasis markup and changes no visible character
    of a paragraph that has no [<] in it. *)
Lemma format_para_visible para :
  ends_solid para = true -> has_char LT para = false ->
  exists q, Advanced.format_para U para = Some q
            /\ visible (strip_emphasis q) = visible para.
Proof.
  intros He Hl. unfold Advanced.format_para.
  rewrite re_sub_spaces.
  pose proof (squeeze_tight _ He) as T.
  pose proof (visible_squeeze para) as V.
  pose proof (absent_squeeze LT para ltac:(discriminate) Hl) as A.
  set (sq := squeeze para) in *. clearbody sq. rewrite <- V. clear V He Hl.
  destruct (starts_with_any _ sq) eqn:W.
  - (* a leading WHEREAS, AND WHEREAS or NOW THEREFORE *)
    assert (exists c s, sq = c :: s /\ is_space c = false) as (c & s & E & Hc).
    { destruct sq as [|c s]; [discriminate|]. exists c, s. split; [reflexivity|].
      eapply starts_with_any_solid; [|exact W]. reflexivity. }
    pose proof (visible_split_ws sq) as Vw.
    pose proof (absent_words LT sq A) as Aw.
    rewrite E in Vw, Aw |- *.
    destruct (split_ws_solid c s Hc) as (w & ws & Ew).
    rewrite Ew in Vw, Aw |- *. rewrite <- E in *.
    cbn [hd_error mbind option_bind tl].
    replace (starts_with (str "ARTICLE") _) with false by reflexivity.
    cbn [andb]. rewrite numbered_markup.
    eexists. split; [reflexivity|].
    inversion Aw as [|? ? Hw Hws]; subst.
    change (str "</strong> " ++ join (str " ") ws)
      with (str "</strong>" ++ str " " ++ join (str " ") ws).
    rewrite strip_emphasis_wrap; [|exact Hw|].
    + rewrite !visible_app, visible_join. exact Vw.
    + rewrite has_char_app. rewrite absent_join; [reflexivity|reflexivity|].
      exact Hws.
  - cbn [mbind option_bind].
    destruct (starts_with (str "ARTICLE") sq && has_char (ch ":") sq).
    + rewrite numbered_markup.
      eexists. split; [reflexivity|].
      rewrite <- (app_nil_r (str "</strong>")).
      rewrite strip_emphasis_wrap by (exact A || reflexivity).
      rewrite app_nil_r. reflexivity.
    + destruct (re_match U Advanced.re_numbered sq) eqn:Nm.
      * destruct (split_once SPC sq) as [p0 [p1|]] eqn:S.
        -- pose proof (tight_split_once _ _ _ T S) as Hs.
           apply split_once_eq in S. subst sq.
           rewrite has_char_app, has_char_cons in A.
           apply orb_false_elim in A as [A0 A1].
           apply orb_false_elim in A1 as [_ A1].
           destruct p1 as [|d p1]; [discriminate|].
           apply negb_true_iff in Hs.
           pose proof (visible_split_ws (d :: p1)) as Vw.
           pose proof (absent_words LT (d :: p1) A1) as Aw.
           destruct (split_ws_solid d p1 Hs) as (w & ws & Ew).
           rewrite Ew in Vw, Aw |- *.
           cbn [hd_error mbind option_bind tl].
           eexists. split; [reflexivity|].
           inversion Aw as [|? ? Hw Hws]; subst.
           change (str "<strong>" ++ p0 ++ str " " ++ w ++ str "</strong> "
                     ++ join (str " ") ws)
             with (str "<strong>" ++ p0 ++ str " " ++ w ++ str "</strong>"
                     ++ str " " ++ join (str " ") ws).
           replace (str "<strong>" ++ p0 ++ str " " ++ w ++ str "</strong>"
                      ++ str " " ++ join (str " ") ws)
             with (str "<strong>" ++ (p0 ++ str " " ++ w) ++ str "</strong>"
                     ++ str " " ++ join (str " ") ws)
             by (rewrite <- !app_assoc; reflexivity).
           rewrite strip_emphasis_wrap.
           ++ rewrite !visible_app, visible_join.
              rewrite (visible_cons_space SPC) by reflexivity.
              rewrite <- Vw. cbn [List.map List.concat].
              change (visible (str " ")) with (@nil N). cbn [app].
              rewrite <- app_assoc. reflexivity.
           ++ rewrite !has_char_app, A0, Hw. reflexivity.
           ++ rewrite has_char_app. rewrite absent_join; [reflexivity|reflexivity|].
              exact Hws.
        -- eexists. split; [reflexivity|].
           rewrite strip_emphasis_plain by exact A. reflexivity.
      * eexists. split; [reflexivity|].
        rewrite strip_emphasis_plain by exact A. reflexivity.
Qed.

End FormatFacts.

Section ContentFacts.
Variable U : unicode_db.

Lemma recover_plain raw title :
  plain raw = true ->
  Advanced.recover U raw title
  = Advanced.format_all U
      (Advanced.gather
         (join [NL] (flat_map (Advanced.clean_line U) (split_on NL raw)))).
Proof.
  intros H. unfold Advanced.recover, Advanced.structure_legal_document.
  rewrite clean_rtf_content_plain by exact H. reflexivity.
Qed.

(** The paragraphs made from lines that are kept whole have the visible
    characters of the lines. *)
Lemma format_kept_lines kept :
  Forall (fun l => has_char NL l = false /\ blank l = false
                   /\ has_char LT l = false) kept ->
  exists ps,
    Advanced.format_all U (Advanced.gather (join [NL] kept)) = Some ps
    /\ visible (strip_emphasis (List.concat ps))
       = List.concat (List.map visible kept).
Proof.
  intros H. destruct kept as [|k ks].
  - exists []. split; reflexivity.
  - unfold Advanced.gather. rewrite split_join
      by (eapply List.Forall_impl; [|exact H]; cbn; tauto).
    destruct (gather_fold_content (k :: ks)) with (cur := @nil N)
      as (cur & E & V & A).
    { eapply List.Forall_impl; [|exact H]. cbn. tauto. }
    { reflexivity. }
    rewrite E. change (visible []) with (@nil N) in V. cbn [app] in V.
    rewrite <- V. clear E V H.
    destruct (nonempty cur) eqn:Ne.
    + cbn [app Advanced.format_all].
      destruct (nonempty (strip (strip cur))) eqn:Ns.
      * destruct (format_para_visible U (strip cur)) as (q & Eq & Vq).
        { apply strip_ends_solid. }
        { apply absent_strip, A. }
        rewrite Eq. cbn [mbind option_bind]. exists [q].
        split; [reflexivity|]. cbn [List.concat]. rewrite app_nil_r.
        rewrite Vq. apply visible_strip.
      * exists []. split; [reflexivity|].
        rewrite nonempty_strip in Ns. apply negb_false_iff in Ns.
        apply visible_blank in Ns. rewrite visible_strip in Ns.
        rewrite Ns. reflexivity.
    + destruct cur; [|discriminate]. exists []. split; reflexivity.
Qed.

End ContentFacts.





(** ** A bold switch and its return *)

Lemma lower_absent x s :
  lower_text s = true -> in_range 97 122 x || (x =? SPC) = false ->
  has_char x s = false.
Proof.
  intros H Hx. induction s as [|c s IH]; [reflexivity|].
  cbn [lower_text forallb] in H. apply andb_true_iff in H as [Hc Hs].
  rewrite has_char_cons, (IH Hs).
  destruct (N.eqb_spec x c) as [->|]; [congruence|reflexivity].
Qed.

Lemma sentence_parts s :
  sentence s = true ->
  lower_text s = true /\ starts_solid s = true /\ ends_solid s = true
  /\ tight s = true.
Proof.
  unfold sentence. intros H.
  apply andb_true_iff in H as [H H4]. apply andb_true_iff in H as [H H3].
  apply andb_true_iff in H as [H1 H2]. auto.
Qed.

Lemma plain_lower s : lower_text s = true -> plain s = true.
Proof.
  intros H. unfold plain.
  rewrite !(lower_absent _ s H) by reflexivity. reflexivity.
Qed.

Lemma lstrip_solid s : starts_solid s = true -> lstrip s = s.
Proof.
  destruct s as [|c s]; [reflexivity|]. cbn. intros H.
  apply negb_true_iff in H. rewrite H. reflexivity.
Qed.

Lemma rstrip_solid s : ends_solid s = true -> rstrip s = s.
Proof.
  induction s as [|c s IH]; [reflexivity|]. intros H. cbn [rstrip].
  destruct s as [|d s'].
  - cbn in *. apply negb_true_iff in H. rewrite H. reflexivity.
  - rewrite IH by exact H. reflexivity.
Qed.

Lemma strip_solid s :
  starts_solid s = true -> ends_solid s = true -> strip s = s.
Proof.
  intros H1 H2. unfold strip. rewrite lstrip_solid by exact H1.
  apply rstrip_solid, H2.
Qed.

Lemma starts_solid_app a b :
  starts_solid a = true -> starts_solid (a ++ b) = true.
Proof. destruct a; [discriminate|]. intros H; exact H. Qed.

Lemma ends_solid_app a b :
  b <> [] -> ends_solid (a ++ b) = ends_solid b.
Proof.
  intros Hb. induction a as [|c a IH]; [reflexivity|].
  cbn [app ends_solid]. destruct (a ++ b) eqn:E; [|exact IH].
  destruct a; [cbn in E; congruence|discriminate].
Qed.

Lemma tight_app a b : tight a = true -> tight b = true -> tight (a ++ b) = true.
Proof.
  intros Ha Hb. induction a as [|c a IH]; [exact Hb|].
  cbn [tight] in Ha. apply andb_true_iff in Ha as [Hc Ha].
  cbn [app tight]. rewrite (IH Ha), andb_true_r.
  destruct (is_space c); [|reflexivity].
  destruct a; [rewrite andb_false_r in Hc; discriminate|exact Hc].
Qed.

Lemma tight_space a b :
  tight a = true -> tight b = true -> starts_solid b = true ->
  tight (a ++ SPC :: b) = true.
Proof.
  intros Ha Hb Hs. apply tight_app; [exact Ha|].
  cbn [tight]. rewrite Hb. destruct b; [discriminate|].
  cbn in Hs. rewrite Hs. reflexivity.
Qed.

Lemma squeeze_tight_id s : tight s = true -> squeeze s = s.
Proof.
  unfold squeeze. induction s as [|c s IH]; [reflexivity|].
  cbn [tight squeeze_go]. intros H. apply andb_true_iff in H as [Hc Hs].
  specialize (IH Hs). destruct (is_space c).
  - apply andb_true_iff in Hc as [E Hd]. apply N.eqb_eq in E. subst c.
    f_equal. destruct s as [|d s']; [discriminate|].
    apply negb_true_iff in Hd. cbn [squeeze_go] in *. rewrite Hd in *.
    exact IH.
  - f_equal. exact IH.
Qed.

Lemma sentence_lower_head s : sentence s = true -> lower_head s = true.
Proof.
  intros H. apply sentence_parts in H as (L & S & _).
  destruct s as [|c s]; [discriminate|]. cbn in *.
  apply andb_true_iff in L as [L _]. apply negb_true_iff in S.
  destruct (in_range 97 122 c); [reflexivity|]. cbn in L.
  apply N.eqb_eq in L. subst. discriminate.
Qed.

Lemma lower_head_ne x c s :
  lower_head (c :: s) = true -> (x <? 97) = true -> (x =? c) = false.
Proof.
  cbn. unfold in_range. intros H Hx. apply andb_true_iff in H as [H _].
  apply N.leb_le in H. apply N.ltb_lt in Hx. apply N.eqb_neq. lia.
Qed.

Lemma starts_with_lower p s :
  lower_head s = true ->
  match p with x :: _ => x <? 97 | [] => false end = true ->
  starts_with p s = false.
Proof.
  destruct p as [|x p]; [discriminate|]. destruct s as [|c s]; [discriminate|].
  intros H Hx. cbn [starts_with]. rewrite (lower_head_ne x c s H Hx).
  reflexivity.
Qed.

Section WalkFacts.
Variable U : unicode_db.

Lemma rsub_other total r rep a c s :
  first_lit r = Some a -> (c =? a) = false ->
  rsub U total r rep (c :: s) = c :: rsub U total r rep s.
Proof.
  intros Hr Hc. apply rsub_miss. eapply rmatch_first_lit; [exact Hr|].
  apply N.eqb_neq. exact Hc.
Qed.

Lemma rsub_plain total r rep a s :
  first_lit r = Some a -> has_char a s = false -> rsub U total r rep s = s.
Proof.
  intros Hr Hs. rewrite <- (app_nil_r s) at 1.
  rewrite (rsub_skip U _ _ _ a) by assumption.
  rewrite rsub_nil. apply app_nil_r.
Qed.

End WalkFacts.

(** A character is not in a text: of a text that is written out, or of
    one of lowercase letters and spaces. *)
Ltac absent_tac :=
  first [ reflexivity
        | assumption
        | apply lower_absent; [assumption|reflexivity] ].

(** One step of [re.sub] on a text made of plain parts and of characters
    that are written out. *)
Ltac rsub_step U :=
  lazymatch goal with
  | |- context [rsub U ?t ?r ?rep ?S] =>
      let fl := eval vm_compute in (first_lit r) in
      lazymatch fl with
      | Some ?a =>
          first
            [ rewrite (rsub_nil U t r rep)
            | rewrite (rsub_skip U t r rep a) by absent_tac
            | rewrite (rsub_other U t r rep a) by reflexivity
            | rewrite (rsub_miss U t r rep) by reflexivity
            | erewrite (rsub_hit U t r rep); [|reflexivity|cbn [length]; lia]
            | rewrite (rsub_plain U t r rep a) by absent_tac ]
      end
  end.

(** [re.sub] on such a text, the innermost call first. *)
Ltac rsub_walk U :=
  match goal with
  | |- context [re_sub_str U ?r ?rep ?S] =>
      lazymatch S with
      | context [re_sub_str] => fail
      | _ => change (re_sub_str U r rep S)
               with (rsub U (length S) r [RText rep] S)
      end
  end;
  repeat rsub_step U;
  lazymatch goal with
  | |- context [rsub] => fail "re.sub: no step applies"
  | _ => idtac
  end.

Section BoldFacts.
Variable U : unicode_db.
Variables pre bold post : pystr.
Hypothesis pre_sentence : sentence pre = true.
Hypothesis bold_sentence : sentence bold = true.
Hypothesis post_sentence : sentence post = true.

Lemma expand_text (t : pystr) g : expand [RText t] g = t.
Proof. cbn. apply app_nil_r. Qed.

Lemma bold_parts :
  lower_text pre = true /\ lower_text bold = true /\ lower_text post = true.
Proof.
  destruct (sentence_parts _ pre_sentence) as (Lp & _).
  destruct (sentence_parts _ bold_sentence) as (Lb & _).
  destruct (sentence_parts _ post_sentence) as (Lq & _).
  auto.
Qed.

(** Steps 1 to 5 on the text: the two switches become the sentinels. *)
Lemma before_escapes_bold :
  before_escapes U (with_bold pre bold post)
  = pre ++ str " BOLD_START " ++ bold ++ str "BOLD_END " ++ post.
Proof.
  destruct bold_parts as (Lp & Lb & Lq).
  unfold before_escapes, with_bold.
  change (str " \f0\b " ++ ?x)
    with (32 :: 92 :: 102 :: 48 :: 92 :: 98 :: 32 :: x).
  change (str "\f1\b0 " ++ post)
    with (92 :: 102 :: 49 :: 92 :: 98 :: 48 :: 32 :: post).
  cbv zeta.
  do 21 (rsub_walk U; rewrite ?expand_text).
  reflexivity.
Qed.

Lemma strip_controls_bold :
  Advanced.strip_controls U (with_bold pre bold post)
  = pre ++ str " BOLD_START " ++ bold ++ str "BOLD_END " ++ post.
Proof.
  destruct bold_parts as (Lp & Lb & Lq).
  rewrite strip_controls_split, before_escapes_bold.
  apply from_escapes_plain.
  rewrite !plain_app, (plain_lower pre Lp), (plain_lower bold Lb),
    (plain_lower post Lq).
  reflexivity.
Qed.

Lemma with_strong_solid :
  starts_solid (with_strong pre bold post) = true
  /\ ends_solid (with_strong pre bold post) = true
  /\ tight (with_strong pre bold post) = true
  /\ has_char NL (with_strong pre bold post) = false
  /\ lower_head (with_strong pre bold post) = true.
Proof.
  pose proof (sentence_lower_head _ pre_sentence) as Hh.
  destruct (sentence_parts _ pre_sentence) as (Lp & Sp & Ep & Tp).
  destruct (sentence_parts _ bold_sentence) as (Lb & Sb & Eb & Tb).
  destruct (sentence_parts _ post_sentence) as (Lq & Sq & Eq & Tq).
  unfold with_strong. repeat split.
  - apply starts_solid_app, Sp.
  - rewrite !app_assoc. rewrite ends_solid_app; [exact Eq|].
    destruct post; discriminate.
  - change (str " <strong> " ++ bold ++ str "</strong> " ++ post)
      with (SPC :: str "<strong>" ++ SPC :: bold ++ str "</strong>"
              ++ SPC :: post).
    apply tight_space; [exact Tp| |reflexivity].
    apply tight_space; [reflexivity| |apply starts_solid_app, Sb].
    apply tight_app; [exact Tb|].
    apply tight_space; [reflexivity|exact Tq|exact Sq].
  - rewrite !has_char_app.
    rewrite (lower_absent NL pre Lp), (lower_absent NL bold Lb),
      (lower_absent NL post Lq) by reflexivity.
    reflexivity.
  - destruct pre; [discriminate|]. exact Hh.
Qed.

(** Step 8 on the line: the sentinels become the tags. *)
Lemma clean_line_bold :
  Advanced.clean_line U
    (pre ++ str " BOLD_START " ++ bold ++ str "BOLD_END " ++ post)
  = [with_strong pre bold post].
Proof.
  destruct bold_parts as (Lp & Lb & Lq).
  destruct with_strong_solid as (Sz & Ez & Tz & Nz & Hz).
  destruct (sentence_parts _ pre_sentence) as (_ & Sp & _ & _).
  destruct (sentence_parts _ post_sentence) as (_ & _ & Eq & _).
  pose proof (sentence_lower_head _ pre_sentence) as Hp.
  unfold Advanced.clean_line.
  set (y := pre ++ str " BOLD_START " ++ bold ++ str "BOLD_END " ++ post).
  assert (Sy : strip y = y).
  { apply strip_solid.
    - apply starts_solid_app, Sp.
    - subst y. rewrite !app_assoc. rewrite ends_solid_app; [exact Eq|].
      destruct post; discriminate. }
  rewrite Sy.
  assert (Hy : lower_head y = true) by (subst y; destruct pre; [discriminate|exact Hp]).
  rewrite (starts_with_lower Advanced.PARA_BREAK y Hy) by reflexivity.
  replace (nonempty y) with true by (subst y; destruct pre; [discriminate|reflexivity]).
  replace (Nat.ltb (length y) 3) with false.
  2:{ symmetry. apply Nat.ltb_ge. subst y. rewrite !length_app. cbn. lia. }
  cbn [negb orb].
  assert (R : replace (str "ITALIC_END") (str "</em>")
                (replace (str "ITALIC_START") (str "<em>")
                   (replace (str "BOLD_END") (str "</strong>")
                      (replace (str "BOLD_START") (str "<strong>") y)))
              = with_strong pre bold post).
  { subst y.
    assert (E1 : replace (str "BOLD_START") (str "<strong>")
                   (pre ++ str " BOLD_START " ++ bold ++ str "BOLD_END " ++ post)
                 = pre ++ str " <strong> " ++ bold ++ str "BOLD_END " ++ post).
    { change (str "BOLD_START") with (66 :: str "OLD_START").
      rewrite replace_repl.
      change (pre ++ str " BOLD_START " ++ bold ++ str "BOLD_END " ++ post)
        with (pre ++ [SPC] ++ (66 :: str "OLD_START")
                ++ [SPC] ++ bold ++ 66 :: str "OLD_END " ++ post).
      rewrite (app_assoc pre [SPC]), repl_hit
        by (rewrite has_char_app, (lower_absent 66 pre Lp) by reflexivity;
            reflexivity).
      rewrite (app_assoc [SPC] bold), (repl_skip 66 _ _ ([SPC] ++ bold))
        by (rewrite has_char_app, (lower_absent 66 bold Lb) by reflexivity;
            reflexivity).
      rewrite repl_cons.
      replace (starts_with _ _) with false by reflexivity.
      rewrite repl_absent
        by (rewrite has_char_app, (lower_absent 66 post Lq) by reflexivity;
            reflexivity).
      rewrite <- !app_assoc. reflexivity. }
    rewrite E1.
    assert (E2 : replace (str "BOLD_END") (str "</strong>")
                   (pre ++ str " <strong> " ++ bold ++ str "BOLD_END " ++ post)
                 = with_strong pre bold post).
    { change (str "BOLD_END") with (66 :: str "OLD_END").
      rewrite replace_repl.
      change (pre ++ str " <strong> " ++ bold ++ str "BOLD_END " ++ post)
        with (pre ++ str " <strong> " ++ bold ++ (66 :: str "OLD_END")
                ++ [SPC] ++ post).
      replace (pre ++ str " <strong> " ++ bold ++ (66 :: str "OLD_END")
                 ++ [SPC] ++ post)
        with ((pre ++ str " <strong> " ++ bold) ++ (66 :: str "OLD_END")
                ++ [SPC] ++ post)
        by (rewrite <- !app_assoc; reflexivity).
      rewrite repl_hit.
      - rewrite repl_absent
          by (rewrite has_char_app, (lower_absent 66 post Lq) by reflexivity;
              reflexivity).
        unfold with_strong. rewrite <- !app_assoc. reflexivity.
      - rewrite !has_char_app,
          (lower_absent 66 pre Lp), (lower_absent 66 bold Lb) by reflexivity.
        reflexivity. }
    rewrite E2.
    rewrite (replace_absent (str "ITALIC_START") _ 73).
    - apply (replace_absent _ _ 73); [reflexivity|].
      unfold with_strong. rewrite !has_char_app.
      rewrite (lower_absent 73 pre Lp), (lower_absent 73 bold Lb),
        (lower_absent 73 post Lq) by reflexivity.
      reflexivity.
    - reflexivity.
    - unfold with_strong. rewrite !has_char_app.
      rewrite (lower_absent 73 pre Lp), (lower_absent 73 bold Lb),
        (lower_absent 73 post Lq) by reflexivity.
      reflexivity. }
  rewrite R. rewrite re_sub_spaces, re_sub_leading.
  rewrite squeeze_tight_id by exact Tz.
  destruct (with_strong pre bold post) as [|c z] eqn:Z; [discriminate|].
  cbn [after_run leading cset_mem]. change (ch "*") with 42.
  cbn [lower_head] in Hz. cbn [starts_solid] in Sz.
  apply negb_true_iff in Sz. rewrite Sz.
  rewrite N.eqb_sym, (lower_head_ne 42 c z Hz eq_refl). reflexivity.
Qed.

Lemma clean_rtf_content_bold :
  Advanced.clean_rtf_content U (with_bold pre bold post)
  = with_strong pre bold post.
Proof.
  destruct bold_parts as (Lp & Lb & Lq).
  unfold Advanced.clean_rtf_content. rewrite strip_controls_bold.
  rewrite split_on_single.
  - cbn [flat_map]. rewrite clean_line_bold. reflexivity.
  - rewrite !has_char_app.
    rewrite (lower_absent NL pre Lp), (lower_absent NL bold Lb),
      (lower_absent NL post Lq) by reflexivity.
    reflexivity.
Qed.

End BoldFacts.

(** The first loop of [structure_legal_document] on one trimmed line. *)
Lemma gather_single z :
  has_char NL z = false -> starts_solid z = true -> ends_solid z = true ->
  Advanced.gather z = [z].
Proof.
  intros Hn Hs He. unfold Advanced.gather.
  rewrite split_on_single by exact Hn. cbn [fold_left].
  unfold Advanced.gather_step. rewrite (strip_solid z Hs He).
  destruct z as [|c z]; [discriminate|]. cbn [nonempty negb app].
  rewrite (strip_solid (c :: z) Hs He). reflexivity.
Qed.

(** A paragraph that starts with a lowercase letter and has single
    spaces only is left as it is. *)
Lemma format_para_lower U z :
  tight z = true -> lower_head z = true ->
  Advanced.format_para U z = Some z.
Proof.
  intros T H. unfold Advanced.format_para.
  rewrite re_sub_spaces, (squeeze_tight_id z T).
  unfold starts_with_any. cbn [existsb].
  rewrite (starts_with_lower (str "WHEREAS") z H),
    (starts_with_lower (str "AND WHEREAS") z H),
    (starts_with_lower (str "NOW THEREFORE") z H) by reflexivity.
  cbn [orb mbind option_bind].
  rewrite (starts_with_lower (str "ARTICLE") z H) by reflexivity.
  cbn [andb].
  destruct (re_match U Advanced.re_numbered z) eqn:Nm; [|reflexivity].
  apply numbered_head in Nm as (c & z' & -> & D).
  cbn in H. unfold is_decimal, in_range in *.
  apply andb_true_iff in H as [H1 H2].
  apply N.leb_le in H1, H2.
  replace (c <? 128) with true in D by (symmetry; apply N.ltb_lt; lia).
  apply andb_true_iff in D as [_ D]. apply N.leb_le in D. lia.
Qed.

Lemma balanced_skip o p s :
  has_char LT p = false -> balanced_from o (p ++ s) = balanced_from o s.
Proof.
  induction p as [|c p IH]; [reflexivity|]. intros H.
  apply has_char_false_cons in H as [Hc H]. cbn [app balanced_from].
  assert (E : forall t, starts_with (LT :: t) (c :: p ++ s) = false).
  { intros t. cbn [starts_with].
    destruct (N.eqb_spec LT c); [congruence|reflexivity]. }
  change (str "<strong>") with (LT :: str "strong>").
  change (str "</strong>") with (LT :: str "/strong>").
  change (str "<em>") with (LT :: str "em>").
  change (str "</em>") with (LT :: str "/em>").
  rewrite !E. apply IH, H.
Qed.

Lemma with_strong_balanced pre bold post :
  lower_text pre = true -> lower_text bold = true -> lower_text post = true ->
  balanced (with_strong pre bold post) = true.
Proof.
  intros Lp Lb Lq. unfold balanced, with_strong.
  change (str " <strong> " ++ bold ++ str "</strong> " ++ post)
    with ([SPC] ++ LT :: (str "strong> " ++ bold)
            ++ LT :: str "/strong> " ++ post).
  rewrite app_assoc, balanced_skip
    by (rewrite has_char_app, (lower_absent LT pre Lp) by reflexivity;
        reflexivity).
  cbn [balanced_from].
  replace (starts_with (str "<strong>") _) with true by reflexivity.
  rewrite balanced_skip
    by (rewrite has_char_app, (lower_absent LT bold Lb) by reflexivity;
        reflexivity).
  cbn [balanced_from].
  replace (starts_with (str "<strong>") _) with false by reflexivity.
  replace (starts_with (str "</strong>") _) with true by reflexivity.
  rewrite <- (app_nil_r (str "/strong> " ++ post)).
  rewrite balanced_skip; [reflexivity|].
  rewrite has_char_app, (lower_absent LT post Lq) by reflexivity. reflexivity.
Qed.




Lemma extract_unclosed_bold :
  forall U : unicode_db,
    Extract.recover U (str "\f0\b hello world") = [str "<strong> hello world"].
Proof. intros U. vm_compute. reflexivity. Qed.

(** A switch and its return with nothing between them: the look-ahead of
    the pattern for bold refuses the switch, and what is left of it takes
    the first letters of the sentinel of the return with it as a control
    word. *)
Lemma advanced_empty_bold :
  forall U : unicode_db,
    Advanced.recover U (str "the parties\f0\b\f1\b0 agree") []
    = Some [str "the parties _END agree"].
Proof. intros U. vm_compute. reflexivity. Qed.

(** The italic switch and its return give a pair as well. *)
Lemma advanced_italic_pair :
  forall U : unicode_db,
    Advanced.recover U (str "the\f2\i said\f1\i0 party") []
    = Some [str "the<em> said</em> party"]
    /\ balanced (str "the<em> said</em> party") = true.
Proof. intros U. split; vm_compute; reflexivity. Qed.


(** ** What the characters of a result are

    A property of characters that holds of the subject and of the
    replacement holds of the result of [re.sub], [replace], [strip],
    [split] and [join]. *)

Section ClosureFacts.
Variable U : unicode_db.
Variable P : N -> Prop.

Lemma many_suffix (A : Type) lz cs (k : pystr -> option A) x :
  forall s mn, many U A lz cs mn s k = Some x ->
    exists p s', s = p ++ s' /\ k s' = Some x.
Proof.
  induction s as [|c s IH]; intros mn H.
  - destruct mn; cbn in H; [|discriminate].
    exists [], []. split; [reflexivity|exact H].
  - assert (More : many U A lz cs (Nat.pred mn) s k = Some x ->
                   exists p s', c :: s = p ++ s' /\ k s' = Some x).
    { intros E. apply IH in E as (p & s' & -> & E).
      exists (c :: p), s'. split; [reflexivity|exact E]. }
    assert (Stop : k (c :: s) = Some x ->
                   exists p s', c :: s = p ++ s' /\ k s' = Some x).
    { intros E. exists [], (c :: s). split; [reflexivity|exact E]. }
    cbn [many] in H. cbv zeta in H.
    destruct (cset_mem U cs c).
    + destruct lz; unfold orelse in H.
      * destruct mn as [|mn]; [|auto].
        destruct (k (c :: s)) eqn:E; [|auto].
        apply Stop. congruence.
      * destruct (many U A false cs (Nat.pred mn) s k) eqn:E; [auto|].
        destruct mn as [|mn]; [auto|discriminate].
    + destruct mn as [|mn]; [auto|discriminate].
Qed.

Lemma Forall_firstn_keep (n : nat) (s : pystr) :
  List.Forall P s -> List.Forall P (firstn n s).
Proof.
  intros H. rewrite <- (firstn_skipn n s) in H.
  apply List.Forall_app in H as [H _]. exact H.
Qed.

Lemma Forall_skipn_keep (n : nat) (s : pystr) :
  List.Forall P s -> List.Forall P (skipn n s).
Proof.
  intros H. rewrite <- (firstn_skipn n s) in H.
  apply List.Forall_app in H as [_ H]. exact H.
Qed.

Lemma rmatch_Forall total r :
  forall g s g' rest,
    List.Forall P s -> List.Forall P (g_open g) ->
    (forall t, g_text g = Some t -> List.Forall P t) ->
    rmatch U total r g s = Some (g', rest) ->
    List.Forall P rest /\ (forall t, g_text g' = Some t -> List.Forall P t).
Proof.
  induction r as [|i r IH]; intros g s g' rest Hs Ho Ht H.
  - cbn in H. inversion H; subst. split; assumption.
  - destruct i; cbn [rmatch] in H.
    + destruct s as [|c s]; [discriminate|].
      destruct (cset_mem U cs c); [|discriminate].
      apply (IH g s); [|assumption..]. inversion Hs; assumption.
    + apply many_suffix in H as (p & s' & -> & H).
      apply List.Forall_app in Hs as [_ Hs].
      apply (IH g s'); assumption.
    + destruct s as [|c s]; [apply (IH g []); assumption|].
      destruct (cset_mem U cs c); [discriminate|].
      apply (IH g (c :: s)); assumption.
    + destruct (Nat.eqb (length s) total); [|discriminate].
      apply (IH g s); assumption.
    + apply IH in H; [exact H|assumption|exact Hs|exact Ht].
    + apply IH in H; [exact H|assumption|exact Ho|].
      cbn. intros t [= <-]. apply Forall_firstn_keep. exact Ho.
Qed.

(** The texts of a replacement template. *)
Lemma expand_Forall rep g :
  List.Forall (fun p => match p with
                        | RText t => List.Forall P t
                        | RGroup1 => True
                        end) rep ->
  (forall t, g_text g = Some t -> List.Forall P t) ->
  List.Forall P (expand rep g).
Proof.
  intros Hr Hg. unfold expand.
  induction Hr as [|p rep Hp _ IH]; cbn; [constructor|].
  apply List.Forall_app. split; [|exact IH].
  destruct p as [t|]; [exact Hp|].
  destruct (g_text g) as [t|] eqn:E; [apply Hg; reflexivity|constructor].
Qed.

Lemma sub_go_Forall total r rep :
  List.Forall (fun p => match p with
                        | RText t => List.Forall P t
                        | RGroup1 => True
                        end) rep ->
  forall n s, List.Forall P s -> List.Forall P (sub_go U total r rep n s).
Proof.
  intros Hr. induction n as [|n IH]; intros s Hs; cbn [sub_go]; [exact Hs|].
  destruct s as [|c s]; [constructor|].
  assert (Step : List.Forall P (c :: sub_go U total r rep n s)).
  { inversion Hs; subst. constructor; [assumption|]. apply IH. assumption. }
  destruct (rmatch U total r g0 (c :: s)) as [[g rest]|] eqn:E; [|exact Step].
  destruct (Nat.ltb (length rest) (length (c :: s))); [|exact Step].
  apply rmatch_Forall in E as [Hrest Hg];
    [|exact Hs|constructor|cbn; discriminate].
  apply List.Forall_app. split; [|apply IH; exact Hrest].
  apply expand_Forall; assumption.
Qed.

Lemma re_sub_Forall r rep s :
  List.Forall (fun p => match p with
                        | RText t => List.Forall P t
                        | RGroup1 => True
                        end) rep ->
  List.Forall P s -> List.Forall P (re_sub U r rep s).
Proof. intros Hr Hs. apply sub_go_Forall; assumption. Qed.

Lemma re_sub_str_Forall r rep s :
  List.Forall P rep -> List.Forall P s -> List.Forall P (re_sub_str U r rep s).
Proof.
  intros Hr Hs. apply re_sub_Forall; [|exact Hs].
  constructor; [exact Hr|constructor].
Qed.

Lemma replace_go_Forall old new :
  List.Forall P new ->
  forall n s, List.Forall P s -> List.Forall P (replace_go old new n s).
Proof.
  intros Hn. induction n as [|n IH]; intros s Hs; cbn [replace_go]; [exact Hs|].
  destruct s as [|c s]; [constructor|].
  destruct (starts_with old (c :: s)).
  - apply List.Forall_app. split; [exact Hn|].
    apply IH. apply Forall_skipn_keep. exact Hs.
  - inversion Hs; subst. constructor; [assumption|]. apply IH. assumption.
Qed.

Lemma replace_Forall old new s :
  List.Forall P new -> List.Forall P s -> List.Forall P (replace old new s).
Proof.
  intros Hn Hs. destruct old as [|o old]; cbn [replace].
  - apply List.Forall_app. split; [exact Hn|].
    induction Hs as [|c s Hc _ IH]; cbn; [constructor|].
    constructor; [exact Hc|]. apply List.Forall_app. split; assumption.
  - apply replace_go_Forall; assumption.
Qed.

Lemma lstrip_Forall s : List.Forall P s -> List.Forall P (lstrip s).
Proof.
  induction 1 as [|c s Hc Hs IH]; cbn; [constructor|].
  destruct (is_space c); [exact IH|constructor; assumption].
Qed.

Lemma rstrip_Forall s : List.Forall P s -> List.Forall P (rstrip s).
Proof.
  induction 1 as [|c s Hc Hs IH]; cbn; [constructor|].
  destruct (rstrip s) as [|d t].
  - destruct (is_space c); constructor; [assumption|constructor].
  - constructor; assumption.
Qed.

Lemma strip_Forall s : List.Forall P s -> List.Forall P (strip s).
Proof. intros H. apply rstrip_Forall, lstrip_Forall, H. Qed.

Lemma split_on_Forall sep s :
  List.Forall P s -> List.Forall (List.Forall P) (split_on sep s).
Proof.
  induction 1 as [|c s Hc Hs IH]; cbn; [repeat constructor|].
  destruct (c =? sep); [constructor; [constructor|exact IH]|].
  destruct (split_on sep s) as [|l ls]; [repeat constructor; assumption|].
  inversion IH; subst. constructor; [constructor; assumption|assumption].
Qed.

Lemma split_once_Forall sep s :
  List.Forall P s ->
  List.Forall P (fst (split_once sep s))
  /\ (forall b, snd (split_once sep s) = Some b -> List.Forall P b).
Proof.
  induction 1 as [|c s Hc Hs [IHa IHb]]; cbn.
  - split; [constructor|discriminate].
  - destruct (c =? sep); cbn.
    + split; [constructor|]. intros b [= <-]. exact Hs.
    + destruct (split_once sep s) as [a b]. cbn in *.
      split; [constructor; assumption|exact IHb].
Qed.

Lemma split_ws_Forall s :
  List.Forall P s -> List.Forall (List.Forall P) (split_ws s).
Proof.
  induction 1 as [|c s Hc Hs IH]; cbn [split_ws]; [constructor|].
  destruct (is_space c); [exact IH|].
  destruct s as [|d s]; [repeat constructor; assumption|].
  destruct (is_space d).
  - constructor; [repeat constructor; assumption|exact IH].
  - destruct (split_ws (d :: s)) as [|w ws];
      [repeat constructor; assumption|].
    inversion IH; subst. constructor; [constructor; assumption|assumption].
Qed.

Lemma join_Forall sep l :
  List.Forall P sep -> List.Forall (List.Forall P) l ->
  List.Forall P (join sep l).
Proof.
  intros Hsep. induction 1 as [|x l Hx Hl IH]; cbn [join]; [constructor|].
  destruct l as [|y l]; [exact Hx|].
  apply List.Forall_app. split; [exact Hx|].
  apply List.Forall_app. split; [exact Hsep|exact IH].
Qed.

Lemma flat_map_Forall (A : Type) (f : A -> list pystr) (Q : pystr -> Prop) l :
  (forall x, List.In x l -> List.Forall Q (f x)) ->
  List.Forall Q (flat_map f l).
Proof.
  induction l as [|x l IH]; intros H; cbn; [constructor|].
  apply List.Forall_app. split.
  - apply H. left. reflexivity.
  - apply IH. intros y Hy. apply H. right. exact Hy.
Qed.

Lemma squeeze_go_Forall s :
  P SPC -> List.Forall P s -> forall b, List.Forall P (squeeze_go b s).
Proof.
  intros Hsp. induction 1 as [|c s Hc Hs IH]; intros b; cbn; [constructor|].
  destruct (is_space c).
  - destruct b; [apply IH|constructor; [exact Hsp|apply IH]].
  - constructor; [exact Hc|apply IH].
Qed.

End ClosureFacts.

Lemma absent_Forall x s :
  has_char x s = false <-> List.Forall (fun c => c <> x) s.
Proof.
  induction s as [|c s IH]; cbn.
  - split; [constructor|reflexivity].
  - rewrite orb_false_iff, IH. split.
    + intros [H1 H2]. constructor; [|exact H2].
      apply N.eqb_neq in H1. congruence.
    + intros H. inversion H; subst. split; [|assumption].
      apply N.eqb_neq. congruence.
Qed.


(** ** No control character in what is recovered *)

Lemma plain_Forall s :
  plain s = true
  <-> (List.Forall (fun c => c <> BSL) s
       /\ List.Forall (fun c => c <> ch "{") s
       /\ List.Forall (fun c => c <> ch "}") s).
Proof.
  rewrite <- !absent_Forall. unfold plain.
  rewrite !andb_true_iff, !negb_true_iff. tauto.
Qed.

(** [replace] of a character by a text without it removes the character. *)
Lemma replace_char_gone x new s :
  List.Forall (fun c => c <> x) new ->
  List.Forall (fun c => c <> x) (replace [x] new s).
Proof.
  intros Hn. rewrite replace_char.
  induction s as [|c s IH]; cbn; [constructor|].
  apply List.Forall_app. split; [|exact IH].
  destruct (N.eqb_spec c x); [exact Hn|]. constructor; [assumption|constructor].
Qed.

Ltac mark_tac := apply absent_Forall; vm_compute; reflexivity.

Section AdvancedOutput.
Variable U : unicode_db.

Lemma from_escapes_out s : plain (from_escapes U s) = true.
Proof.
  unfold from_escapes. cbv zeta.
  set (y := re_sub_str U Advanced.re_command (str " ") _). clearbody y.
  apply plain_Forall. repeat split.
  - apply replace_char_gone. mark_tac.
  - apply replace_Forall; [mark_tac|].
    apply replace_Forall; [constructor|].
    apply replace_char_gone. constructor.
  - apply replace_Forall; [mark_tac|].
    apply replace_char_gone. constructor.
Qed.

Lemma strip_controls_out raw : plain (Advanced.strip_controls U raw) = true.
Proof. rewrite strip_controls_split. apply from_escapes_out. Qed.

Variable x : N.
Hypothesis Hx : x = BSL \/ x = ch "{" \/ x = ch "}".

Lemma mark_free (t : pystr) :
  has_char BSL t = false -> has_char (ch "{") t = false ->
  has_char (ch "}") t = false -> List.Forall (fun c => c <> x) t.
Proof.
  intros H1 H2 H3. apply absent_Forall.
  destruct Hx as [->|[->| ->]]; assumption.
Qed.

Lemma clean_line_keeps line :
  List.Forall (fun c => c <> x) line ->
  List.Forall (List.Forall (fun c => c <> x)) (Advanced.clean_line U line).
Proof.
  intros H. unfold Advanced.clean_line. cbv zeta.
  destruct (negb (nonempty (strip line))
            || starts_with Advanced.PARA_BREAK (strip line)
            || Nat.ltb (length (strip line)) 3).
  - destruct (starts_with Advanced.PARA_BREAK (strip line));
      repeat constructor.
  - match goal with |- context [nonempty ?l] => set (out := l) end.
    assert (Ho : List.Forall (fun c => c <> x) out).
    { unfold out.
      apply re_sub_str_Forall; [constructor|].
      apply re_sub_str_Forall; [apply mark_free; reflexivity|].
      repeat (apply replace_Forall; [apply mark_free; reflexivity|]).
      apply strip_Forall. exact H. }
    destruct (nonempty out); repeat constructor. exact Ho.
Qed.

Lemma clean_rtf_content_keeps raw :
  List.Forall (fun c => c <> x) (Advanced.clean_rtf_content U raw).
Proof.
  unfold Advanced.clean_rtf_content.
  apply join_Forall; [apply mark_free; reflexivity|].
  apply flat_map_Forall. intros l Hl. apply clean_line_keeps.
  assert (Hs : List.Forall (fun c => c <> x) (Advanced.strip_controls U raw)).
  { pose proof (strip_controls_out raw) as Hp.
    apply plain_Forall in Hp as (H1 & H2 & H3).
    destruct Hx as [->|[->| ->]]; assumption. }
  apply (split_on_Forall _ NL) in Hs.
  rewrite List.Forall_forall in Hs. apply Hs. exact Hl.
Qed.

Lemma gather_step_chars st line :
  List.Forall (fun c => c <> x) line ->
  List.Forall (List.Forall (fun c => c <> x)) (fst st) ->
  List.Forall (fun c => c <> x) (snd st) ->
  List.Forall (List.Forall (fun c => c <> x))
              (fst (Advanced.gather_step st line))
  /\ List.Forall (fun c => c <> x) (snd (Advanced.gather_step st line)).
Proof.
  intros Hl Hp Hc. destruct st as [ps cur]. cbn in Hp, Hc.
  unfold Advanced.gather_step. cbv zeta.
  assert (Hs : List.Forall (fun c => c <> x) (strip line))
    by (apply strip_Forall; exact Hl).
  destruct (nonempty (strip line)), (nonempty cur); cbn [negb fst snd].
  - split; [exact Hp|]. apply List.Forall_app. split; [exact Hc|].
    apply List.Forall_app. split; [apply mark_free; reflexivity|exact Hs].
  - split; assumption.
  - split; [|constructor]. apply List.Forall_app. split; [exact Hp|].
    constructor; [apply strip_Forall; exact Hc|constructor].
  - split; assumption.
Qed.

Lemma gather_fold_chars lines :
  List.Forall (List.Forall (fun c => c <> x)) lines ->
  forall st,
    List.Forall (List.Forall (fun c => c <> x)) (fst st) ->
    List.Forall (fun c => c <> x) (snd st) ->
    List.Forall (List.Forall (fun c => c <> x))
                (fst (fold_left Advanced.gather_step lines st))
    /\ List.Forall (fun c => c <> x)
                   (snd (fold_left Advanced.gather_step lines st)).
Proof.
  induction 1 as [|l lines Hl _ IH]; intros st Hp Hc; cbn [fold_left].
  - split; assumption.
  - destruct (gather_step_chars st l Hl Hp Hc) as [H1 H2].
    apply IH; assumption.
Qed.

Lemma gather_chars content :
  List.Forall (fun c => c <> x) content ->
  List.Forall (List.Forall (fun c => c <> x)) (Advanced.gather content).
Proof.
  intros H. unfold Advanced.gather.
  match goal with
  | |- context [fold_left Advanced.gather_step ?l ?i] =>
      destruct (gather_fold_chars l (split_on_Forall _ NL content H) i)
        as [H1 H2]; [constructor|constructor|];
      destruct (fold_left Advanced.gather_step l i) as [ps cur]
  end.
  cbn [fst snd] in H1, H2.
  destruct (nonempty cur); [|exact H1].
  apply List.Forall_app. split; [exact H1|].
  constructor; [apply strip_Forall; exact H2|constructor].
Qed.

Lemma words_chars s :
  List.Forall (fun c => c <> x) s ->
  (forall w, hd_error (split_ws s) = Some w ->
             List.Forall (fun c => c <> x) w)
  /\ List.Forall (fun c => c <> x) (join (str " ") (tl (split_ws s))).
Proof.
  intros H. apply (split_ws_Forall (fun c => c <> x)) in H.
  destruct (split_ws s) as [|w ws]; cbn.
  - split; [discriminate|constructor].
  - inversion H; subst. split; [intros w' [= <-]; assumption|].
    apply join_Forall; [apply mark_free; reflexivity|assumption].
Qed.

Lemma format_para_chars para q :
  List.Forall (fun c => c <> x) para ->
  Advanced.format_para U para = Some q ->
  List.Forall (fun c => c <> x) q.
Proof.
  intros H. unfold Advanced.format_para. cbv zeta.
  set (p1 := re_sub_str U Advanced.re_spaces (str " ") para).
  assert (H1 : List.Forall (fun c => c <> x) p1)
    by (apply re_sub_str_Forall; [apply mark_free; reflexivity|exact H]).
  clearbody p1.
  assert (Open : List.Forall (fun c => c <> x) (str "<strong>"))
    by (apply mark_free; reflexivity).
  assert (Close : List.Forall (fun c => c <> x) (str "</strong> "))
    by (apply mark_free; reflexivity).
  assert (Close' : List.Forall (fun c => c <> x) (str "</strong>"))
    by (apply mark_free; reflexivity).
  assert (Sp : List.Forall (fun c => c <> x) (str " "))
    by (apply mark_free; reflexivity).
  destruct (words_chars p1 H1) as [Hw Hj].
  assert (Tail : forall p2,
             List.Forall (fun c => c <> x) p2 ->
             (let para :=
                if starts_with (str "ARTICLE") p2 && has_char (ch ":") p2
                then str "<strong>" ++ p2 ++ str "</strong>" else p2 in
              if re_match U Advanced.re_numbered para
              then match split_once SPC para with
                   | (p0, Some p1) =>
                       w ← hd_error (split_ws p1);
                       Some (str "<strong>" ++ p0 ++ str " " ++ w
                               ++ str "</strong> "
                               ++ join (str " ") (tl (split_ws p1)))
                   | (_, None) => Some para
                   end
              else Some para) = Some q ->
             List.Forall (fun c => c <> x) q).
  { intros p2 H2. cbv zeta.
    set (p3 := if starts_with (str "ARTICLE") p2 && has_char (ch ":") p2
               then str "<strong>" ++ p2 ++ str "</strong>" else p2).
    assert (H3 : List.Forall (fun c => c <> x) p3).
    { unfold p3. destruct (_ && _); [|exact H2].
      repeat (apply List.Forall_app; split); eauto. }
    clearbody p3.
    destruct (re_match U Advanced.re_numbered p3);
      [|intros E; apply (inj Some) in E; subst q; exact H3].
    destruct (split_once_Forall (fun c => c <> x) SPC p3 H3) as [Ha Hb].
    destruct (split_once SPC p3) as [p0 [p1'|]]; cbn [fst snd] in Ha, Hb;
      [|intros E; apply (inj Some) in E; subst q; exact H3].
    destruct (words_chars p1' (Hb _ eq_refl)) as [Hw' Hj'].
    destruct (hd_error (split_ws p1')) as [w|] eqn:Ew;
      cbn [mbind option_bind]; [|discriminate].
    intros E. apply (inj Some) in E. subst q.
    repeat (apply List.Forall_app; split); eauto. }
  destruct (starts_with_any _ p1).
  - destruct (hd_error (split_ws p1)) as [w|] eqn:Ew;
      cbn [mbind option_bind]; [|discriminate].
    apply Tail. repeat (apply List.Forall_app; split); eauto.
  - cbn [mbind option_bind]. apply Tail. exact H1.
Qed.

Lemma format_all_chars ps :
  List.Forall (List.Forall (fun c => c <> x)) ps ->
  forall qs, Advanced.format_all U ps = Some qs ->
             List.Forall (List.Forall (fun c => c <> x)) qs.
Proof.
  induction 1 as [|p ps Hp _ IH]; intros qs E; cbn [Advanced.format_all] in E.
  - inversion E; subst. constructor.
  - destruct (nonempty (strip p)); [|apply IH; exact E].
    destruct (Advanced.format_para U p) as [q|] eqn:Eq; [|discriminate].
    destruct (Advanced.format_all U ps) as [qs'|]; [|discriminate].
    cbn in E. inversion E; subst.
    constructor; [eapply format_para_chars; eassumption|].
    apply IH. reflexivity.
Qed.

Lemma recover_chars raw title ps :
  Advanced.recover U raw title = Some ps ->
  List.Forall (List.Forall (fun c => c <> x)) ps.
Proof.
  unfold Advanced.recover, Advanced.structure_legal_document. intros E.
  eapply format_all_chars; [|exact E].
  apply gather_chars, clean_rtf_content_keeps.
Qed.

End AdvancedOutput.

(** X6: the text [clean_rtf_content] returns and the paragraphs
    [structure_legal_document] makes of it hold no backslash and no brace,
    whatever the input is. *)
Theorem X6_advanced_output_has_no_control_character :
  forall (U : unicode_db) (raw title : pystr),
    plain (Advanced.clean_rtf_content U raw) = true
    /\ exists ps,
        Advanced.structure_legal_document U
          (Advanced.clean_rtf_content U raw) title = Some ps
        /\ List.Forall (fun p => plain p = true) ps.
Proof.
  intros U raw title. split.
  - apply plain_Forall. repeat split; apply clean_rtf_content_keeps; auto.
  - destruct (structure_total U (Advanced.clean_rtf_content U raw) title)
      as (ps & E & _). exists ps. split; [exact E|].
    assert (H : forall x, x = BSL \/ x = ch "{" \/ x = ch "}" ->
                List.Forall (List.Forall (fun c => c <> x)) ps).
    { intros x Hx. eapply recover_chars; [exact Hx|exact E]. }
    pose proof (H BSL (or_introl eq_refl)) as H1.
    pose proof (H (ch "{") (or_intror (or_introl eq_refl))) as H2.
    pose proof (H (ch "}") (or_intror (or_intror eq_refl))) as H3.
    rewrite List.Forall_forall in *. intros p Hp.
    apply plain_Forall. auto.
Qed.

(** [re.sub] of a class of characters by the empty string removes the
    characters of the class. *)
Lemma rsub_one_filter U total cs s :
  rsub U total [One cs] [RText []] s
  = List.filter (fun c => negb (cset_mem U cs c)) s.
Proof.
  induction s as [|c s IH]; [apply rsub_nil|].
  rewrite rsub_cons. cbn [rmatch List.filter].
  destruct (cset_mem U cs c); cbn [negb].
  - replace (Nat.ltb (length s) (length (c :: s))) with true
      by (symmetry; apply Nat.ltb_lt; cbn; lia).
    cbn [expand List.map List.concat app]. exact IH.
  - rewrite IH. reflexivity.
Qed.

Lemma re_sub_str_absent U r rep a s :
  first_lit r = Some a -> has_char a s = false -> re_sub_str U r rep s = s.
Proof. intros Hr Hs. exact (re_sub_absent U r [RText rep] a s Hr Hs). Qed.

Section ExtractOutput.
Variable U : unicode_db.

Lemma braces_filtered s :
  re_sub_str U Extract.re_braces [] s
  = List.filter (fun c => negb ((c =? ch "{") || (c =? ch "}"))) s.
Proof.
  unfold re_sub_str. rewrite re_sub_rsub. apply rsub_one_filter.
Qed.

Lemma extract_normalised_no_backslash raw :
  has_char BSL (extract_normalised U raw) = false.
Proof.
  apply absent_Forall. unfold extract_normalised. cbv zeta.
  repeat (apply re_sub_str_Forall; [mark_tac|]).
  apply replace_char_gone. mark_tac.
Qed.

Lemma extract_strip_controls_split raw :
  Extract.strip_controls U raw
  = re_sub_str U Extract.re_braces []
      (re_sub_str U Extract.re_command [] (extract_normalised U raw)).
Proof.
  unfold Extract.strip_controls, extract_normalised. cbv zeta. reflexivity.
Qed.

Lemma extract_strip_controls_out raw :
  plain (Extract.strip_controls U raw) = true.
Proof.
  rewrite extract_strip_controls_split.
  pose proof (extract_normalised_no_backslash raw) as Hn.
  set (n := extract_normalised U raw) in *. clearbody n.
  rewrite (re_sub_str_absent U Extract.re_command [] BSL n eq_refl Hn).
  rewrite braces_filtered. apply plain_Forall. repeat split.
  - apply absent_Forall in Hn. rewrite List.Forall_forall in *.
    intros c Hc. apply filter_In in Hc as [Hc _]. apply Hn, Hc.
  - apply List.Forall_forall. intros c Hc. apply filter_In in Hc as [_ Hc].
    intros ->. revert Hc. vm_compute. discriminate.
  - apply List.Forall_forall. intros c Hc. apply filter_In in Hc as [_ Hc].
    intros ->. revert Hc. vm_compute. discriminate.
Qed.

Variable x : N.
Hypothesis Hx : x = BSL \/ x = ch "{" \/ x = ch "}".

Lemma extract_clean_line_keeps line :
  List.Forall (fun c => c <> x) line ->
  List.Forall (List.Forall (fun c => c <> x)) (Extract.clean_line U line).
Proof.
  intros H. unfold Extract.clean_line. cbv zeta.
  destruct (nonempty (strip line) && negb (starts_with (str "{") (strip line))
            && negb (starts_with (str "}") (strip line)));
    [|constructor].
  match goal with |- context [nonempty ?l] => set (out := l) end.
  assert (Ho : List.Forall (fun c => c <> x) out).
  { unfold out.
    repeat (apply re_sub_str_Forall;
            [apply (mark_free x Hx); reflexivity|]).
    repeat (apply re_sub_Forall;
            [constructor; [apply (mark_free x Hx); reflexivity|];
             constructor; [exact I|];
             constructor; [apply (mark_free x Hx); reflexivity|constructor]
            |]).
    apply strip_Forall. exact H. }
  destruct (nonempty out); repeat constructor. exact Ho.
Qed.

Lemma extract_rtf_text_keeps raw :
  List.Forall (fun c => c <> x) (Extract.extract_rtf_text U raw).
Proof.
  unfold Extract.extract_rtf_text.
  apply join_Forall; [apply (mark_free x Hx); reflexivity|].
  apply flat_map_Forall. intros l Hl. apply extract_clean_line_keeps.
  assert (Hs : List.Forall (fun c => c <> x) (Extract.strip_controls U raw)).
  { pose proof (extract_strip_controls_out raw) as Hp.
    apply plain_Forall in Hp as (H1 & H2 & H3).
    destruct Hx as [->|[->| ->]]; assumption. }
  apply (split_on_Forall _ NL) in Hs.
  rewrite List.Forall_forall in Hs. apply Hs. exact Hl.
Qed.

End ExtractOutput.

(** X7: the text [extract_rtf_text] returns holds no backslash and no
    brace, whatever the input is. *)
Theorem X7_extract_output_has_no_control_character :
  forall (U : unicode_db) (rtf_content : pystr),
    plain (Extract.extract_rtf_text U rtf_content) = true.
Proof.
  intros U raw. apply plain_Forall.
  repeat split; apply extract_rtf_text_keeps; auto.
Qed.

(** X8: in [extract_rtf_text] the removal of "any remaining RTF controls"
    never changes the text, because every backslash has been turned into a
    line break before it: the text that is cut into lines is the text after
    the clean-up of whitespace with its braces removed.  No line of it starts
    with a brace, so the two tests on braces in the loop never drop a
    line. *)
Theorem X8_extract_control_pattern_is_idle :
  forall (U : unicode_db) (rtf_content : pystr),
    re_sub_str U Extract.re_command [] (extract_normalised U rtf_content)
    = extract_normalised U rtf_content
    /\ Extract.strip_controls U rtf_content
       = re_sub_str U Extract.re_braces [] (extract_normalised U rtf_content)
    /\ List.Forall
         (fun line => starts_with (str "{") (strip line) = false
                      /\ starts_with (str "}") (strip line) = false)
         (split_on NL (Extract.strip_controls U rtf_content)).
Proof.
  intros U raw.
  pose proof (extract_normalised_no_backslash U raw) as Hn.
  assert (E : re_sub_str U Extract.re_command [] (extract_normalised U raw)
              = extract_normalised U raw)
    by (apply (re_sub_str_absent U _ _ BSL); [reflexivity|exact Hn]).
  split; [exact E|]. split.
  - rewrite extract_strip_controls_split. f_equal. exact E.
  - pose proof (extract_strip_controls_out U raw) as Hp.
    apply plain_chars in Hp as (_ & H1 & H2).
    pose proof (absent_lines _ NL _ H1) as L1.
    pose proof (absent_lines _ NL _ H2) as L2.
    rewrite List.Forall_forall in *. intros l Hl. split.
    + destruct (starts_with (str "{") (strip l)) eqn:E1; [|reflexivity].
      eapply (starts_with_has_char (ch "{")) in E1; [|reflexivity].
      rewrite absent_strip in E1; [discriminate|]. apply L1, Hl.
    + destruct (starts_with (str "}") (strip l)) eqn:E1; [|reflexivity].
      eapply (starts_with_has_char (ch "}")) in E1; [|reflexivity].
      rewrite absent_strip in E1; [discriminate|]. apply L2, Hl.
Qed.


(** ** Paragraphs from lines *)

Lemma split_on_app_any sep a b :
  split_on sep (a ++ sep :: b) = split_on sep a ++ split_on sep b.
Proof.
  induction a as [|c a IH]; cbn [app split_on].
  - rewrite N.eqb_refl. reflexivity.
  - destruct (c =? sep); [rewrite IH; reflexivity|].
    rewrite IH. destruct (split_on_cons sep a) as (l & ls & ->).
    reflexivity.
Qed.

Lemma gather_step_prefix pre ps cur line :
  Advanced.gather_step (pre ++ ps, cur) line
  = (pre ++ fst (Advanced.gather_step (ps, cur) line),
     snd (Advanced.gather_step (ps, cur) line)).
Proof.
  unfold Advanced.gather_step.
  destruct (nonempty (strip line)), (nonempty cur); cbn [negb fst snd];
    rewrite ?app_assoc; reflexivity.
Qed.

Lemma gather_fold_prefix lines :
  forall pre ps cur,
    fold_left Advanced.gather_step lines (pre ++ ps, cur)
    = (pre ++ fst (fold_left Advanced.gather_step lines (ps, cur)),
       snd (fold_left Advanced.gather_step lines (ps, cur))).
Proof.
  induction lines as [|l lines IH]; intros pre ps cur; cbn [fold_left].
  - reflexivity.
  - rewrite gather_step_prefix.
    destruct (Advanced.gather_step (ps, cur) l) as [ps' cur'].
    cbn [fst snd]. apply IH.
Qed.

(** A blank line ends the paragraph. *)
Lemma gather_blank_line c1 c2 :
  Advanced.gather (c1 ++ [NL; NL] ++ c2)
  = Advanced.gather c1 ++ Advanced.gather c2.
Proof.
  unfold Advanced.gather.
  change (c1 ++ [NL; NL] ++ c2) with (c1 ++ NL :: ([] ++ NL :: c2)).
  rewrite !split_on_app_any, fold_left_app.
  change (split_on NL []) with [@nil N]. cbn [app fold_left].
  destruct (fold_left Advanced.gather_step (split_on NL c1) ([], []))
    as [ps1 cur1].
  assert (E : Advanced.gather_step (ps1, cur1) []
              = ((if nonempty cur1 then ps1 ++ [strip cur1] else ps1) ++ [],
                 [])).
  { unfold Advanced.gather_step. cbn [strip lstrip rstrip nonempty negb].
    destruct cur1; cbn [nonempty]; rewrite app_nil_r; reflexivity. }
  rewrite E, gather_fold_prefix. unfold pystr.
  match goal with |- context [snd ?t] => destruct t as [ps2 cur2] end.
  cbn [fst snd].
  destruct (nonempty cur2); rewrite ?app_assoc; reflexivity.
Qed.

Lemma format_all_app U a b :
  Advanced.format_all U (a ++ b)
  = match Advanced.format_all U a, Advanced.format_all U b with
    | Some x, Some y => Some (x ++ y)
    | _, _ => None
    end.
Proof.
  induction a as [|p a IH]; cbn [app Advanced.format_all].
  - destruct (Advanced.format_all U b); reflexivity.
  - destruct (nonempty (strip p)); [|exact IH].
    destruct (Advanced.format_para U p) as [q|];
      cbn [mbind option_bind]; [|reflexivity].
    rewrite IH.
    destruct (Advanced.format_all U a) as [x|],
             (Advanced.format_all U b) as [y|];
      cbn [mbind option_bind]; reflexivity.
Qed.

(** X1: [structure_legal_document] reads a blank line as the end of a
    paragraph and nothing else: the paragraphs of two texts with a blank
    line between them are the paragraphs of the first followed by the
    paragraphs of the second. *)
Theorem X1_blank_line_separates_paragraphs :
  forall (U : unicode_db) (first second title : pystr),
    exists ps qs,
      Advanced.structure_legal_document U first title = Some ps
      /\ Advanced.structure_legal_document U second title = Some qs
      /\ Advanced.structure_legal_document U
           (first ++ [NL; NL] ++ second) title
         = Some (ps ++ qs).
Proof.
  intros U c1 c2 title.
  destruct (structure_total U c1 title) as (ps & E1 & _).
  destruct (structure_total U c2 title) as (qs & E2 & _).
  exists ps, qs. split; [exact E1|]. split; [exact E2|].
  unfold Advanced.structure_legal_document in *.
  rewrite gather_blank_line, format_all_app, E1, E2. reflexivity.
Qed.

(** ** The two loops that gather paragraphs *)

Lemma ends_solid_space_cons l :
  nonempty l = true -> ends_solid (str " " ++ l) = ends_solid l.
Proof. destruct l; [discriminate|reflexivity]. Qed.

Lemma gather_steps_agree ps cur line :
  cur = [] \/ (starts_solid cur = true /\ ends_solid cur = true) ->
  Extract.gather_step (ps, cur) line = Advanced.gather_step (ps, cur) line
  /\ (snd (Advanced.gather_step (ps, cur) line) = []
      \/ (starts_solid (snd (Advanced.gather_step (ps, cur) line)) = true
          /\ ends_solid (snd (Advanced.gather_step (ps, cur) line)) = true)).
Proof.
  intros Hc. unfold Extract.gather_step, Advanced.gather_step.
  destruct (nonempty (strip line)) eqn:Hl; cbn [negb].
  - pose proof (strip_starts_solid _ Hl) as S1.
    pose proof (strip_ends_solid line) as S2.
    destruct (nonempty cur) eqn:Hn; cbn [fst snd].
    + split; [reflexivity|]. right.
      destruct Hc as [->|[C1 C2]]; [discriminate|]. split.
      * apply starts_solid_app. exact C1.
      * rewrite ends_solid_app, ends_solid_space_cons; [exact S2|exact Hl|].
        discriminate.
    + split; [reflexivity|]. right. split; assumption.
  - destruct (nonempty cur) eqn:Hn; cbn [fst snd].
    + split; [|left; reflexivity].
      destruct Hc as [->|[C1 C2]]; [discriminate|].
      rewrite strip_solid by assumption. reflexivity.
    + split; [reflexivity|]. exact Hc.
Qed.

Lemma gather_folds_agree lines :
  forall ps cur,
    cur = [] \/ (starts_solid cur = true /\ ends_solid cur = true) ->
    fold_left Extract.gather_step lines (ps, cur)
    = fold_left Advanced.gather_step lines (ps, cur)
    /\ (snd (fold_left Advanced.gather_step lines (ps, cur)) = []
        \/ (starts_solid
              (snd (fold_left Advanced.gather_step lines (ps, cur))) = true
            /\ ends_solid
                 (snd (fold_left Advanced.gather_step lines (ps, cur)))
               = true)).
Proof.
  induction lines as [|l lines IH]; intros ps cur Hc; cbn [fold_left].
  - split; [reflexivity|exact Hc].
  - destruct (gather_steps_agree ps cur l Hc) as [E Hc'].
    rewrite E.
    destruct (Advanced.gather_step (ps, cur) l) as [ps' cur'].
    apply IH. exact Hc'.
Qed.

(** X2: the loop of [create_legal_html] that gathers lines into paragraphs
    computes the same paragraphs as the loop of [structure_legal_document],
    which strips each paragraph once more: a paragraph made of stripped
    lines has no whitespace at its ends. *)
Theorem X2_extract_and_advanced_gather_alike :
  forall content : pystr, Extract.gather content = Advanced.gather content.
Proof.
  intros content. unfold Extract.gather, Advanced.gather.
  destruct (gather_folds_agree (split_on NL content) [] []
              (or_introl eq_refl)) as [E Hc].
  rewrite E.
  destruct (fold_left Advanced.gather_step (split_on NL content) ([], []))
    as [ps cur]. cbn [snd] in Hc.
  destruct (nonempty cur) eqn:Hn; [|reflexivity].
  destruct Hc as [->|[C1 C2]]; [discriminate|].
  rewrite strip_solid by assumption. reflexivity.
Qed.


(** ** Words of a paragraph with single spaces *)

Lemma tight_tail c s : tight (c :: s) = true -> tight s = true.
Proof. cbn [tight]. intros H. apply andb_true_iff in H as [_ H]. exact H. Qed.

Lemma tight_space_head c s :
  tight (c :: s) = true -> is_space c = true ->
  c = SPC /\ starts_solid s = true.
Proof.
  cbn [tight]. intros H Hc. rewrite Hc in H.
  apply andb_true_iff in H as [H _]. apply andb_true_iff in H as [H1 H2].
  apply N.eqb_eq in H1. split; [exact H1|].
  destruct s; [discriminate|exact H2].
Qed.

Lemma tight_suffix a b : tight (a ++ b) = true -> tight b = true.
Proof.
  induction a as [|c a IH]; [trivial|].
  intros H. apply IH. exact (tight_tail _ _ H).
Qed.

Lemma join_cons_head sep c w ws :
  join sep ((c :: w) :: ws) = c :: join sep (w :: ws).
Proof. destruct ws; reflexivity. Qed.

Lemma starts_solid_cons c s : starts_solid (c :: s) = negb (is_space c).
Proof. reflexivity. Qed.

(** Joining the words of a text with single spaces gives the text back. *)
Lemma tight_words s :
  tight s = true ->
  (starts_solid s = true -> join (str " ") (split_ws s) = s)
  /\ (forall c s', s = c :: s' -> is_space c = true ->
                   SPC :: join (str " ") (split_ws s) = s).
Proof.
  induction s as [|c s IH]; intros T.
  - split; [discriminate|discriminate].
  - specialize (IH (tight_tail _ _ T)). destruct IH as [IH1 IH2]. split.
    + intros Hs. rewrite starts_solid_cons in Hs.
      apply negb_true_iff in Hs. cbn [split_ws]. rewrite Hs.
      destruct s as [|d s]; [reflexivity|].
      destruct (is_space d) eqn:Hd.
      * specialize (IH2 d s eq_refl Hd).
        destruct (tight_space_head _ _ (tight_tail _ _ T) Hd) as [-> Hn].
        destruct s as [|e s]; [discriminate|].
        rewrite starts_solid_cons in Hn. apply negb_true_iff in Hn.
        assert (W : exists w ws, split_ws (SPC :: e :: s) = w :: ws).
        { cbn [split_ws]. rewrite Hd. apply split_ws_solid. exact Hn. }
        destruct W as (w & ws & W). rewrite W in *.
        cbn [join]. cbn [app]. f_equal. exact IH2.
      * assert (Hd' : starts_solid (d :: s) = true)
          by (rewrite starts_solid_cons, Hd; reflexivity).
        specialize (IH1 Hd').
        destruct (split_ws_solid d s Hd) as (w & ws & W). rewrite W in *.
        rewrite join_cons_head. f_equal. exact IH1.
    + intros c' s' [= <- <-] Hc.
      destruct (tight_space_head _ _ T Hc) as [-> Hn].
      cbn [split_ws]. rewrite Hc. f_equal. apply IH1. exact Hn.
Qed.

Lemma tight_join_words s :
  tight s = true -> starts_solid s = true ->
  join (str " ") (split_ws s) = s.
Proof. intros T S. apply (tight_words s T). exact S. Qed.

Lemma first_word_cons c s :
  (c =? SPC) = false -> first_word (c :: s) = c :: first_word s.
Proof.
  intros H. unfold first_word. cbn [split_once]. rewrite H.
  destruct (split_once SPC s). reflexivity.
Qed.

Lemma after_space_cons c s :
  (c =? SPC) = false -> after_space (c :: s) = after_space s.
Proof.
  intros H. unfold after_space. cbn [split_once]. rewrite H.
  destruct (split_once SPC s). reflexivity.
Qed.

Lemma solid_not_space c : is_space c = false -> (c =? SPC) = false.
Proof.
  intros H. destruct (N.eqb_spec c SPC) as [->|]; [discriminate|reflexivity].
Qed.

(** The first word of a text is what comes before its first space. *)
Lemma split_ws_first s :
  tight s = true -> starts_solid s = true ->
  split_ws s = first_word s :: split_ws (after_space s).
Proof.
  induction s as [|c s IH]; intros T S; [discriminate|].
  rewrite starts_solid_cons in S. apply negb_true_iff in S.
  pose proof (solid_not_space c S) as Hc.
  rewrite first_word_cons, after_space_cons by exact Hc.
  cbn [split_ws]. rewrite S.
  destruct s as [|d s]; [reflexivity|].
  destruct (is_space d) eqn:Hd.
  - destruct (tight_space_head _ _ (tight_tail _ _ T) Hd) as [-> _].
    cbn [split_ws]. rewrite Hd. reflexivity.
  - rewrite IH; [reflexivity|exact (tight_tail _ _ T)|].
    rewrite starts_solid_cons, Hd. reflexivity.
Qed.

Lemma after_space_tight s :
  tight s = true ->
  after_space s = []
  \/ (tight (after_space s) = true /\ starts_solid (after_space s) = true).
Proof.
  intros T. unfold after_space.
  destruct (split_once SPC s) as [a [b|]] eqn:E; cbn [snd]; [|left; reflexivity].
  right. split.
  - apply split_once_eq in E as E'. subst s.
    apply tight_suffix in T. exact (tight_tail _ _ T).
  - exact (tight_split_once _ _ _ T E).
Qed.

Lemma words_after_space s :
  tight s = true -> join (str " ") (split_ws (after_space s)) = after_space s.
Proof.
  intros T. destruct (after_space_tight s T) as [->|[T' S']]; [reflexivity|].
  apply tight_join_words; assumption.
Qed.

Lemma starts_with_hd p s x :
  starts_with p s = true -> hd_error p = Some x -> hd_error s = Some x.
Proof.
  destruct p as [|y p]; [discriminate|]. destruct s as [|c s]; [discriminate|].
  cbn [starts_with hd_error]. intros H [= <-].
  apply andb_true_iff in H as [H _]. apply N.eqb_eq in H. congruence.
Qed.

Lemma starts_with_any_cons p ps s :
  starts_with_any (p :: ps) s = starts_with p s || starts_with_any ps s.
Proof. reflexivity. Qed.

Section HeadingFacts.
Variable U : unicode_db.

Lemma keyword_not_digit c s :
  is_decimal U c = true ->
  starts_with_any [str "WHEREAS"; str "AND WHEREAS"; str "NOW THEREFORE"]
                  (c :: s) = false
  /\ starts_with (str "ARTICLE") (c :: s) = false.
Proof.
  intros D.
  assert (H : forall k x, hd_error k = Some x -> is_decimal U x = false ->
                          starts_with k (c :: s) = false).
  { intros k x Hk Hx. destruct (starts_with k (c :: s)) eqn:E; [|reflexivity].
    pose proof (starts_with_hd _ _ _ E Hk) as E'. cbn [hd_error] in E'.
    apply (inj Some) in E'. subst x. congruence. }
  rewrite !starts_with_any_cons.
  rewrite (H (str "WHEREAS") 87), (H (str "AND WHEREAS") 65),
          (H (str "NOW THEREFORE") 78), (H (str "ARTICLE") 65);
    try reflexivity.
  split; reflexivity.
Qed.

(** X3: a paragraph that starts with WHEREAS, AND WHEREAS or NOW THEREFORE
    gets its first word in bold, whatever the keyword is: of AND WHEREAS only
    AND is bold.  The rest of the paragraph follows after one space. *)
Theorem X3_keyword_paragraph_has_first_word_bold para :
  tight para = true ->
  starts_with_any [str "WHEREAS"; str "AND WHEREAS"; str "NOW THEREFORE"]
                  para = true ->
  Advanced.format_para U para
  = Some (str "<strong>" ++ first_word para ++ str "</strong> "
            ++ after_space para).
Proof.
  intros T W. unfold Advanced.format_para.
  rewrite re_sub_spaces, (squeeze_tight_id _ T). cbv zeta. rewrite W.
  assert (S : starts_solid para = true).
  { destruct para as [|c s]; [discriminate|].
    rewrite starts_solid_cons. apply negb_true_iff.
    eapply starts_with_any_solid; [|exact W]. reflexivity. }
  rewrite (split_ws_first _ T S).
  cbn [hd_error mbind option_bind tl].
  replace (starts_with (str "ARTICLE") _) with false by reflexivity.
  cbn [andb]. rewrite numbered_markup, (words_after_space _ T). reflexivity.
Qed.

(** X4: a paragraph that starts with ARTICLE and has a colon in it is put in
    bold as a whole. *)
Theorem X4_article_heading_is_bold para :
  tight para = true ->
  starts_with (str "ARTICLE") para = true ->
  has_char (ch ":") para = true ->
  Advanced.format_para U para
  = Some (str "<strong>" ++ para ++ str "</strong>").
Proof.
  intros T A C. unfold Advanced.format_para.
  rewrite re_sub_spaces, (squeeze_tight_id _ T). cbv zeta.
  assert (W : starts_with_any
                [str "WHEREAS"; str "AND WHEREAS"; str "NOW THEREFORE"] para
              = false).
  { rewrite (starts_with_split _ _ A). reflexivity. }
  rewrite W. cbn [mbind option_bind]. rewrite A, C. cbn [andb].
  rewrite numbered_markup. reflexivity.
Qed.

(** X5: a paragraph that starts with a section number (digits, a dot,
    digits) gets what comes before its first space and the word after it in
    bold; without a space it is left as it is. *)
Theorem X5_numbered_section_has_number_and_word_bold para :
  tight para = true ->
  re_match U Advanced.re_numbered para = true ->
  Advanced.format_para U para
  = Some (match split_once SPC para with
          | (p0, Some p1) =>
              str "<strong>" ++ p0 ++ str " " ++ first_word p1
                ++ str "</strong> " ++ after_space p1
          | (_, None) => para
          end).
Proof.
  intros T M. unfold Advanced.format_para.
  rewrite re_sub_spaces, (squeeze_tight_id _ T). cbv zeta.
  destruct (numbered_head U _ M) as (c & s & -> & D).
  destruct (keyword_not_digit c s D) as [W A].
  rewrite W. cbn [mbind option_bind]. rewrite A. cbn [andb]. rewrite M.
  destruct (split_once SPC (c :: s)) as [p0 [p1|]] eqn:E; [|reflexivity].
  pose proof (tight_split_once _ _ _ T E) as S1.
  assert (T1 : tight p1 = true).
  { apply split_once_eq in E. rewrite E in T.
    apply tight_suffix in T. exact (tight_tail _ _ T). }
  rewrite (split_ws_first _ T1 S1).
  cbn [hd_error mbind option_bind tl].
  rewrite (words_after_space _ T1). reflexivity.
Qed.

End HeadingFacts.

Lemma X3_witness :
  tight (str "AND WHEREAS the parties agree") = true
  /\ Advanced.format_para ascii_db (str "AND WHEREAS the parties agree")
     = Some (str "<strong>AND</strong> WHEREAS the parties agree").
Proof.
  split; [reflexivity|].
  rewrite (X3_keyword_paragraph_has_first_word_bold ascii_db
             (str "AND WHEREAS the parties agree") eq_refl eq_refl).
  reflexivity.
Defined.

Lemma X4_witness :
  tight (str "ARTICLE 1: DEFINITIONS") = true
  /\ Advanced.format_para ascii_db (str "ARTICLE 1: DEFINITIONS")
     = Some (str "<strong>ARTICLE 1: DEFINITIONS</strong>").
Proof.
  split; [reflexivity|].
  rewrite (X4_article_heading_is_bold ascii_db
             (str "ARTICLE 1: DEFINITIONS") eq_refl eq_refl eq_refl).
  reflexivity.
Defined.

Lemma X5_witness :
  tight (str "3.1 Refunds are made within ten days.") = true
  /\ Advanced.format_para ascii_db
       (str "3.1 Refunds are made within ten days.")
     = Some (str "<strong>3.1 Refunds</strong> are made within ten days.").
Proof.
  split; [reflexivity|].
  rewrite (X5_numbered_section_has_number_and_word_bold ascii_db
             (str "3.1 Refunds are made within ten days.")
             eq_refl eq_refl).
  reflexivity.
Defined.


(** ** Whitespace: trimming after squeezing *)

Lemma lstrip_starts_solid s :
  lstrip s = [] \/ starts_solid (lstrip s) = true.
Proof.
  induction s as [|c s IH]; cbn [lstrip]; [left; reflexivity|].
  destruct (is_space c) eqn:E; [exact IH|]. right.
  rewrite starts_solid_cons, E. reflexivity.
Qed.

Lemma lstrip_squeeze s : lstrip (squeeze s) = squeeze (lstrip s).
Proof.
  assert (Solid : forall t, t = [] \/ starts_solid t = true ->
                            lstrip (squeeze t) = squeeze t).
  { intros t [->|S]; [reflexivity|].
    apply lstrip_solid, squeeze_starts_solid, S. }
  destruct s as [|c s]; [reflexivity|].
  destruct (is_space c) eqn:E.
  - unfold squeeze at 1. cbn [squeeze_go lstrip]. rewrite E.
    cbn [lstrip]. replace (is_space SPC) with true by reflexivity.
    rewrite squeeze_go_lstrip. apply Solid, lstrip_starts_solid.
  - cbn [lstrip]. rewrite E. apply Solid. right.
    rewrite starts_solid_cons, E. reflexivity.
Qed.

Lemma rstrip_cons c s :
  rstrip (c :: s)
  = match rstrip s with
    | [] => if is_space c then [] else [c]
    | t => c :: t
    end.
Proof. reflexivity. Qed.

Lemma squeeze_go_nil_blank s : blank s = true -> squeeze_go true s = [].
Proof.
  induction s as [|c s IH]; [reflexivity|]. cbn [blank forallb squeeze_go].
  intros H. apply andb_true_iff in H as [H1 H2]. rewrite H1. apply IH, H2.
Qed.

Lemma squeeze_go_space b c s :
  is_space c = true ->
  squeeze_go b (c :: s)
  = if b then squeeze_go true s else SPC :: squeeze_go true s.
Proof. intros H. cbn [squeeze_go]. rewrite H. reflexivity. Qed.

Lemma squeeze_go_solid b c s :
  is_space c = false -> squeeze_go b (c :: s) = c :: squeeze_go false s.
Proof. intros H. cbn [squeeze_go]. rewrite H. reflexivity. Qed.

Lemma rstrip_squeeze_go s :
  forall b, rstrip (squeeze_go b s) = squeeze_go b (rstrip s).
Proof.
  induction s as [|c s IH]; intros b; [reflexivity|].
  rewrite (rstrip_cons c s).
  destruct (is_space c) eqn:E.
  - rewrite (squeeze_go_space b c s E).
    destruct (rstrip s) as [|d t] eqn:R.
    + assert (B : blank s = true) by (apply rstrip_nil; exact R).
      rewrite (squeeze_go_nil_blank _ B). destruct b; reflexivity.
    + rewrite (squeeze_go_space b c (d :: t) E).
      specialize (IH true).
      set (q := squeeze_go true (d :: t)) in *.
      assert (Ne : q <> []).
      { intros Z. assert (Bz : blank q = true) by (rewrite Z; reflexivity).
        apply squeeze_go_blank in Bz.
        pose proof (rstrip_ends_solid s) as Es. rewrite R in Es.
        rewrite (ends_solid_blank _ Es) in Bz; [discriminate|discriminate]. }
      destruct b; [exact IH|].
      rewrite rstrip_cons, IH.
      destruct q; [contradiction|reflexivity].
  - rewrite (squeeze_go_solid b c s E), rstrip_cons, (IH false).
    destruct (rstrip s) as [|d t].
    + rewrite E. cbn [squeeze_go]. rewrite E. reflexivity.
    + rewrite (squeeze_go_solid b c (d :: t) E).
      destruct (squeeze_go false (d :: t)) eqn:Q; [|reflexivity].
      exfalso. cbn [squeeze_go] in Q. destruct (is_space d); discriminate.
Qed.

Lemma tight_ends_solid s : tight s = true -> ends_solid s = true.
Proof.
  induction s as [|c s IH]; [reflexivity|]. intros T.
  destruct s as [|d s]; [|exact (IH (tight_tail _ _ T))].
  cbn [tight] in T. cbn [ends_solid].
  destruct (is_space c); [|reflexivity].
  rewrite andb_false_r in T. discriminate.
Qed.

Lemma strip_squeeze s : strip (squeeze s) = squeeze (strip s).
Proof.
  unfold strip. rewrite lstrip_squeeze. apply rstrip_squeeze_go.
Qed.

(** ** The lines [extract_clean_text_from_lines] keeps *)

Section ManualLines.
Variable U : unicode_db.

Lemma cleaned_shape line l :
  Manual.cleaned U line = Some l ->
  ends_solid l = true /\ tight l = true
  /\ has_char (ch "{") l = false /\ has_char (ch "}") l = false.
Proof.
  unfold Manual.cleaned. cbv zeta.
  destruct (starts_with_any Manual.control_prefixes line); [discriminate|].
  destruct (starts_with_any Manual.table_prefixes (strip line));
    [discriminate|].
  match goal with
  | |- context [strip (if ?c then ?a else ?b)] =>
      set (line1 := strip (if c then a else b))
  end.
  destruct (negb (nonempty line1) || Nat.ltb (length line1) 3);
    [discriminate|].
  intros E. apply (inj Some) in E. subst l.
  rewrite re_sub_spaces, strip_squeeze, braces_removed.
  set (y := re_sub_str U Manual.re_command (str " ") line1). clearbody y.
  split; [apply tight_ends_solid, squeeze_tight, strip_ends_solid|].
  split; [apply squeeze_tight, strip_ends_solid|].
  assert (F : forall x, (x =? ch "{") || (x =? ch "}") = true ->
                has_char x
                  (List.filter (fun c => negb (c =? ch "{")
                                         && negb (c =? ch "}")) y) = false).
  { intros x Hx. apply absent_Forall, List.Forall_forall.
    intros c Hc. apply filter_In in Hc as [_ Hc]. intros ->.
    apply andb_true_iff in Hc as [H1 H2].
    apply negb_true_iff in H1, H2. rewrite H1, H2 in Hx. discriminate. }
  split; apply absent_squeeze; try discriminate; apply absent_strip, F;
    reflexivity.
Qed.

Lemma visit_shape acc line :
  List.Forall (fun l => starts_solid l = true /\ ends_solid l = true
                        /\ tight l = true
                        /\ has_char (ch "{") l = false
                        /\ has_char (ch "}") l = false
                        /\ starts_with [BSL] l = false) acc ->
  List.Forall (fun l => starts_solid l = true /\ ends_solid l = true
                        /\ tight l = true
                        /\ has_char (ch "{") l = false
                        /\ has_char (ch "}") l = false
                        /\ starts_with [BSL] l = false)
              (Manual.visit U acc line).
Proof.
  intros H. unfold Manual.visit.
  destruct (Manual.cleaned U line) as [l|] eqn:E; [|exact H].
  destruct (nonempty l && negb (starts_with [BSL] l)
            && negb (Manual.mem l acc)) eqn:C; [|exact H].
  apply andb_true_iff in C as [C _]. apply andb_true_iff in C as [C1 C2].
  apply negb_true_iff in C2.
  destruct (cleaned_shape line l E) as (S1 & S2 & S3 & S4).
  apply List.Forall_app. split; [exact H|].
  constructor; [|constructor]. repeat split; try assumption.
  destruct l as [|c l]; [discriminate|].
  rewrite starts_solid_cons. apply negb_true_iff.
  destruct (is_space c) eqn:Hc; [|reflexivity].
  destruct (tight_space_head _ _ S2 Hc) as [-> _].
  (* a leading space cannot be: the line was stripped *)
  exfalso. revert E. unfold Manual.cleaned. cbv zeta.
  destruct (starts_with_any Manual.control_prefixes line); [discriminate|].
  destruct (starts_with_any Manual.table_prefixes (strip line));
    [discriminate|].
  match goal with
  | |- context [negb (nonempty ?l1) || _] =>
      destruct (negb (nonempty l1) || Nat.ltb (length l1) 3);
        [discriminate|]
  end.
  intros E. apply (inj Some) in E.
  match type of E with strip ?z = _ =>
    pose proof (strip_starts_solid z) as Z; rewrite E in Z end.
  specialize (Z eq_refl). discriminate.
Qed.

End ManualLines.

(** X9: every line [extract_clean_text_from_lines] returns has a character
    that is not whitespace at each end, single spaces as its only
    whitespace, no brace, and no backslash in front. *)
Theorem X9_manual_lines_are_trimmed_and_free_of_braces :
  forall (U : unicode_db) (lines : list pystr),
    List.Forall (fun l => starts_solid l = true /\ ends_solid l = true
                          /\ tight l = true
                          /\ has_char (ch "{") l = false
                          /\ has_char (ch "}") l = false
                          /\ starts_with [BSL] l = false)
                (Manual.extract_clean_text_from_lines U lines).
Proof.
  intros U lines. unfold Manual.extract_clean_text_from_lines.
  assert (G : forall acc,
             List.Forall (fun l => starts_solid l = true /\ ends_solid l = true
                                   /\ tight l = true
                                   /\ has_char (ch "{") l = false
                                   /\ has_char (ch "}") l = false
                                   /\ starts_with [BSL] l = false) acc ->
             List.Forall (fun l => starts_solid l = true /\ ends_solid l = true
                                   /\ tight l = true
                                   /\ has_char (ch "{") l = false
                                   /\ has_char (ch "}") l = false
                                   /\ starts_with [BSL] l = false)
                         (fold_left (Manual.visit U) lines acc)).
  { induction lines as [|l lines IH]; intros acc H; cbn [fold_left];
      [exact H|]. apply IH, visit_shape, H. }
  apply G. constructor.
Qed.


(** ** Numbered lines of the manual cleaner *)

Lemma starts_with_other_head k x c s :
  hd_error k = Some x -> c <> x -> starts_with k (c :: s) = false.
Proof.
  intros Hk Hc. destruct (starts_with k (c :: s)) eqn:E; [|reflexivity].
  pose proof (starts_with_hd _ _ _ E Hk) as E'. cbn [hd_error] in E'.
  apply (inj Some) in E'. congruence.
Qed.

Lemma rstrip_solid_head c s :
  is_space c = false -> exists t, rstrip (c :: s) = c :: t.
Proof.
  intros H. rewrite rstrip_cons. rewrite H.
  destruct (rstrip s) as [|d t]; eexists; reflexivity.
Qed.

Lemma lstrip_app_blank sp s : blank sp = true -> lstrip (sp ++ s) = lstrip s.
Proof.
  induction sp as [|c sp IH]; [reflexivity|]. cbn [blank forallb app lstrip].
  intros H. apply andb_true_iff in H as [H1 H2]. rewrite H1. apply IH, H2.
Qed.

Lemma ascii_digit c :
  in_range 48 57 c = true ->
  is_space c = false /\ c <> BSL /\ c <> ch "{"
  /\ forall U, is_decimal U c = true.
Proof.
  unfold in_range. intros H. apply andb_true_iff in H as [H1 H2].
  apply N.leb_le in H1, H2.
  assert (Hs : is_space c = false).
  { unfold is_space, in_range.
    repeat (apply orb_false_iff; split);
      try (apply andb_false_iff;
           first [left; apply N.leb_gt; lia
                 |right; apply N.leb_gt; lia]);
      apply N.eqb_neq; lia. }
  split; [exact Hs|].
  split; [intros ->; vm_compute in H2; contradiction|].
  split; [intros ->; vm_compute in H2; contradiction|].
  intros U. unfold is_decimal, in_range.
  replace (c <? 128) with true by (symmetry; apply N.ltb_lt; lia).
  apply andb_true_iff. split; apply N.leb_le; assumption.
Qed.

Section NumberedLines.
Variable U : unicode_db.
Hypothesis arrow_not_digit : is_decimal U Manual.ARROW = false.

Lemma after_run_app cs p s :
  forallb (cset_mem U cs) p = true ->
  after_run U cs (p ++ s) = after_run U cs s.
Proof.
  induction p as [|c p IH]; [reflexivity|]. cbn [forallb app after_run].
  intros H. apply andb_true_iff in H as [H1 H2]. rewrite H1. apply IH, H2.
Qed.

Lemma after_run_stop cs c s :
  cset_mem U cs c = false -> after_run U cs (c :: s) = c :: s.
Proof. intros H. cbn [after_run]. rewrite H. reflexivity. Qed.

(** The pattern for a line number takes the blanks, the digits and the
    arrow, and no more. *)
Lemma rmatch_line_number total sp d0 d t :
  blank sp = true ->
  forallb (in_range 48 57) (d0 :: d) = true ->
  rmatch U total [star CSpace; plus CDigit; One (CChar Manual.ARROW)] g0
         (sp ++ (d0 :: d) ++ Manual.ARROW :: t)
  = Some (g0, t).
Proof.
  intros Hs Hd. cbn [rmatch]. unfold star, plus.
  assert (Dig : forallb (cset_mem U CDigit) (d0 :: d) = true).
  { apply forallb_forall. intros c Hc.
    rewrite forallb_forall in Hd. apply ascii_digit, Hd, Hc. }
  assert (D0 : is_space d0 = false).
  { cbn [forallb] in Hd. apply andb_true_iff in Hd as [Hd _].
    apply ascii_digit, Hd. }
  assert (R1 : after_run U CSpace (sp ++ (d0 :: d) ++ Manual.ARROW :: t)
               = (d0 :: d) ++ Manual.ARROW :: t).
  { rewrite after_run_app by exact Hs. apply after_run_stop. exact D0. }
  assert (R2 : after_run U CDigit ((d0 :: d) ++ Manual.ARROW :: t)
               = Manual.ARROW :: t).
  { rewrite after_run_app by exact Dig. apply after_run_stop.
    exact arrow_not_digit. }
  apply many_greedy_run; rewrite R1; [|lia].
  apply many_greedy_run; rewrite R2.
  - cbn [cset_mem]. rewrite N.eqb_refl. reflexivity.
  - rewrite length_app. cbn [length]. lia.
Qed.

Lemma line_number_removed sp d0 d t :
  blank sp = true ->
  forallb (in_range 48 57) (d0 :: d) = true ->
  re_match U Manual.re_line_number (sp ++ (d0 :: d) ++ Manual.ARROW :: t)
  = true
  /\ re_sub_str U Manual.re_line_number []
       (sp ++ (d0 :: d) ++ Manual.ARROW :: t) = t.
Proof.
  intros Hs Hd. set (s := sp ++ (d0 :: d) ++ Manual.ARROW :: t).
  pose proof (rmatch_line_number (length s) sp d0 d t Hs Hd) as M.
  fold s in M. split.
  - unfold Manual.re_line_number. rewrite re_match_bos, M. reflexivity.
  - unfold re_sub_str. rewrite re_sub_rsub.
    assert (L : (length t < length s)%nat).
    { unfold s. rewrite !length_app. cbn [length]. lia. }
    destruct s as [|c s'] eqn:Es; [cbn in L; lia|].
    erewrite rsub_hit.
    + cbn [expand List.map List.concat app].
      apply rsub_bos_late. exact L.
    + unfold Manual.re_line_number. cbn [rmatch].
      rewrite Nat.eqb_refl. exact M.
    + exact L.
Qed.

Lemma numbered_line_head sp d0 d t :
  blank sp = true ->
  forallb (in_range 48 57) (d0 :: d) = true ->
  exists c s,
    sp ++ (d0 :: d) ++ Manual.ARROW :: t = c :: s
    /\ c <> BSL
    /\ exists s', strip (sp ++ (d0 :: d) ++ Manual.ARROW :: t) = d0 :: s'.
Proof.
  intros Hs Hd.
  assert (D0 : in_range 48 57 d0 = true).
  { cbn [forallb] in Hd. apply andb_true_iff in Hd as [Hd _]. exact Hd. }
  destruct (ascii_digit d0 D0) as (Sp0 & B0 & _).
  assert (St : exists s', strip (sp ++ (d0 :: d) ++ Manual.ARROW :: t)
                          = d0 :: s').
  { unfold strip. rewrite lstrip_app_blank by exact Hs.
    cbn [app lstrip]. rewrite Sp0. apply rstrip_solid_head. exact Sp0. }
  destruct sp as [|c sp].
  - exists d0, (d ++ Manual.ARROW :: t). repeat split; assumption.
  - exists c, (sp ++ (d0 :: d) ++ Manual.ARROW :: t).
    split; [reflexivity|]. split; [|exact St].
    cbn [blank forallb] in Hs. apply andb_true_iff in Hs as [Hs _].
    intros ->. discriminate.
Qed.

Lemma cleaned_numbered sp d0 d t :
  blank sp = true ->
  forallb (in_range 48 57) (d0 :: d) = true ->
  starts_with_any Manual.control_prefixes t = false ->
  starts_with_any Manual.table_prefixes (strip t) = false ->
  re_match U Manual.re_line_number t = false ->
  Manual.cleaned U (sp ++ (d0 :: d) ++ Manual.ARROW :: t)
  = Manual.cleaned U t.
Proof.
  intros Hs Hd C1 C2 C3.
  destruct (numbered_line_head sp d0 d t Hs Hd)
    as (c & s & E & Hc & s' & St).
  destruct (line_number_removed sp d0 d t Hs Hd) as [M R].
  assert (D0 : d0 <> ch "{").
  { cbn [forallb] in Hd. apply andb_true_iff in Hd as [Hd _].
    apply ascii_digit, Hd. }
  unfold Manual.cleaned. cbv zeta. rewrite C1, C2, C3, M, R, St.
  rewrite E.
  replace (starts_with_any Manual.control_prefixes (c :: s)) with false.
  2:{ symmetry. unfold Manual.control_prefixes.
      rewrite !starts_with_any_cons.
      rewrite !(starts_with_other_head _ BSL c s) by (reflexivity || exact Hc).
      reflexivity. }
  replace (starts_with_any Manual.table_prefixes (d0 :: s')) with false.
  2:{ symmetry. unfold Manual.table_prefixes.
      rewrite !starts_with_any_cons.
      rewrite !(starts_with_other_head _ (ch "{") d0 s')
        by (reflexivity || exact D0).
      reflexivity. }
  reflexivity.
Qed.

End NumberedLines.

(** X10: a line that carries a line number (blanks, digits and an arrow
    in front of its text) is cleaned as its text alone is, when the text is
    not a control line itself; the database must not count the arrow as a
    digit. *)
Theorem X10_line_number_is_dropped :
  forall (U : unicode_db) (blanks digits text : pystr),
    is_decimal U Manual.ARROW = false ->
    blank blanks = true ->
    nonempty digits = true ->
    forallb (in_range 48 57) digits = true ->
    starts_with_any Manual.control_prefixes text = false ->
    starts_with_any Manual.table_prefixes (strip text) = false ->
    re_match U Manual.re_line_number text = false ->
    Manual.cleaned U (blanks ++ digits ++ Manual.ARROW :: text)
    = Manual.cleaned U text.
Proof.
  intros U sp d t HA Hs Hn Hd C1 C2 C3.
  destruct d as [|d0 d]; [discriminate|].
  apply cleaned_numbered; assumption.
Qed.

Lemma X10_witness :
  Manual.cleaned ascii_db
    (str "   12" ++ Manual.ARROW :: str "The Company shall refund the fee.")
  = Some (str "The Company shall refund the fee.").
Proof.
  change (str "   12" ++ Manual.ARROW
            :: str "The Company shall refund the fee.")
    with (str "   " ++ str "12" ++ Manual.ARROW
            :: str "The Company shall refund the fee.").
  rewrite (X10_line_number_is_dropped ascii_db (str "   ") (str "12")
             (str "The Company shall refund the fee.")
             eq_refl eq_refl eq_refl eq_refl eq_refl eq_refl eq_refl).
  vm_compute. reflexivity.
Defined.


(** ** Paragraphs of the manual cleaner *)

Section ManualPage.
Variable U : unicode_db.

Lemma group_step_prefix pre html cur line :
  Manual.group_step U (pre ++ html, cur) line
  = (pre ++ fst (Manual.group_step U (html, cur) line),
     snd (Manual.group_step U (html, cur) line)).
Proof.
  unfold Manual.group_step.
  destruct (negb (nonempty (strip line))); [reflexivity|].
  destruct (starts_with_any Manual.heading_prefixes line
            || re_match U Manual.re_numbered line).
  - destruct (nonempty (strip cur)); cbn [fst snd];
      rewrite ?app_assoc; reflexivity.
  - destruct (nonempty cur); reflexivity.
Qed.

Lemma group_fold_prefix lines :
  forall pre html cur,
    fold_left (Manual.group_step U) lines (pre ++ html, cur)
    = (pre ++ fst (fold_left (Manual.group_step U) lines (html, cur)),
       snd (fold_left (Manual.group_step U) lines (html, cur))).
Proof.
  induction lines as [|l lines IH]; intros pre html cur; cbn [fold_left].
  - reflexivity.
  - rewrite group_step_prefix.
    destruct (Manual.group_step U (html, cur) l) as [h' c'].
    cbn [fst snd]. apply IH.
Qed.

(** The page is the head, the paragraphs and the tail. *)
Lemma page_parts title lines :
  Manual.create_final_legal_html U title lines
  = Manual.html_head title
      ++ (fst (fold_left (Manual.group_step U) lines ([], []))
            ++ (if nonempty
                     (strip (snd (fold_left (Manual.group_step U) lines
                                            ([], []))))
                then Manual.para_element
                       (snd (fold_left (Manual.group_step U) lines ([], [])))
                else []))
      ++ Manual.html_tail.
Proof.
  unfold Manual.create_final_legal_html.
  rewrite <- (app_nil_r (Manual.html_head title)) at 1.
  rewrite group_fold_prefix. unfold pystr.
  match goal with |- context [snd ?t] => destruct t as [h c] end.
  cbn [fst snd]. destruct (nonempty (strip c)); rewrite <- ?app_assoc;
    rewrite ?app_nil_r; reflexivity.
Qed.

Lemma heading_step html cur line :
  blank line = false ->
  starts_with_any Manual.heading_prefixes line
  || re_match U Manual.re_numbered line = true ->
  Manual.group_step U (html, cur) line
  = (html ++ (if nonempty (strip cur) then Manual.para_element cur else []),
     line).
Proof.
  intros B H. unfold Manual.group_step.
  rewrite nonempty_strip, B, H. cbn [negb].
  destruct (nonempty (strip cur)); rewrite ?app_nil_r; reflexivity.
Qed.

(** X11: in the page of [create_final_legal_html] a line that starts with a
    heading keyword or a section number begins a new paragraph: the
    paragraphs of the page are those of the lines before it followed by
    those of the lines from it on. *)
Theorem X11_heading_line_begins_a_paragraph title before heading after :
  blank heading = false ->
  starts_with_any Manual.heading_prefixes heading
  || re_match U Manual.re_numbered heading = true ->
  exists b1 b2,
    Manual.create_final_legal_html U title before
    = Manual.html_head title ++ b1 ++ Manual.html_tail
    /\ Manual.create_final_legal_html U title (heading :: after)
       = Manual.html_head title ++ b2 ++ Manual.html_tail
    /\ Manual.create_final_legal_html U title (before ++ heading :: after)
       = Manual.html_head title ++ (b1 ++ b2) ++ Manual.html_tail.
Proof.
  intros B H. rewrite !page_parts. eexists. eexists.
  split; [reflexivity|]. split; [reflexivity|].
  f_equal. f_equal.
  rewrite fold_left_app. cbn [fold_left].
  destruct (fold_left (Manual.group_step U) before ([], [])) as [h1 c1].
  rewrite !(heading_step _ _ _ B H).
  change (nonempty (strip [])) with false. cbn [fst snd app].
  set (b1 := h1 ++ (if nonempty (strip c1)
                    then Manual.para_element c1 else [])).
  assert (G : fold_left (Manual.group_step U) after (b1, heading)
              = (b1 ++ fst (fold_left (Manual.group_step U) after
                                      ([], heading)),
                 snd (fold_left (Manual.group_step U) after ([], heading)))).
  { rewrite <- (app_nil_r b1) at 1. apply group_fold_prefix. }
  rewrite G. cbn [fst snd]. rewrite <- !app_assoc. reflexivity.
Qed.

Lemma ordinary_step html cur line :
  blank line = false ->
  starts_with_any Manual.heading_prefixes line
  || re_match U Manual.re_numbered line = false ->
  Manual.group_step U (html, cur) line
  = (html, if nonempty cur then cur ++ str " " ++ line else line).
Proof.
  intros B H. unfold Manual.group_step.
  rewrite nonempty_strip, B, H. cbn [negb].
  destruct (nonempty cur); reflexivity.
Qed.

Lemma blank_nil_false l : blank l = false -> nonempty l = true.
Proof. destruct l; [discriminate|reflexivity]. Qed.

Lemma ordinary_fold lines :
  List.Forall (fun l => blank l = false
                        /\ starts_with_any Manual.heading_prefixes l
                           || re_match U Manual.re_numbered l = false)
              lines ->
  forall html cur,
    nonempty cur = true ->
    fold_left (Manual.group_step U) lines (html, cur)
    = (html, join (str " ") (cur :: lines)).
Proof.
  induction 1 as [|l lines [B H] _ IH]; intros html cur Hc; cbn [fold_left].
  - reflexivity.
  - rewrite (ordinary_step _ _ _ B H), Hc.
    rewrite IH by (destruct cur; [discriminate|reflexivity]).
    f_equal. cbn [join]. destruct lines as [|m lines].
    + reflexivity.
    + rewrite <- !app_assoc. reflexivity.
Qed.

Lemma blank_app a b : blank (a ++ b) = blank a && blank b.
Proof. unfold blank. apply forallb_app. Qed.

Lemma blank_join_head l ls :
  blank l = false -> blank (join (str " ") (l :: ls)) = false.
Proof.
  intros B. cbn [join]. destruct ls; [exact B|].
  rewrite blank_app, B. reflexivity.
Qed.

(** X12: lines of which none is blank, starts with a heading keyword or
    starts with a section number make one paragraph of the page, with one
    space between them. *)
Theorem X12_ordinary_lines_make_one_paragraph title line lines :
  List.Forall (fun l => blank l = false
                        /\ starts_with_any Manual.heading_prefixes l
                           || re_match U Manual.re_numbered l = false)
              (line :: lines) ->
  Manual.create_final_legal_html U title (line :: lines)
  = Manual.html_head title
      ++ Manual.para_element (join (str " ") (line :: lines))
      ++ Manual.html_tail.
Proof.
  intros F. inversion F as [|? ? [B H] F']; subst.
  rewrite page_parts. cbn [fold_left].
  rewrite (ordinary_step _ _ _ B H). cbn [nonempty].
  rewrite (ordinary_fold lines F' _ _ (blank_nil_false _ B)).
  cbn [fst snd app].
  rewrite nonempty_strip, (blank_join_head _ _ B). reflexivity.
Qed.

End ManualPage.

Lemma X11_witness :
  exists b1 b2,
    Manual.create_final_legal_html ascii_db (str "TERMS")
      [str "These terms bind"; str "both parties."]
    = Manual.html_head (str "TERMS") ++ b1 ++ Manual.html_tail
    /\ Manual.create_final_legal_html ascii_db (str "TERMS")
         [str "ARTICLE 1: FEES"; str "The fee is due."]
       = Manual.html_head (str "TERMS") ++ b2 ++ Manual.html_tail
    /\ Manual.create_final_legal_html ascii_db (str "TERMS")
         ([str "These terms bind"; str "both parties."]
            ++ str "ARTICLE 1: FEES" :: [str "The fee is due."])
       = Manual.html_head (str "TERMS") ++ (b1 ++ b2) ++ Manual.html_tail.
Proof.
  apply (X11_heading_line_begins_a_paragraph ascii_db (str "TERMS")
           [str "These terms bind"; str "both parties."]
           (str "ARTICLE 1: FEES") [str "The fee is due."]);
    reflexivity.
Defined.

Lemma X12_witness :
  Manual.create_final_legal_html ascii_db (str "TERMS")
    [str "These terms bind"; str "both parties."]
  = Manual.html_head (str "TERMS")
      ++ Manual.para_element (str "These terms bind both parties.")
      ++ Manual.html_tail.
Proof.
  apply (X12_ordinary_lines_make_one_paragraph ascii_db (str "TERMS")
           (str "These terms bind") [str "both parties."]).
  repeat constructor.
Defined.


(** ** The batches *)

Section BatchShape.
Variable U : unicode_db.

(** What one file does to the console and to the files. *)
Lemma process_file_outcome w fi :
  exists out,
    console (Advanced.process_file U w fi)
    = console w ++ [Processing (rtf_file fi); out]
    /\ (forall path, path <> html_file fi ->
          files (Advanced.process_file U w fi) !! path = files w !! path)
    /\ ((exists n, out = Created (html_file fi) n
                   /\ is_Some (files (Advanced.process_file U w fi)
                                 !! html_file fi))
        \/ (exists e, out = Failed (rtf_file fi) e
                      /\ files (Advanced.process_file U w fi) = files w)).
Proof.
  unfold Advanced.process_file.
  destruct (read_file _ _) as [e|text] eqn:R.
  - exists (Failed (rtf_file fi) e). cbn. rewrite <- app_assoc.
    split; [reflexivity|]. split; [reflexivity|]. right. eauto.
  - destruct (Advanced.structure_legal_document _ _ _) as [ps|].
    + destruct (write_file _ _ _) as [e|w'] eqn:Wr.
      * exists (Failed (rtf_file fi) e). cbn. rewrite <- app_assoc.
        split; [reflexivity|]. split; [reflexivity|]. right. eauto.
      * exists (Created (html_file fi) (Some (length ps))).
        unfold write_file in Wr.
        destruct (bool_decide _); [discriminate|].
        inversion Wr; subst; clear Wr. cbn. rewrite <- app_assoc.
        split; [reflexivity|]. split.
        -- intros path Hp. apply lookup_insert_ne. congruence.
        -- left. eexists. split; [reflexivity|].
           rewrite lookup_insert_eq. eauto.
    + exists (Failed (rtf_file fi) IndexError). cbn. rewrite <- app_assoc.
      split; [reflexivity|]. split; [reflexivity|]. right. eauto.
Qed.

Lemma process_file_keeps w fi path :
  is_Some (files w !! path) ->
  is_Some (files (Advanced.process_file U w fi) !! path).
Proof.
  intros H. destruct (process_file_outcome w fi) as (out & _ & Ho & Hc).
  destruct (decide (path = html_file fi)) as [->|Hp].
  - destruct Hc as [(n & _ & Hs)|(e & _ & He)]; [exact Hs|].
    rewrite He. exact H.
  - rewrite Ho by exact Hp. exact H.
Qed.

Lemma run_keeps batch :
  forall w path,
    is_Some (files w !! path) ->
    is_Some (files (Advanced.run U batch w) !! path).
Proof.
  unfold Advanced.run.
  induction batch as [|fi batch IH]; intros w path H; cbn [fold_left].
  - exact H.
  - apply IH, process_file_keeps, H.
Qed.

(** X15: [main] of advanced_rtf_processor.py prints two lines for every
    file of its list, in order: the announcement and one outcome, a success
    or a failure.  A page reported as created is there at the end, and no
    file but the pages of the list is written or changed. *)
Theorem X15_advanced_batch_reports_every_file batch :
  forall w,
    exists outs,
      List.Forall2
        (fun fi out => (exists n, out = Created (html_file fi) n)
                       \/ (exists e, out = Failed (rtf_file fi) e))
        batch outs
      /\ console (Advanced.run U batch w)
         = console w
             ++ flat_map (fun p => [Processing (rtf_file (fst p)); snd p])
                         (combine batch outs)
      /\ (forall path, ~ List.In path (List.map html_file batch) ->
            files (Advanced.run U batch w) !! path = files w !! path)
      /\ (forall h n, List.In (Created h n) outs ->
            is_Some (files (Advanced.run U batch w) !! h)).
Proof.
  unfold Advanced.run.
  induction batch as [|fi batch IH]; intros w; cbn [fold_left].
  - exists []. split; [constructor|]. split; [cbn; rewrite app_nil_r; reflexivity|].
    split; [reflexivity|]. intros h n [].
  - destruct (process_file_outcome w fi) as (out & Hc & Hf & Ho).
    destruct (IH (Advanced.process_file U w fi))
      as (outs & F & C & Fi & Cr).
    exists (out :: outs). split; [|split; [|split]].
    + constructor; [|exact F].
      destruct Ho as [(n & -> & _)|(e & -> & _)]; eauto.
    + rewrite C, Hc. cbn [combine flat_map fst snd].
      rewrite <- app_assoc. reflexivity.
    + intros path Hp. cbn [List.map List.In] in Hp.
      rewrite Fi by tauto. apply Hf. intros ->. tauto.
    + intros h n [E|Hin]; [|eapply Cr; exact Hin].
      destruct Ho as [(n' & -> & Hs)|(e & -> & _)]; [|discriminate].
      inversion E; subst. apply (run_keeps batch). exact Hs.
Qed.


End BatchShape.



(** ** Input of whitespace only *)

Lemma blank_Forall s :
  blank s = true <-> List.Forall (fun c => is_space c = true) s.
Proof.
  unfold blank. rewrite forallb_forall, List.Forall_forall. reflexivity.
Qed.

Lemma blank_absent x s :
  is_space x = false -> blank s = true -> has_char x s = false.
Proof.
  intros Hx Hs. apply absent_Forall. apply blank_Forall in Hs.
  eapply List.Forall_impl; [|exact Hs]. cbn. intros c Hc ->. congruence.
Qed.

Lemma blank_plain s : blank s = true -> plain s = true.
Proof.
  intros H. unfold plain.
  rewrite !(blank_absent _ s) by (reflexivity || exact H). reflexivity.
Qed.

Lemma blank_lines s :
  blank s = true -> List.Forall (fun l => blank l = true) (split_on NL s).
Proof.
  intros H. apply blank_Forall in H.
  apply (split_on_Forall _ NL) in H.
  eapply List.Forall_impl; [|exact H]. cbn. intros l. apply blank_Forall.
Qed.

Lemma flat_map_nil (A B : Type) (f : A -> list B) l :
  List.Forall (fun x => f x = []) l -> flat_map f l = [].
Proof.
  induction 1 as [|x l Hx _ IH]; [reflexivity|].
  cbn [flat_map]. rewrite Hx, IH. reflexivity.
Qed.

Section BlankInput.
Variable U : unicode_db.

Lemma advanced_blank_line l : blank l = true -> Advanced.clean_line U l = [].
Proof.
  intros H. unfold Advanced.clean_line. cbv zeta.
  apply strip_nil in H. rewrite H. reflexivity.
Qed.

Lemma advanced_blank raw :
  blank raw = true -> Advanced.clean_rtf_content U raw = [].
Proof.
  intros H. rewrite (clean_rtf_content_plain U raw (blank_plain _ H)).
  rewrite flat_map_nil; [reflexivity|].
  eapply List.Forall_impl; [|exact (blank_lines _ H)].
  cbn. intros l. apply advanced_blank_line.
Qed.

Lemma extract_blank_line l : blank l = true -> Extract.clean_line U l = [].
Proof.
  intros H. unfold Extract.clean_line. cbv zeta.
  apply strip_nil in H. rewrite H. reflexivity.
Qed.

Lemma extract_normalised_blank raw :
  blank raw = true -> blank (extract_normalised U raw) = true.
Proof.
  intros H. pose proof (blank_absent BSL raw eq_refl H) as Hb.
  unfold extract_normalised. cbv zeta.
  repeat match goal with
         | |- context [re_sub_str U ?r ?rep raw] =>
             rewrite (re_sub_str_absent U r rep BSL raw eq_refl Hb)
         end.
  rewrite (replace_absent esc_rupee [RUPEE] BSL raw eq_refl Hb).
  rewrite (replace_absent esc_linesep [NL] BSL raw eq_refl Hb).
  rewrite (replace_absent [BSL] [NL] BSL raw eq_refl Hb).
  apply blank_Forall.
  apply re_sub_str_Forall; [repeat constructor|].
  apply re_sub_str_Forall; [repeat constructor|].
  apply blank_Forall. exact H.
Qed.

Lemma extract_blank raw :
  blank raw = true -> Extract.extract_rtf_text U raw = [].
Proof.
  intros H. unfold Extract.extract_rtf_text.
  rewrite flat_map_nil; [reflexivity|].
  assert (B : blank (Extract.strip_controls U raw) = true).
  { rewrite extract_strip_controls_split. apply blank_Forall.
    apply re_sub_str_Forall; [constructor|].
    apply re_sub_str_Forall; [constructor|].
    apply blank_Forall, extract_normalised_blank, H. }
  eapply List.Forall_impl; [|exact (blank_lines _ B)].
  cbn. intros l. apply extract_blank_line.
Qed.

Lemma manual_blank_line l : blank l = true -> Manual.cleaned U l = None.
Proof.
  intros H. unfold Manual.cleaned. cbv zeta.
  destruct (starts_with_any Manual.control_prefixes l); [reflexivity|].
  destruct (starts_with_any Manual.table_prefixes (strip l)); [reflexivity|].
  match goal with
  | |- context [strip (if ?c then ?a else ?b)] =>
      assert (B : blank (if c then a else b) = true)
  end.
  { destruct (re_match U Manual.re_line_number l); [|exact H].
    apply blank_Forall. apply re_sub_str_Forall; [constructor|].
    apply blank_Forall, H. }
  apply strip_nil in B. rewrite B. reflexivity.
Qed.

Lemma manual_blank lines :
  List.Forall (fun l => blank l = true) lines ->
  Manual.extract_clean_text_from_lines U lines = [].
Proof.
  unfold Manual.extract_clean_text_from_lines.
  induction 1 as [|l lines Hl _ IH]; [reflexivity|].
  cbn [fold_left]. unfold Manual.visit at 2.
  rewrite (manual_blank_line l Hl). exact IH.
Qed.

End BlankInput.

(** X19: from an input of whitespace only, each of the three scripts
    recovers no text: [clean_rtf_content] and [extract_rtf_text] return the
    empty string, [structure_legal_document] makes no paragraph of it, and
    [extract_clean_text_from_lines] keeps no line. *)
Theorem X19_blank_input_gives_no_text :
  forall (U : unicode_db) (raw title : pystr),
    blank raw = true ->
    Advanced.clean_rtf_content U raw = []
    /\ Advanced.structure_legal_document U
         (Advanced.clean_rtf_content U raw) title = Some []
    /\ Extract.extract_rtf_text U raw = []
    /\ Manual.extract_clean_text_from_lines U (split_on NL raw) = [].
Proof.
  intros U raw title H. rewrite (advanced_blank U raw H).
  split; [reflexivity|]. split; [reflexivity|].
  split; [apply extract_blank, H|apply manual_blank, blank_lines, H].
Qed.

Lemma X19_witness :
  Advanced.clean_rtf_content ascii_db [SPC; NL; 9; SPC; NL] = []
  /\ Advanced.structure_legal_document ascii_db
       (Advanced.clean_rtf_content ascii_db [SPC; NL; 9; SPC; NL]) []
     = Some []
  /\ Extract.extract_rtf_text ascii_db [SPC; NL; 9; SPC; NL] = []
  /\ Manual.extract_clean_text_from_lines ascii_db
       (split_on NL [SPC; NL; 9; SPC; NL]) = [].
Proof.
  apply (X19_blank_input_gives_no_text ascii_db [SPC; NL; 9; SPC; NL] []).
  reflexivity.
Defined.


(** ** The stages of [clean_rtf_content] *)

Lemma follows_absent_second a b s :
  has_char b s = false -> follows a b s = false.
Proof.
  induction s as [|c s IH]; [reflexivity|]. intros H.
  apply has_char_false_cons in H as [Hc Hs].
  cbn [follows]. rewrite (IH Hs).
  destruct s as [|d s]; [rewrite andb_false_r; reflexivity|].
  apply has_char_false_cons in Hs as [Hd _].
  destruct (N.eqb_spec d b); [contradiction|].
  rewrite andb_false_r. reflexivity.
Qed.

Lemma follows_app_stop a b p c s :
  c <> b ->
  follows a b (p ++ c :: s) = follows a b p || follows a b (c :: s).
Proof.
  intros Hc. induction p as [|x p IH]; [reflexivity|].
  cbn [app]. destruct p as [|y p].
  - cbn [app follows].
    destruct (N.eqb_spec c b); [contradiction|].
    rewrite !andb_false_r. reflexivity.
  - change (follows a b (x :: (y :: p) ++ c :: s))
      with ((x =? a) && (y =? b) || follows a b ((y :: p) ++ c :: s)).
    rewrite IH. cbn [follows]. rewrite !orb_assoc. reflexivity.
Qed.

Section StageFacts.
Variable U : unicode_db.

Lemma before_escapes_stages content :
  before_escapes U content
  = styles U (re_sub_str U Advanced.re_pard Advanced.para_break_text
                (preamble U content)).
Proof. unfold before_escapes, styles, preamble. cbv zeta. reflexivity. Qed.

Lemma styles_absent s : has_char BSL s = false -> styles U s = s.
Proof.
  intros H. unfold styles. cbv zeta.
  repeat match goal with
         | |- context [re_sub_str U ?r ?rep s] =>
             rewrite (re_sub_str_absent U r rep BSL s eq_refl H)
         end.
  reflexivity.
Qed.

Lemma preamble_plain s : plain s = true -> preamble U s = s.
Proof.
  intros H. apply plain_chars in H as (HB & HO & _).
  unfold preamble. cbv zeta.
  repeat match goal with
         | |- context [re_sub_str U ?r ?rep s] =>
             first [ rewrite (re_sub_str_absent U r rep BSL s eq_refl HB)
                   | rewrite (re_sub_str_absent U r rep (ch "{") s eq_refl HO) ]
         end.
  reflexivity.
Qed.

Lemma rmatch_lit total p r g s :
  rmatch U total (List.map (fun c => One (CChar c)) p ++ r) g (p ++ s)
  = rmatch U total r g s.
Proof.
  induction p as [|c p IH]; [reflexivity|].
  cbn [List.map app rmatch cset_mem]. rewrite N.eqb_refl. exact IH.
Qed.

Lemma rsub_hit_at total r rep s g rest :
  rmatch U total r g0 s = Some (g, rest) ->
  (length rest < length s)%nat ->
  rsub U total r rep s = expand rep g ++ rsub U total r rep rest.
Proof.
  destruct s as [|c s]; [cbn; lia|]. apply rsub_hit.
Qed.

Lemma after_run_all cs s :
  forallb (cset_mem U cs) s = true -> after_run U cs s = [].
Proof.
  induction s as [|c s IH]; [reflexivity|]. cbn [forallb after_run].
  intros H. apply andb_true_iff in H as [H1 H2]. rewrite H1. apply IH, H2.
Qed.

Lemma after_run_prefix cs p s :
  forallb (cset_mem U cs) p = true ->
  after_run U cs (p ++ s) = after_run U cs s.
Proof.
  induction p as [|c p IH]; [reflexivity|]. cbn [forallb app after_run].
  intros H. apply andb_true_iff in H as [H1 H2]. rewrite H1. apply IH, H2.
Qed.

Lemma after_run_char_absent x s :
  has_char x s = false -> after_run U (CChar x) s = s.
Proof.
  destruct s as [|c s]; [reflexivity|]. intros H.
  apply has_char_false_cons in H as [Hc _].
  cbn [after_run cset_mem].
  destruct (N.eqb_spec c x); [contradiction|reflexivity].
Qed.

Lemma absent_not_char x s :
  has_char x s = false ->
  forallb (cset_mem U (Advanced.not_char x)) s = true.
Proof.
  intros H. apply forallb_forall. intros c Hc.
  apply absent_Forall in H. rewrite List.Forall_forall in H.
  specialize (H c Hc). cbn [Advanced.not_char cset_mem].
  apply negb_true_iff. apply N.eqb_neq. exact H.
Qed.

(** *** A paragraph reset at the end of the text *)

Section Reset.
Variables a junk : pystr.
Hypothesis Ha : plain a = true.
Hypothesis Hj : has_char BSL junk = false.

Lemma reset_tail_absent : has_char BSL (str "pard" ++ junk) = false.
Proof. rewrite has_char_app, Hj. reflexivity. Qed.

Lemma reset_follows b :
  (ch "p" =? b) = false ->
  follows BSL b (a ++ str "\pard" ++ junk) = false.
Proof.
  intros Hb. apply plain_chars in Ha as (HB & _ & _).
  rewrite (follows_skip BSL _ a) by exact HB.
  change (str "\pard" ++ junk) with (BSL :: ch "p" :: str "ard" ++ junk).
  cbn [follows]. rewrite Hb.
  rewrite (follows_absent BSL b (str "ard" ++ junk)).
  - reflexivity.
  - rewrite has_char_app, Hj. reflexivity.
Qed.

Lemma reset_follows_brace :
  follows (ch "{") BSL (a ++ str "\pard" ++ junk) = false.
Proof.
  apply plain_chars in Ha as (_ & HO & _).
  rewrite (follows_skip (ch "{") _ a) by exact HO.
  change (str "\pard" ++ junk)
    with (BSL :: ch "p" :: ch "a" :: ch "r" :: ch "d" :: junk).
  cbn [follows].
  rewrite (follows_absent_second (ch "{") BSL junk Hj).
  destruct junk; reflexivity.
Qed.

Lemma reset_paper :
  re_sub_str U Advanced.re_paper [] (a ++ str "\pard" ++ junk)
  = a ++ str "\pard" ++ junk.
Proof.
  apply plain_chars in Ha as (HB & _ & _).
  unfold re_sub_str. rewrite re_sub_rsub.
  rewrite (rsub_skip U _ _ _ BSL a) by (reflexivity || exact HB).
  change (str "\pard" ++ junk) with (BSL :: str "pard" ++ junk).
  rewrite rsub_miss by reflexivity.
  rewrite (rsub_plain U _ _ _ BSL) by (reflexivity || exact reset_tail_absent).
  reflexivity.
Qed.

Lemma reset_preamble :
  preamble U (a ++ str "\pard" ++ junk) = a ++ str "\pard" ++ junk.
Proof.
  unfold preamble. cbv zeta.
  pose proof reset_paper as Hpaper.
  set (s := a ++ str "\pard" ++ junk) in *.
  rewrite (re_sub_unguarded U Advanced.re_rtf1 [] BSL (ch "r") s eq_refl)
    by (apply reset_follows; reflexivity).
  rewrite (re_sub_unguarded U Advanced.re_cocoartf [] BSL (ch "c") s eq_refl)
    by (apply reset_follows; reflexivity).
  rewrite (re_sub_unguarded U Advanced.re_cocoascaling [] BSL (ch "c") s
             eq_refl)
    by (apply reset_follows; reflexivity).
  rewrite (re_sub_unguarded U Advanced.re_fonttbl [] (ch "{") BSL s eq_refl)
    by (apply reset_follows_brace).
  rewrite (re_sub_unguarded U Advanced.re_colortbl [] (ch "{") BSL s eq_refl)
    by (apply reset_follows_brace).
  rewrite (re_sub_unguarded U Advanced.re_expandedcolortbl [] (ch "{") BSL s
             eq_refl)
    by (apply reset_follows_brace).
  rewrite Hpaper.
  rewrite (re_sub_unguarded U Advanced.re_deftab [] BSL (ch "d") s eq_refl)
    by (apply reset_follows; reflexivity).
  reflexivity.
Qed.

Lemma reset_match total :
  rmatch U total Advanced.re_pard g0 (str "\pard" ++ junk) = Some (g0, []).
Proof.
  unfold Advanced.re_pard, lit. rewrite rmatch_lit. cbn [rmatch]. unfold star.
  apply many_greedy_run.
  - rewrite (after_run_all _ junk (absent_not_char BSL junk Hj)).
    reflexivity.
  - lia.
Qed.

Lemma reset_swallows :
  re_sub_str U Advanced.re_pard Advanced.para_break_text
    (a ++ str "\pard" ++ junk)
  = a ++ Advanced.para_break_text.
Proof.
  apply plain_chars in Ha as (HB & _ & _).
  unfold re_sub_str. rewrite re_sub_rsub.
  rewrite (rsub_skip U _ _ _ BSL a) by (reflexivity || exact HB).
  rewrite (rsub_hit_at _ _ _ _ _ _ (reset_match _))
    by (rewrite length_app; cbn; lia).
  rewrite rsub_nil. cbn [expand List.map List.concat].
  rewrite !app_nil_r. reflexivity.
Qed.

Lemma reset_plain : plain (a ++ Advanced.para_break_text) = true.
Proof. rewrite plain_app, Ha. reflexivity. Qed.

Lemma reset_strip_controls :
  Advanced.strip_controls U (a ++ str "\pard" ++ junk)
  = a ++ Advanced.para_break_text.
Proof.
  rewrite strip_controls_split, before_escapes_stages, reset_preamble,
          reset_swallows.
  pose proof reset_plain as Hp.
  rewrite styles_absent by (apply plain_chars in Hp; tauto).
  apply from_escapes_plain, Hp.
Qed.

End Reset.

End StageFacts.


(** ** What a paragraph reset takes with it *)

Lemma join_snoc_nil sep l ls :
  join [sep] ((l :: ls) ++ [[]]) = join [sep] (l :: ls) ++ [sep].
Proof.
  revert l. induction ls as [|m ls IH]; intros l.
  - cbn [app join]. reflexivity.
  - change ((l :: m :: ls) ++ [[]]) with (l :: ((m :: ls) ++ [[]])).
    change (join [sep] (l :: (m :: ls) ++ [[]]))
      with (l ++ [sep] ++ join [sep] ((m :: ls) ++ [[]])).
    rewrite IH. cbn [join]. rewrite <- !app_assoc. reflexivity.
Qed.

Lemma gather_trailing_newline c :
  Advanced.gather (c ++ [NL]) = Advanced.gather c.
Proof.
  unfold Advanced.gather.
  rewrite split_on_app_any, fold_left_app.
  change (split_on NL []) with [@nil N]. cbn [fold_left].
  destruct (fold_left Advanced.gather_step (split_on NL c) ([], []))
    as [ps cur].
  unfold Advanced.gather_step.
  change (nonempty (strip [])) with false. cbn [negb].
  destruct (nonempty cur) eqn:E; cbv beta iota; rewrite ?E; reflexivity.
Qed.

Lemma gather_closing_break ls :
  Advanced.gather (join [NL] (ls ++ [[]])) = Advanced.gather (join [NL] ls).
Proof.
  destruct ls as [|l ls]; [reflexivity|].
  rewrite join_snoc_nil. apply gather_trailing_newline.
Qed.

Section ResetFacts.
Variable U : unicode_db.

Lemma reset_clean_rtf_content a junk :
  plain a = true -> has_char BSL junk = false ->
  Advanced.clean_rtf_content U (a ++ str "\pard" ++ junk)
  = join [NL] (flat_map (Advanced.clean_line U) (split_on NL a) ++ [[]]).
Proof.
  intros Ha Hj. unfold Advanced.clean_rtf_content.
  rewrite (reset_strip_controls U a junk Ha Hj).
  change (a ++ Advanced.para_break_text)
    with (a ++ NL :: ([] ++ NL :: (Advanced.PARA_BREAK ++ [NL]))).
  rewrite !split_on_app_any, !flat_map_app.
  apply f_equal. apply f_equal. vm_compute. reflexivity.
Qed.

Lemma reset_recover a junk title :
  plain a = true -> has_char BSL junk = false ->
  Advanced.recover U (a ++ str "\pard" ++ junk) title
  = Advanced.recover U a title.
Proof.
  intros Ha Hj. unfold Advanced.recover, Advanced.structure_legal_document.
  rewrite (reset_clean_rtf_content a junk Ha Hj).
  rewrite (clean_rtf_content_plain U a Ha).
  rewrite gather_closing_break. reflexivity.
Qed.

End ResetFacts.

(** X13: the pattern for a paragraph reset takes everything up to the next
    backslash with it.  After a text without control markers, a reset
    followed by text in which no backslash comes leaves the sentinel of a
    paragraph break only: that text is lost, and the paragraphs recovered
    are those of the text before the reset. *)
Theorem X13_text_after_last_reset_is_lost :
  forall (U : unicode_db) (before lost title : pystr),
    plain before = true ->
    has_char BSL lost = false ->
    Advanced.strip_controls U (before ++ str "\pard" ++ lost)
    = before ++ Advanced.para_break_text
    /\ Advanced.recover U (before ++ str "\pard" ++ lost) title
       = Advanced.recover U before title.
Proof.
  intros U a junk title Ha Hj. split.
  - apply reset_strip_controls; assumption.
  - apply reset_recover; assumption.
Qed.

Lemma X13_witness :
  Advanced.strip_controls ascii_db
    (str "First clause." ++ str "\pard" ++ str " Second clause.")
  = str "First clause." ++ Advanced.para_break_text
  /\ Advanced.recover ascii_db
       (str "First clause." ++ str "\pard" ++ str " Second clause.") []
     = Some [str "First clause."].
Proof.
  destruct (X13_text_after_last_reset_is_lost ascii_db
              (str "First clause.") (str " Second clause.") []
              eq_refl eq_refl) as [H1 H2].
  split; [exact H1|]. rewrite H2. vm_compute. reflexivity.
Defined.

(** ** The font table *)

Section FontTable.
Variable U : unicode_db.
Variables body text : pystr.
Hypothesis Hclose : has_char (ch "}") body = false.
Hypothesis Hr : follows BSL (ch "r") body = false.
Hypothesis Hc : follows BSL (ch "c") body = false.
Hypothesis Ht : plain text = true.

Lemma table_follows b :
  follows BSL b body = false -> (ch "f" =? b) = false -> (ch "}" =? b) = false ->
  follows BSL b (str "{\fonttbl" ++ body ++ str "}" ++ text) = false.
Proof.
  intros Hb Hf Hcl. apply plain_chars in Ht as (HB & _ & _).
  change (str "{\fonttbl" ++ body ++ str "}" ++ text)
    with (ch "{" :: BSL :: ch "f" :: ch "o" :: ch "n" :: ch "t" :: ch "t"
            :: ch "b" :: ch "l" :: body ++ ch "}" :: text).
  cbn [follows]. rewrite Hf.
  change ((ch "{" =? BSL)) with false.
  change ((ch "f" =? BSL)) with false.
  change ((ch "o" =? BSL)) with false.
  change ((ch "n" =? BSL)) with false.
  change ((ch "t" =? BSL)) with false.
  change ((ch "b" =? BSL)) with false.
  change ((ch "l" =? BSL)) with false.
  change ((BSL =? BSL)) with true.
  cbn [andb orb].
  rewrite follows_app_stop by (apply N.eqb_neq; exact Hcl).
  rewrite Hb. cbn [orb follows].
  change ((ch "}" =? BSL)) with false. cbn [andb orb].
  apply follows_absent. exact HB.
Qed.

Lemma table_match total :
  rmatch U total Advanced.re_fonttbl g0
         (str "{\fonttbl" ++ body ++ str "}" ++ text)
  = Some (g0, text).
Proof.
  apply plain_chars in Ht as (_ & _ & HC).
  unfold Advanced.re_fonttbl, lit. rewrite rmatch_lit. cbn [rmatch].
  unfold star, plus.
  assert (R1 : after_run U (Advanced.not_char (ch "}"))
                 (body ++ str "}" ++ text) = str "}" ++ text).
  { rewrite after_run_prefix by (apply absent_not_char; exact Hclose).
    reflexivity. }
  assert (R2 : after_run U (CChar (ch "}")) (str "}" ++ text) = text).
  { change (str "}" ++ text) with (ch "}" :: text).
    cbn [after_run cset_mem]. rewrite N.eqb_refl.
    apply after_run_char_absent. exact HC. }
  apply many_greedy_run; rewrite R1; [|lia].
  apply many_greedy_run; rewrite R2; [reflexivity|].
  change (str "}" ++ text) with (ch "}" :: text). cbn [length]. lia.
Qed.

Lemma table_removed :
  re_sub_str U Advanced.re_fonttbl []
    (str "{\fonttbl" ++ body ++ str "}" ++ text)
  = text.
Proof.
  apply plain_chars in Ht as HT. destruct HT as (_ & HO & _).
  unfold re_sub_str. rewrite re_sub_rsub.
  rewrite (rsub_hit_at _ _ _ _ _ _ _ (table_match _))
    by (rewrite !length_app; cbn; lia).
  rewrite (rsub_plain U _ _ _ (ch "{")) by (reflexivity || exact HO).
  reflexivity.
Qed.

Lemma table_preamble :
  preamble U (str "{\fonttbl" ++ body ++ str "}" ++ text) = text.
Proof.
  unfold preamble. cbv zeta.
  pose proof table_removed as Hrem.
  set (s := str "{\fonttbl" ++ body ++ str "}" ++ text) in *.
  rewrite (re_sub_unguarded U Advanced.re_rtf1 [] BSL (ch "r") s eq_refl)
    by (apply table_follows; [exact Hr|reflexivity|reflexivity]).
  rewrite (re_sub_unguarded U Advanced.re_cocoartf [] BSL (ch "c") s eq_refl)
    by (apply table_follows; [exact Hc|reflexivity|reflexivity]).
  rewrite (re_sub_unguarded U Advanced.re_cocoascaling [] BSL (ch "c") s
             eq_refl)
    by (apply table_follows; [exact Hc|reflexivity|reflexivity]).
  rewrite Hrem.
  apply plain_chars in Ht as HT. destruct HT as (HB & HO & _).
  repeat match goal with
         | |- context [re_sub_str U ?r ?rep text] =>
             first [ rewrite (re_sub_str_absent U r rep BSL text eq_refl HB)
                   | rewrite (re_sub_str_absent U r rep (ch "{") text
                                eq_refl HO) ]
         end.
  reflexivity.
Qed.

Lemma table_strip_controls :
  Advanced.strip_controls U (str "{\fonttbl" ++ body ++ str "}" ++ text)
  = text.
Proof.
  rewrite strip_controls_split, before_escapes_stages, table_preamble.
  apply plain_chars in Ht as HT. destruct HT as (HB & _ & _).
  rewrite (re_sub_str_absent U Advanced.re_pard Advanced.para_break_text BSL
             text eq_refl HB).
  rewrite styles_absent by exact HB.
  apply from_escapes_plain, Ht.
Qed.

End FontTable.

(** X14: a font table at the head of the input leaves nothing behind.  The
    group from [{\fonttbl] to its closing brace is removed whole, whatever
    is in it short of a closing brace and of the start of a header keyword;
    the text after it that has no control marker comes out as it would
    alone. *)
Theorem X14_font_table_leaves_nothing :
  forall (U : unicode_db) (body text : pystr),
    has_char (ch "}") body = false ->
    follows BSL (ch "r") body = false ->
    follows BSL (ch "c") body = false ->
    plain text = true ->
    Advanced.strip_controls U (str "{\fonttbl" ++ body ++ str "}" ++ text)
    = text
    /\ Advanced.clean_rtf_content U
         (str "{\fonttbl" ++ body ++ str "}" ++ text)
       = Advanced.clean_rtf_content U text.
Proof.
  intros U body text H1 H2 H3 H4.
  pose proof (table_strip_controls U body text H1 H2 H3 H4) as E.
  split; [exact E|].
  unfold Advanced.clean_rtf_content.
  rewrite E, (strip_controls_plain U text H4). reflexivity.
Qed.

Lemma X14_witness :
  Advanced.clean_rtf_content ascii_db
    (str "{\fonttbl" ++ str "\f0\fswiss Helvetica;\f1\froman Times;"
       ++ str "}" ++ str "These terms bind both parties.")
  = str "These terms bind both parties.".
Proof.
  destruct (X14_font_table_leaves_nothing ascii_db
              (str "\f0\fswiss Helvetica;\f1\froman Times;")
              (str "These terms bind both parties.")
              eq_refl eq_refl eq_refl eq_refl) as [_ H].
  rewrite H. vm_compute. reflexivity.
Defined.


(** ** The escape of the line separator *)

Lemma repl_miss o old new c s :
  starts_with (o :: old) (c :: s) = false ->
  repl (o :: old) new (c :: s) = c :: repl (o :: old) new s.
Proof. intros H. rewrite repl_cons, H. reflexivity. Qed.

Section LineSeparator.
Variable U : unicode_db.
Variables p q : pystr.
Hypothesis Hp : plain p = true.
Hypothesis Hq : plain q = true.

Lemma linesep_no_early_control :
  no_early_control (p ++ esc_linesep ++ q) = true.
Proof.
  apply plain_chars in Hp as (P1 & P2 & P3).
  apply plain_chars in Hq as (Q1 & Q2 & Q3).
  unfold no_early_control. cbn [forallb].
  rewrite (follows_absent (ch "{")); cycle 1.
  { rewrite !has_char_app, P2, Q2. reflexivity. }
  rewrite !(follows_skip BSL _ p) by exact P1.
  change (esc_linesep ++ q)
    with (BSL :: ch "u" :: ch "c" :: ch "0" :: BSL :: ch "u"
            :: str "8232" ++ q).
  cbn [follows].
  rewrite !(follows_skip BSL _ (str "8232")) by reflexivity.
  rewrite !(follows_absent BSL _ q) by exact Q1.
  reflexivity.
Qed.

Lemma linesep_is_not_rupee :
  replace esc_rupee [RUPEE] (p ++ esc_linesep ++ q) = p ++ esc_linesep ++ q.
Proof.
  apply plain_chars in Hp as (P1 & _ & _).
  apply plain_chars in Hq as (Q1 & _ & _).
  change esc_rupee with (BSL :: List.tl esc_rupee).
  rewrite replace_repl, repl_skip by exact P1. f_equal.
  change (esc_linesep ++ q)
    with (BSL :: ch "u" :: ch "c" :: ch "0" :: BSL :: str "u8232" ++ q).
  do 5 (rewrite repl_miss by reflexivity).
  rewrite repl_absent; [reflexivity|].
  rewrite has_char_app, Q1. reflexivity.
Qed.

Lemma replace_linesep :
  replace esc_linesep [NL] (p ++ esc_linesep ++ q) = p ++ [NL] ++ q.
Proof.
  apply plain_chars in Hp as (P1 & _ & _).
  apply plain_chars in Hq as (Q1 & _ & _).
  change esc_linesep with (BSL :: List.tl esc_linesep).
  rewrite replace_repl, repl_hit by exact P1.
  rewrite <- replace_repl.
  rewrite (replace_absent _ _ BSL q) by (reflexivity || exact Q1).
  reflexivity.
Qed.

Lemma plain_with_newline : plain (p ++ [NL] ++ q) = true.
Proof. rewrite !plain_app, Hp, Hq. reflexivity. Qed.

Lemma strip_controls_linesep :
  Advanced.strip_controls U (p ++ esc_linesep ++ q) = p ++ [NL] ++ q.
Proof.
  rewrite strip_controls_split.
  rewrite before_escapes_id by exact linesep_no_early_control.
  pose proof plain_with_newline as Hy.
  etransitivity; [|exact (from_escapes_plain U (p ++ [NL] ++ q) Hy)].
  unfold from_escapes.
  rewrite linesep_is_not_rupee, replace_linesep.
  apply plain_chars in Hy as (Y1 & _ & _).
  rewrite (replace_absent esc_rupee _ BSL (p ++ [NL] ++ q))
    by (reflexivity || exact Y1).
  rewrite (replace_absent esc_linesep _ BSL (p ++ [NL] ++ q))
    by (reflexivity || exact Y1).
  reflexivity.
Qed.

End LineSeparator.

(** X17: the escape of the line separator is a line break.  Between two
    texts without control markers, steps 1 to 7 of [clean_rtf_content] put
    a newline in its place and leave the texts as they are, so what is
    recovered is what is recovered from the two texts on two lines. *)
Theorem X17_line_separator_escape_is_a_line_break :
  forall (U : unicode_db) (before after : pystr),
    plain before = true -> plain after = true ->
    Advanced.strip_controls U (before ++ esc_linesep ++ after)
    = before ++ [NL] ++ after
    /\ Advanced.clean_rtf_content U (before ++ esc_linesep ++ after)
       = Advanced.clean_rtf_content U (before ++ [NL] ++ after).
Proof.
  intros U p q Hp Hq.
  pose proof (strip_controls_linesep U p q Hp Hq) as E.
  split; [exact E|].
  unfold Advanced.clean_rtf_content.
  rewrite E, (strip_controls_plain U _ (plain_with_newline p q Hp Hq)).
  reflexivity.
Qed.

Lemma X17_witness :
  Advanced.clean_rtf_content ascii_db
    (str "The fee is due" ++ esc_linesep ++ str "within ten days.")
  = str "The fee is due" ++ [NL] ++ str "within ten days.".
Proof.
  destruct (X17_line_separator_escape_is_a_line_break ascii_db
              (str "The fee is due") (str "within ten days.")
              eq_refl eq_refl) as [_ H].
  rewrite H. vm_compute. reflexivity.
Defined.

(** ** One file of the manual cleaner *)



(** ** No paragraph is skipped *)

Lemma gather_step_nonblank (ps : list pystr) (cur line : pystr) :
  List.Forall (fun p => blank p = false) ps ->
  cur = [] \/ (starts_solid cur = true /\ ends_solid cur = true) ->
  List.Forall (fun p => blank p = false)
              (fst (Advanced.gather_step (ps, cur) line)).
Proof.
  intros Hp Hc. unfold Advanced.gather_step.
  destruct (nonempty (strip line)); cbn [negb].
  - destruct (nonempty cur); exact Hp.
  - destruct (nonempty cur) eqn:Hn; cbn [fst]; [|exact Hp].
    destruct Hc as [->|[C1 C2]]; [discriminate|].
    apply List.Forall_app. split; [exact Hp|].
    constructor; [|constructor].
    rewrite strip_solid by assumption. apply starts_solid_not_blank, C1.
Qed.

Lemma gather_fold_nonblank lines :
  forall (ps : list pystr) (cur : pystr),
    List.Forall (fun p => blank p = false) ps ->
    cur = [] \/ (starts_solid cur = true /\ ends_solid cur = true) ->
    List.Forall (fun p => blank p = false)
                (fst (fold_left Advanced.gather_step lines (ps, cur))).
Proof.
  induction lines as [|l lines IH]; intros ps cur Hp Hc; cbn [fold_left].
  - exact Hp.
  - pose proof (gather_step_nonblank ps cur l Hp Hc) as H1.
    destruct (gather_steps_agree ps cur l Hc) as [_ H2].
    unfold pystr in *.
    match type of H1 with
    | List.Forall _ (fst ?t) => remember t as r eqn:Er
    end.
    destruct r as [ps' cur']. apply IH; assumption.
Qed.

Lemma gather_nonblank content :
  List.Forall (fun p => blank p = false) (Advanced.gather content).
Proof.
  unfold Advanced.gather.
  pose proof (gather_fold_nonblank (split_on NL content) [] []
                (List.Forall_nil _) (or_introl eq_refl)) as H1.
  destruct (gather_folds_agree (split_on NL content) [] []
              (or_introl eq_refl)) as [_ H2].
  unfold pystr in *.
  match type of H1 with
  | List.Forall _ (fst ?t) => remember t as r eqn:Er
  end.
  destruct r as [ps cur]. cbn [fst snd] in H1, H2.
  destruct (nonempty cur) eqn:Hn; [|exact H1].
  destruct H2 as [->|[C1 C2]]; [discriminate|].
  apply List.Forall_app. split; [exact H1|].
  constructor; [|constructor].
  rewrite strip_solid by assumption. apply starts_solid_not_blank, C1.
Qed.

Lemma filter_all (A : Type) (f : A -> bool) l :
  List.Forall (fun x => f x = true) l -> List.filter f l = l.
Proof.
  induction 1 as [|x l Hx _ IH]; [reflexivity|].
  cbn [List.filter]. rewrite Hx, IH. reflexivity.
Qed.

Lemma nonblank_kept l :
  List.Forall (fun p => blank p = false) l ->
  List.filter (fun para => nonempty (strip para)) l = l.
Proof.
  intros H. apply filter_all.
  eapply List.Forall_impl; [|exact H]. cbn. intros p Hp.
  rewrite nonempty_strip, Hp. reflexivity.
Qed.

Lemma format_all_length U ps :
  List.Forall (fun p => ends_solid p = true) ps ->
  List.Forall (fun p => blank p = false) ps ->
  exists qs, Advanced.format_all U ps = Some qs
             /\ length qs = length ps
             /\ List.Forall (fun q => blank q = false) qs.
Proof.
  induction 1 as [|p ps Hp _ IH]; intros Hb.
  - exists []. repeat split; constructor.
  - inversion Hb as [|? ? Bp Bps]; subst.
    destruct (IH Bps) as (qs & E & L & F).
    destruct (format_para_total U p Hp) as (q & Eq & Bq).
    exists (q :: qs). cbn [Advanced.format_all].
    rewrite nonempty_strip, Bp. cbn [negb]. rewrite Eq, E.
    cbn [mbind option_bind]. split; [reflexivity|].
    split; [cbn [length]; rewrite L; reflexivity|].
    constructor; [apply Bq, Bp|exact F].
Qed.

(** X20: the tests on blank paragraphs never skip one.  Every paragraph
    the gathering loop of [structure_legal_document] makes has a character
    that is not whitespace, so the second loop formats each of them, and
    [create_clean_legal_html] and [create_legal_html] write one paragraph
    element for each. *)
Theorem X20_no_paragraph_is_skipped :
  forall (U : unicode_db) (content title : pystr) (filename : string),
    exists ps,
      Advanced.structure_legal_document U content title = Some ps
      /\ length ps = length (Advanced.gather content)
      /\ Advanced.create_clean_legal_html title ps
         = Advanced.html_head title
             ++ List.concat (List.map Advanced.para_element ps)
             ++ Advanced.html_tail
      /\ Extract.create_legal_html title content filename
         = Extract.html_head title
             ++ List.concat (List.map Extract.para_element
                               (Extract.gather content))
             ++ Extract.html_tail.
Proof.
  intros U content title filename.
  destruct (format_all_length U (Advanced.gather content)
              (gather_solid content) (gather_nonblank content))
    as (ps & E & L & F).
  exists ps. split; [exact E|]. split; [exact L|]. split.
  - unfold Advanced.create_clean_legal_html.
    rewrite (nonblank_kept ps F). reflexivity.
  - unfold Extract.create_legal_html.
    assert (G : Extract.gather content = Advanced.gather content).
    { unfold Extract.gather, Advanced.gather.
      destruct (gather_folds_agree (split_on NL content) [] []
                  (or_introl eq_refl)) as [E' Hc].
      rewrite E'.
      destruct (fold_left Advanced.gather_step (split_on NL content)
                          ([], [])) as [qs cur]. cbn [snd] in Hc.
      destruct (nonempty cur) eqn:Hn; [|reflexivity].
      destruct Hc as [->|[C1 C2]]; [discriminate|].
      rewrite strip_solid by assumption. reflexivity. }
    rewrite G, (nonblank_kept _ (gather_nonblank content)). reflexivity.
Qed.


(** ** Formatting a paragraph twice *)

Lemma squeeze_go_spaced s :
  forall b, spaced b s = true -> squeeze_go b s = s.
Proof.
  induction s as [|c s IH]; intros b H; [reflexivity|].
  cbn [spaced] in H. cbn [squeeze_go].
  destruct (is_space c).
  - apply andb_true_iff in H as [H H3]. apply andb_true_iff in H as [H1 H2].
    apply N.eqb_eq in H1. apply negb_true_iff in H2. subst.
    rewrite (IH true H3). reflexivity.
  - rewrite (IH false H). reflexivity.
Qed.

Lemma spaced_squeeze_go s : forall b, spaced b (squeeze_go b s) = true.
Proof.
  induction s as [|c s IH]; intros b; [reflexivity|].
  cbn [squeeze_go]. destruct (is_space c) eqn:E.
  - destruct b; [apply IH|].
    cbn [spaced]. replace (is_space SPC) with true by reflexivity.
    rewrite N.eqb_refl. cbn [negb andb]. apply IH.
  - cbn [spaced]. rewrite E. apply IH.
Qed.

Lemma spaced_word b w s :
  solid w = true ->
  spaced b (w ++ s) = spaced (if nonempty w then false else b) s.
Proof.
  revert b. induction w as [|c w IH]; intros b H; [reflexivity|].
  cbn [solid forallb] in H. apply andb_true_iff in H as [Hc Hw].
  apply negb_true_iff in Hc. cbn [app spaced nonempty]. rewrite Hc.
  rewrite (IH false Hw). destruct w; reflexivity.
Qed.

Lemma spaced_solid_end x r :
  solid r = true -> forall b, spaced b x = true -> spaced b (x ++ r) = true.
Proof.
  intros Hr. induction x as [|c x IH]; intros b H.
  - cbn [app]. rewrite <- (app_nil_r r), (spaced_word b r [] Hr).
    reflexivity.
  - cbn [app spaced] in *. destruct (is_space c).
    + apply andb_true_iff in H as [H H3]. rewrite H. apply IH, H3.
    + apply IH, H.
Qed.

Lemma words_solid s :
  List.Forall (fun w => solid w = true /\ nonempty w = true) (split_ws s).
Proof.
  induction s as [|c s IH]; cbn [split_ws]; [constructor|].
  destruct (is_space c) eqn:E; [exact IH|].
  assert (Hc : solid [c] = true /\ nonempty [c] = true).
  { cbn. rewrite E. split; reflexivity. }
  destruct s as [|d s]; [constructor; [exact Hc|constructor]|].
  destruct (is_space d) eqn:Ed.
  - constructor; [exact Hc|exact IH].
  - destruct (split_ws (d :: s)) as [|w ws];
      [constructor; [exact Hc|constructor]|].
    inversion IH as [|? ? [H1 H2] H3]; subst.
    constructor; [|exact H3]. split; [|reflexivity].
    cbn [solid forallb]. rewrite E. exact H1.
Qed.

Lemma spaced_join ws :
  List.Forall (fun w => solid w = true /\ nonempty w = true) ws ->
  spaced true (join (str " ") ws) = true.
Proof.
  induction 1 as [|w ws [Hs Hn] Hws IH]; [reflexivity|].
  cbn [join]. destruct ws as [|v ws].
  - rewrite <- (app_nil_r w), (spaced_word true w [] Hs). reflexivity.
  - rewrite (spaced_word true w _ Hs), Hn. exact IH.
Qed.

Lemma split_once_solid s :
  forall b, spaced b s = true -> solid (fst (split_once SPC s)) = true.
Proof.
  induction s as [|c s IH]; intros b H; [reflexivity|].
  cbn [split_once]. destruct (N.eqb_spec c SPC) as [->|Hc]; [reflexivity|].
  cbn [spaced] in H. destruct (is_space c) eqn:E.
  - apply andb_true_iff in H as [H _]. apply andb_true_iff in H as [H _].
    apply N.eqb_eq in H. contradiction.
  - specialize (IH false H). destruct (split_once SPC s) as [a r].
    cbn [fst solid forallb] in *. rewrite E, IH. reflexivity.
Qed.

Section TwiceFacts.
Variable U : unicode_db.

(** A paragraph that starts with the markup is left as it is. *)
Lemma format_para_marked m :
  spaced false m = true ->
  Advanced.format_para U (str "<strong>" ++ m) = Some (str "<strong>" ++ m).
Proof.
  intros H. unfold Advanced.format_para.
  rewrite re_sub_spaces. unfold squeeze.
  rewrite squeeze_go_spaced
    by (rewrite (spaced_word false (str "<strong>") m eq_refl); exact H).
  cbv zeta.
  replace (starts_with_any _ (str "<strong>" ++ m)) with false by reflexivity.
  cbn [mbind option_bind].
  replace (starts_with (str "ARTICLE") (str "<strong>" ++ m)) with false
    by reflexivity.
  cbn [andb]. rewrite numbered_markup. reflexivity.
Qed.

Lemma spaced_tail_words w ws :
  solid w = true -> nonempty w = true ->
  List.Forall (fun w => solid w = true /\ nonempty w = true) ws ->
  spaced false (w ++ str "</strong> " ++ join (str " ") ws) = true.
Proof.
  intros Hs Hn Hws.
  rewrite (spaced_word false w _ Hs), Hn.
  change (str "</strong> " ++ join (str " ") ws)
    with (str "</strong>" ++ SPC :: join (str " ") ws).
  rewrite (spaced_word false (str "</strong>") _ eq_refl).
  cbn [nonempty str]. apply spaced_join, Hws.
Qed.

End TwiceFacts.

(** X21: formatting a paragraph a second time changes nothing.  Whatever
    the second loop of [structure_legal_document] makes of a paragraph, it
    makes the same of the result: the markup is not put twice. *)
Theorem X21_formatting_twice_changes_nothing :
  forall (U : unicode_db) (para formatted : pystr),
    Advanced.format_para U para = Some formatted ->
    Advanced.format_para U formatted = Some formatted.
Proof.
  intros U para q E.
  pose proof (spaced_squeeze_go para false) as Sp.
  assert (Id : squeeze (squeeze para) = squeeze para)
    by (apply squeeze_go_spaced, Sp).
  assert (Same : Advanced.format_para U (squeeze para)
                 = Advanced.format_para U para).
  { unfold Advanced.format_para. rewrite !re_sub_spaces, Id. reflexivity. }
  revert E. unfold Advanced.format_para at 1. rewrite re_sub_spaces.
  cbv zeta. fold (squeeze para) in Sp. set (p := squeeze para) in *.
  destruct (starts_with_any _ p) eqn:W.
  - pose proof (words_solid p) as Hw.
    destruct (split_ws p) as [|w ws]; cbn [hd_error mbind option_bind tl];
      [discriminate|].
    inversion Hw as [|? ? [H1 H2] H3]; subst.
    replace (starts_with (str "ARTICLE") _) with false by reflexivity.
    cbn [andb]. rewrite numbered_markup.
    intros E. apply (inj Some) in E. subst q.
    apply format_para_marked, spaced_tail_words; assumption.
  - cbn [mbind option_bind].
    destruct (starts_with (str "ARTICLE") p && has_char (ch ":") p) eqn:A.
    + rewrite numbered_markup. intros E. apply (inj Some) in E. subst q.
      apply format_para_marked.
      apply spaced_solid_end; [reflexivity|exact Sp].
    + destruct (re_match U Advanced.re_numbered p) eqn:M.
      * destruct (split_once SPC p) as [p0 [p1|]] eqn:S.
        -- pose proof (words_solid p1) as Hw.
           destruct (split_ws p1) as [|w ws];
             cbn [hd_error mbind option_bind tl]; [discriminate|].
           inversion Hw as [|? ? [H1 H2] H3]; subst.
           intros E. apply (inj Some) in E. subst q.
           apply format_para_marked.
           pose proof (split_once_solid p false Sp) as H0.
           rewrite S in H0. cbn [fst] in H0.
           rewrite (spaced_word false p0 _ H0).
           replace (if nonempty p0 then false else false) with false
             by (destruct (nonempty p0); reflexivity).
           change (str " " ++ w ++ str "</strong> " ++ join (str " ") ws)
             with (SPC :: w ++ str "</strong> " ++ join (str " ") ws).
           cbn [spaced]. replace (is_space SPC) with true by reflexivity.
           rewrite N.eqb_refl. cbn [negb andb].
           rewrite (spaced_word true w _ H1), H2.
           change (str "</strong> " ++ join (str " ") ws)
             with (str "</strong>" ++ SPC :: join (str " ") ws).
           rewrite (spaced_word false (str "</strong>") _ eq_refl).
           cbn [nonempty str]. apply spaced_join, H3.
        -- intros E. apply (inj Some) in E. subst q.
           rewrite Same. unfold Advanced.format_para.
           rewrite re_sub_spaces. cbv zeta. fold p.
           rewrite W. cbn [mbind option_bind]. rewrite A, M, S. reflexivity.
      * intros E. apply (inj Some) in E. subst q.
        rewrite Same. unfold Advanced.format_para.
        rewrite re_sub_spaces. cbv zeta. fold p.
        rewrite W. cbn [mbind option_bind]. rewrite A, M. reflexivity.
Qed.

Lemma X21_witness :
  Advanced.format_para ascii_db
    (str "<strong>3.1 Refunds</strong> are made within ten days.")
  = Some (str "<strong>3.1 Refunds</strong> are made within ten days.").
Proof.
  apply (X21_formatting_twice_changes_nothing ascii_db
           (str "3.1   Refunds are made  within ten days.")).
  vm_compute. reflexivity.
Defined.


(** ** Emphasis in extract_rtf_content.py *)

Section SpanFacts.
Variable U : unicode_db.

(** A repetition that has no way on after any of its stops fails. *)
Lemma many_none (A : Type) lz cs (k : pystr -> option A) :
  forall s mn,
    (forall p s', s = p ++ s' -> k s' = None) ->
    many U A lz cs mn s k = None.
Proof.
  induction s as [|c s IH]; intros mn H.
  - destruct mn; cbn; [|reflexivity]. apply (H [] []). reflexivity.
  - assert (Stop : match mn with O => k (c :: s) | S _ => None end = None).
    { destruct mn; [|reflexivity]. apply (H [] (c :: s)). reflexivity. }
    assert (More : many U A lz cs (Nat.pred mn) s k = None).
    { apply IH. intros p s' ->. apply (H (c :: p) s'). reflexivity. }
    cbn [many]. cbv zeta. rewrite Stop, More.
    destruct (cset_mem U cs c), lz; reflexivity.
Qed.

(** Without an asterisk in what is left of the line, the rest of a span
    pattern does not match. *)
Lemma span_open total r g s :
  has_char STAR s = false ->
  rmatch U total
         (GOpen :: star (Extract.not_char STAR) :: GClose
            :: One (CChar STAR) :: r) g s
  = None.
Proof.
  intros H. cbn [rmatch]. unfold star. apply many_none.
  intros p s' ->. rewrite has_char_app in H.
  apply orb_false_elim in H as [_ H].
  cbn [rmatch]. destruct s' as [|c s']; [reflexivity|].
  apply has_char_false_cons in H as [Hc _].
  cbn [cset_mem]. destruct (N.eqb_spec c STAR); [contradiction|reflexivity].
Qed.

(** With the return right after a text without asterisk, a span pattern
    takes the text as its group. *)
Lemma span_closed total g inner rest :
  has_char STAR inner = false ->
  rmatch U total
         ([GOpen; star (Extract.not_char STAR); GClose] ++ lit "**NORMAL**")
         g (inner ++ str "**NORMAL**" ++ rest)
  = Some ({| g_open := inner ++ str "**NORMAL**" ++ rest;
             g_text := Some inner |}, rest).
Proof.
  intros H. cbn [app rmatch]. unfold star.
  apply many_greedy_run.
  - rewrite after_run_prefix by (apply absent_not_char; exact H).
    change (str "**NORMAL**" ++ rest) with (STAR :: str "*NORMAL**" ++ rest).
    rewrite after_run_stop by reflexivity.
    cbn [rmatch g_open g_text].
    change (STAR :: str "*NORMAL**" ++ rest) with (str "**NORMAL**" ++ rest).
    replace (firstn _ _) with inner.
    + unfold lit.
      rewrite <- (app_nil_r (List.map _ (str "**NORMAL**"))), rmatch_lit.
      reflexivity.
    + rewrite length_app, Nat.add_sub.
      rewrite firstn_app, firstn_all, Nat.sub_diag. cbn [firstn].
      rewrite app_nil_r. reflexivity.
  - lia.
Qed.

(** Three newlines in a row are needed by the pattern for blank lines, two
    spaces in a row by the pattern for blanks. *)
Lemma rsub_repeat_idle total c mn rep s :
  follows c c s = false ->
  rsub U total [Many false (S (S mn)) (CChar c)] rep s = s.
Proof.
  induction s as [|d s IH]; [reflexivity|]. cbn [follows]. intros H.
  apply orb_false_elim in H as [H1 H2].
  rewrite rsub_miss, (IH H2); [reflexivity|].
  cbn [rmatch many cset_mem]. cbv zeta. unfold orelse.
  destruct (N.eqb_spec d c) as [->|]; [|reflexivity].
  cbn [andb] in H1.
  destruct s as [|e s]; [reflexivity|].
  cbn [many Nat.pred cset_mem]. cbv zeta. rewrite H1. reflexivity.
Qed.

Lemma newlines_idle s :
  follows NL NL s = false ->
  re_sub_str U Extract.re_newlines [NL; NL] s = s.
Proof.
  intros H. unfold re_sub_str. rewrite re_sub_rsub.
  apply rsub_repeat_idle, H.
Qed.

Lemma blanks_idle s :
  follows SPC SPC s = false ->
  re_sub_str U Extract.re_blanks (str " ") s = s.
Proof.
  intros H. unfold re_sub_str. rewrite re_sub_rsub.
  apply rsub_repeat_idle, H.
Qed.

End SpanFacts.

Lemma follows_solid_joint p s :
  follows SPC SPC p = false -> ends_solid p = true -> p <> [] ->
  follows SPC SPC (p ++ s) = follows SPC SPC s.
Proof.
  induction p as [|c p IH]; [contradiction|]. intros F E _.
  destruct p as [|d p].
  - cbn [app follows]. cbn [ends_solid] in E. apply negb_true_iff in E.
    rewrite (solid_not_space c E). reflexivity.
  - change ((c :: d :: p) ++ s) with (c :: (d :: p) ++ s).
    change (follows SPC SPC (c :: (d :: p) ++ s))
      with ((c =? SPC) && (d =? SPC) || follows SPC SPC ((d :: p) ++ s)).
    cbn [follows] in F. apply orb_false_elim in F as [F1 F2].
    rewrite F1. cbn [orb]. apply IH; [exact F2|exact E|discriminate].
Qed.

Lemma tight_no_double_space s : tight s = true -> follows SPC SPC s = false.
Proof.
  induction s as [|c s IH]; [reflexivity|]. intros T.
  cbn [follows]. rewrite (IH (tight_tail _ _ T)), orb_false_r.
  destruct (N.eqb_spec c SPC) as [->|]; [|reflexivity].
  destruct (tight_space_head _ _ T eq_refl) as [_ S].
  destruct s as [|d s]; [reflexivity|].
  rewrite starts_solid_cons in S. apply negb_true_iff in S.
  rewrite (solid_not_space d S). reflexivity.
Qed.

Section ItalicPair.
Variable U : unicode_db.
Variables pre em post : pystr.
Hypothesis pre_sentence : sentence pre = true.
Hypothesis em_sentence : sentence em = true.
Hypothesis post_sentence : sentence post = true.

Lemma italic_parts :
  lower_text pre = true /\ lower_text em = true /\ lower_text post = true.
Proof.
  destruct (sentence_parts _ pre_sentence) as (Lp & _).
  destruct (sentence_parts _ em_sentence) as (Lb & _).
  destruct (sentence_parts _ post_sentence) as (Lq & _).
  auto.
Qed.

(** The text with the two sentinels of the script. *)
Lemma italic_marked_absent x :
  in_range 97 122 x || (x =? SPC) = false ->
  has_char x (str " **ITALIC** ") = false ->
  has_char x (str "**NORMAL** ") = false ->
  has_char x (pre ++ str " **ITALIC** " ++ em ++ str "**NORMAL** " ++ post)
  = false.
Proof.
  destruct italic_parts as (Lp & Lb & Lq). intros Hx H1 H2.
  rewrite !has_char_app, H1, H2.
  rewrite (lower_absent x pre Lp), (lower_absent x em Lb),
          (lower_absent x post Lq) by exact Hx.
  reflexivity.
Qed.

Lemma italic_marked_spaces :
  follows SPC SPC
    (pre ++ str " **ITALIC** " ++ em ++ str "**NORMAL** " ++ post) = false.
Proof.
  destruct (sentence_parts _ pre_sentence) as (Lp & Sp & Ep & Tp).
  destruct (sentence_parts _ em_sentence) as (Lb & Sb & Eb & Tb).
  destruct (sentence_parts _ post_sentence) as (Lq & Sq & Eq & Tq).
  apply tight_no_double_space.
  change (str " **ITALIC** " ++ em ++ str "**NORMAL** " ++ post)
    with (SPC :: str "**ITALIC**" ++ SPC :: em ++ str "**NORMAL**"
            ++ SPC :: post).
  apply tight_space; [exact Tp| |reflexivity].
  apply tight_space; [reflexivity| |apply starts_solid_app, Sb].
  apply tight_app; [exact Tb|].
  apply tight_space; [reflexivity|exact Tq|exact Sq].
Qed.

Lemma extract_normalised_italic :
  extract_normalised U (with_italic pre em post)
  = pre ++ str " **ITALIC** " ++ em ++ str "**NORMAL** " ++ post.
Proof.
  destruct italic_parts as (Lp & Lb & Lq).
  pose proof (italic_marked_absent BSL eq_refl eq_refl eq_refl) as HB.
  pose proof (italic_marked_absent NL eq_refl eq_refl eq_refl) as HN.
  pose proof italic_marked_spaces as HS.
  unfold extract_normalised, with_italic.
  change (str " \f2\i " ++ ?x)
    with (32 :: 92 :: 102 :: 50 :: 92 :: 105 :: 32 :: x).
  change (str "\f1\i0 " ++ post)
    with (92 :: 102 :: 49 :: 92 :: 105 :: 48 :: 32 :: post).
  cbv zeta.
  do 21 (rsub_walk U; rewrite ?expand_text).
  change (32 :: 42 :: 42 :: 73 :: 84 :: 65 :: 76 :: 73 :: 67 :: 42 :: 42
            :: 32 :: ?x)
    with (str " **ITALIC** " ++ x).
  change (42 :: 42 :: 78 :: 79 :: 82 :: 77 :: 65 :: 76 :: 42 :: 42
            :: 32 :: post)
    with (str "**NORMAL** " ++ post).
  set (y := pre ++ str " **ITALIC** " ++ em ++ str "**NORMAL** " ++ post)
    in *.
  rewrite (replace_absent esc_rupee _ BSL y) by (reflexivity || exact HB).
  rewrite (replace_absent esc_linesep _ BSL y) by (reflexivity || exact HB).
  rewrite (replace_absent [BSL] _ BSL y) by (reflexivity || exact HB).
  rewrite (newlines_idle U y) by (apply follows_absent; exact HN).
  apply blanks_idle. exact HS.
Qed.

Lemma italic_marked_solid :
  strip (pre ++ str " **ITALIC** " ++ em ++ str "**NORMAL** " ++ post)
  = pre ++ str " **ITALIC** " ++ em ++ str "**NORMAL** " ++ post
  /\ lower_head
       (pre ++ str " **ITALIC** " ++ em ++ str "**NORMAL** " ++ post) = true.
Proof.
  destruct (sentence_parts _ pre_sentence) as (_ & Sp & _ & _).
  destruct (sentence_parts _ post_sentence) as (_ & _ & Eq & _).
  pose proof (sentence_lower_head _ pre_sentence) as Hp.
  split.
  - apply strip_solid.
    + apply starts_solid_app, Sp.
    + rewrite !app_assoc. rewrite ends_solid_app; [exact Eq|].
      destruct post; discriminate.
  - destruct pre; [discriminate|exact Hp].
Qed.

Lemma italic_span_match total :
  rmatch U total Extract.re_italic_span g0
         (str "**ITALIC**" ++ (SPC :: em) ++ str "**NORMAL**"
            ++ SPC :: post)
  = Some ({| g_open := (SPC :: em) ++ str "**NORMAL**" ++ SPC :: post;
             g_text := Some (SPC :: em) |}, SPC :: post).
Proof.
  destruct italic_parts as (_ & Lb & _).
  unfold Extract.re_italic_span, lit. rewrite rmatch_lit.
  apply span_closed.
  rewrite has_char_cons, (lower_absent STAR em Lb) by reflexivity.
  reflexivity.
Qed.

Lemma lower_head_not p y :
  lower_head y = true ->
  match p with x :: _ => 122 <? x | [] => false end = true ->
  starts_with p y = false.
Proof.
  destruct p as [|x p]; [discriminate|]. destruct y as [|c y]; [discriminate|].
  cbn [lower_head]. unfold in_range. intros H Hx.
  apply andb_true_iff in H as [_ H]. apply N.leb_le in H.
  apply N.ltb_lt in Hx. cbn [starts_with].
  destruct (N.eqb_spec x c); [lia|reflexivity].
Qed.

Lemma with_em_absent x :
  in_range 97 122 x || (x =? SPC) = false ->
  has_char x (str " <em> ") = false ->
  has_char x (str "</em> ") = false ->
  has_char x (with_em pre em post) = false.
Proof.
  destruct italic_parts as (Lp & Lb & Lq). intros Hx H1 H2.
  unfold with_em. rewrite !has_char_app, H1, H2.
  rewrite (lower_absent x pre Lp), (lower_absent x em Lb),
          (lower_absent x post Lq) by exact Hx.
  reflexivity.
Qed.

(** The loop body on the line: the pair of sentinels becomes the pair of
    tags. *)
Lemma extract_clean_line_italic :
  Extract.clean_line U
    (pre ++ str " **ITALIC** " ++ em ++ str "**NORMAL** " ++ post)
  = [with_em pre em post].
Proof.
  destruct italic_parts as (Lp & Lb & Lq).
  destruct italic_marked_solid as (Sy & Hy).
  unfold Extract.clean_line. cbv zeta. rewrite Sy.
  set (y := pre ++ str " **ITALIC** " ++ em ++ str "**NORMAL** " ++ post)
    in *.
  rewrite (lower_head_not (str "{") y Hy eq_refl).
  rewrite (lower_head_not (str "}") y Hy eq_refl).
  replace (nonempty y) with true
    by (subst y; destruct pre; [discriminate|reflexivity]).
  cbn [negb andb].
  assert (E1 : re_sub U Extract.re_bold_span
                 [RText (str "<strong>"); RGroup1; RText (str "</strong>")] y
               = y).
  { rewrite re_sub_rsub. subst y.
    change (str " **ITALIC** " ++ ?x)
      with (32 :: 42 :: 42 :: 73 :: 84 :: 65 :: 76 :: 73 :: 67 :: 42 :: 42
              :: 32 :: x).
    change (str "**NORMAL** " ++ post)
      with (42 :: 42 :: 78 :: 79 :: 82 :: 77 :: 65 :: 76 :: 42 :: 42
              :: 32 :: post).
    repeat rsub_step U. reflexivity. }
  rewrite E1.
  assert (E2 : re_sub U Extract.re_italic_span
                 [RText (str "<em>"); RGroup1; RText (str "</em>")] y
               = with_em pre em post).
  { rewrite re_sub_rsub. subst y. unfold with_em.
    rewrite (rsub_skip U _ _ _ STAR pre)
      by (reflexivity || (apply lower_absent; [exact Lp|reflexivity])).
    f_equal.
    change (str " **ITALIC** " ++ em ++ str "**NORMAL** " ++ post)
      with (SPC :: (str "**ITALIC**" ++ (SPC :: em) ++ str "**NORMAL**"
                      ++ SPC :: post)).
    rewrite (rsub_other U _ _ _ STAR) by reflexivity.
    rewrite (rsub_hit_at U _ _ _ _ _ _ (italic_span_match _))
      by (rewrite !length_app; cbn [length]; lia).
    rewrite (rsub_other U _ _ _ STAR) by reflexivity.
    rewrite (rsub_plain U _ _ _ STAR)
      by (reflexivity || (apply lower_absent; [exact Lq|reflexivity])).
    cbn [expand List.map List.concat g_text].
    rewrite <- !app_assoc. reflexivity. }
  rewrite E2.
  pose proof (with_em_absent STAR eq_refl eq_refl eq_refl) as HZ.
  set (z := with_em pre em post) in *.
  rewrite (re_sub_str_absent U Extract.re_bold_mark _ STAR z eq_refl HZ).
  rewrite (re_sub_str_absent U Extract.re_normal_mark _ STAR z eq_refl HZ).
  rewrite (re_sub_str_absent U Extract.re_italic_mark _ STAR z eq_refl HZ).
  replace (nonempty z) with true
    by (subst z; unfold with_em; destruct pre; [discriminate|reflexivity]).
  reflexivity.
Qed.

Lemma braces_idle s :
  has_char (ch "{") s = false -> has_char (ch "}") s = false ->
  re_sub_str U Extract.re_braces [] s = s.
Proof.
  intros H1 H2. rewrite braces_filtered. apply filter_all.
  apply absent_Forall in H1, H2. rewrite List.Forall_forall in *.
  intros c Hc. specialize (H1 c Hc). specialize (H2 c Hc).
  apply negb_true_iff, orb_false_iff. split; apply N.eqb_neq; assumption.
Qed.

End ItalicPair.

Section ItalicCut.
Variable U : unicode_db.
Variables pre first rest post : pystr.
Hypothesis pre_sentence : sentence pre = true.
Hypothesis first_sentence : sentence first = true.
Hypothesis rest_sentence : sentence rest = true.
Hypothesis post_sentence : sentence post = true.

Lemma cut_parts :
  lower_text pre = true /\ lower_text first = true
  /\ lower_text rest = true /\ lower_text post = true.
Proof.
  destruct (sentence_parts _ pre_sentence) as (L1 & _).
  destruct (sentence_parts _ first_sentence) as (L2 & _).
  destruct (sentence_parts _ rest_sentence) as (L3 & _).
  destruct (sentence_parts _ post_sentence) as (L4 & _).
  auto.
Qed.

Lemma opening_absent x :
  in_range 97 122 x || (x =? SPC) = false ->
  has_char x (str " **ITALIC** ") = false ->
  has_char x (pre ++ str " **ITALIC** " ++ first) = false.
Proof.
  destruct cut_parts as (L1 & L2 & _ & _). intros Hx H1.
  rewrite !has_char_app, H1.
  rewrite (lower_absent x pre L1), (lower_absent x first L2) by exact Hx.
  reflexivity.
Qed.

Lemma closing_absent x :
  in_range 97 122 x || (x =? SPC) = false ->
  has_char x (str "**NORMAL** ") = false ->
  has_char x (rest ++ str "**NORMAL** " ++ post) = false.
Proof.
  destruct cut_parts as (_ & _ & L3 & L4). intros Hx H1.
  rewrite !has_char_app, H1.
  rewrite (lower_absent x rest L3), (lower_absent x post L4) by exact Hx.
  reflexivity.
Qed.

Lemma opening_tight :
  tight (pre ++ str " **ITALIC** " ++ first) = true
  /\ starts_solid (pre ++ str " **ITALIC** " ++ first) = true
  /\ ends_solid (pre ++ str " **ITALIC** " ++ first) = true
  /\ lower_head (pre ++ str " **ITALIC** " ++ first) = true.
Proof.
  destruct (sentence_parts _ pre_sentence) as (_ & Sp & _ & Tp).
  destruct (sentence_parts _ first_sentence) as (_ & Sf & Ef & Tf).
  pose proof (sentence_lower_head _ pre_sentence) as Hp.
  repeat split.
  - change (str " **ITALIC** " ++ first)
      with (SPC :: str "**ITALIC**" ++ SPC :: first).
    apply tight_space; [exact Tp| |reflexivity].
    apply tight_space; [reflexivity|exact Tf|exact Sf].
  - apply starts_solid_app, Sp.
  - rewrite !app_assoc. rewrite ends_solid_app; [exact Ef|].
    destruct first; discriminate.
  - destruct pre; [discriminate|exact Hp].
Qed.

Lemma closing_tight :
  tight (rest ++ str "**NORMAL** " ++ post) = true
  /\ starts_solid (rest ++ str "**NORMAL** " ++ post) = true
  /\ ends_solid (rest ++ str "**NORMAL** " ++ post) = true
  /\ lower_head (rest ++ str "**NORMAL** " ++ post) = true.
Proof.
  destruct (sentence_parts _ rest_sentence) as (_ & Sr & _ & Tr).
  destruct (sentence_parts _ post_sentence) as (_ & Sq & Eq & Tq).
  pose proof (sentence_lower_head _ rest_sentence) as Hr.
  repeat split.
  - apply tight_app; [exact Tr|].
    change (str "**NORMAL** " ++ post) with (str "**NORMAL**" ++ SPC :: post).
    apply tight_space; [reflexivity|exact Tq|exact Sq].
  - apply starts_solid_app, Sr.
  - rewrite !app_assoc. rewrite ends_solid_app; [exact Eq|].
    destruct post; discriminate.
  - destruct rest; [discriminate|exact Hr].
Qed.

Lemma cut_newlines :
  follows NL NL
    ((pre ++ str " **ITALIC** " ++ first)
       ++ NL :: rest ++ str "**NORMAL** " ++ post) = false.
Proof.
  rewrite follows_skip by (apply opening_absent; reflexivity).
  destruct closing_tight as (_ & _ & _ & H).
  pose proof (closing_absent NL eq_refl eq_refl) as HN.
  cbn [follows]. rewrite (follows_absent _ _ _ HN), orb_false_r.
  destruct (rest ++ str "**NORMAL** " ++ post) as [|c s]; [reflexivity|].
  apply has_char_false_cons in HN as [Hc _]. cbn [andb].
  destruct (N.eqb_spec c NL); [contradiction|reflexivity].
Qed.

Lemma cut_spaces :
  follows SPC SPC
    ((pre ++ str " **ITALIC** " ++ first)
       ++ NL :: rest ++ str "**NORMAL** " ++ post) = false.
Proof.
  destruct opening_tight as (T1 & S1 & E1 & _).
  destruct closing_tight as (T2 & _).
  rewrite follows_solid_joint;
    [|apply tight_no_double_space, T1|exact E1|].
  - cbn [follows]. change (NL =? SPC) with false. cbn [andb orb].
    apply tight_no_double_space, T2.
  - destruct pre; [discriminate|discriminate].
Qed.

Lemma extract_normalised_cut :
  extract_normalised U (italic_over_lines pre first rest post)
  = (pre ++ str " **ITALIC** " ++ first)
      ++ NL :: rest ++ str "**NORMAL** " ++ post.
Proof.
  destruct cut_parts as (L1 & L2 & L3 & L4).
  pose proof cut_newlines as HN. pose proof cut_spaces as HS.
  assert (HB : has_char BSL
                 ((pre ++ str " **ITALIC** " ++ first)
                    ++ NL :: rest ++ str "**NORMAL** " ++ post) = false).
  { rewrite has_char_app, has_char_cons.
    rewrite (opening_absent BSL), (closing_absent BSL) by reflexivity.
    reflexivity. }
  unfold extract_normalised, italic_over_lines.
  change (str " \f2\i " ++ ?x)
    with (32 :: 92 :: 102 :: 50 :: 92 :: 105 :: 32 :: x).
  change ([NL] ++ ?x) with (10 :: x).
  change (str "\f1\i0 " ++ post)
    with (92 :: 102 :: 49 :: 92 :: 105 :: 48 :: 32 :: post).
  cbv zeta.
  do 21 (rsub_walk U; rewrite ?expand_text).
  match goal with
  | |- context [replace esc_rupee [RUPEE] ?t] =>
      replace t
        with ((pre ++ str " **ITALIC** " ++ first)
                ++ NL :: rest ++ str "**NORMAL** " ++ post)
        by (rewrite <- !app_assoc; reflexivity)
  end.
  set (y := (pre ++ str " **ITALIC** " ++ first)
              ++ NL :: rest ++ str "**NORMAL** " ++ post) in *.
  rewrite (replace_absent esc_rupee _ BSL y) by (reflexivity || exact HB).
  rewrite (replace_absent esc_linesep _ BSL y) by (reflexivity || exact HB).
  rewrite (replace_absent [BSL] _ BSL y) by (reflexivity || exact HB).
  rewrite (newlines_idle U y HN).
  apply blanks_idle. exact HS.
Qed.

(** The line with the opening sentinel alone: no span, the sentinel becomes
    the opening tag of the emphasis. *)
Lemma extract_clean_line_opening :
  Extract.clean_line U (pre ++ str " **ITALIC** " ++ first)
  = [pre ++ str " <em> " ++ first].
Proof.
  destruct cut_parts as (L1 & L2 & _ & _).
  destruct opening_tight as (_ & S1 & E1 & H1).
  unfold Extract.clean_line. cbv zeta. rewrite (strip_solid _ S1 E1).
  rewrite (lower_head_not (str "{") _ H1 eq_refl).
  rewrite (lower_head_not (str "}") _ H1 eq_refl).
  replace (nonempty (pre ++ str " **ITALIC** " ++ first)) with true
    by (destruct pre; [discriminate|reflexivity]).
  cbn [negb andb].
  assert (E2 : re_sub U Extract.re_bold_span
                 [RText (str "<strong>"); RGroup1; RText (str "</strong>")]
                 (pre ++ str " **ITALIC** " ++ first)
               = pre ++ str " **ITALIC** " ++ first).
  { rewrite re_sub_rsub.
    change (str " **ITALIC** " ++ first)
      with (32 :: 42 :: 42 :: 73 :: 84 :: 65 :: 76 :: 73 :: 67 :: 42 :: 42
              :: 32 :: first).
    repeat rsub_step U. reflexivity. }
  rewrite E2.
  assert (E3 : re_sub U Extract.re_italic_span
                 [RText (str "<em>"); RGroup1; RText (str "</em>")]
                 (pre ++ str " **ITALIC** " ++ first)
               = pre ++ str " **ITALIC** " ++ first).
  { rewrite re_sub_rsub.
    rewrite (rsub_skip U _ _ _ STAR pre)
      by (reflexivity || (apply lower_absent; [exact L1|reflexivity])).
    f_equal.
    change (str " **ITALIC** " ++ first)
      with (SPC :: (str "**ITALIC**" ++ SPC :: first)).
    rewrite (rsub_other U _ _ _ STAR) by reflexivity. f_equal.
    change (str "**ITALIC**" ++ SPC :: first)
      with (STAR :: str "*ITALIC**" ++ SPC :: first).
    rewrite rsub_miss.
    - change (str "*ITALIC**" ++ SPC :: first)
        with (42 :: 73 :: 84 :: 65 :: 76 :: 73 :: 67 :: 42 :: 42
                :: 32 :: first).
      repeat rsub_step U. reflexivity.
    - change (STAR :: str "*ITALIC**" ++ SPC :: first)
        with (str "**ITALIC**" ++ SPC :: first).
      unfold Extract.re_italic_span, lit. rewrite rmatch_lit.
      apply span_open.
      rewrite has_char_cons, (lower_absent STAR first L2) by reflexivity.
      reflexivity. }
  rewrite E3.
  change (str " **ITALIC** " ++ first)
    with (32 :: 42 :: 42 :: 73 :: 84 :: 65 :: 76 :: 73 :: 67 :: 42 :: 42
            :: 32 :: first).
  do 3 (rsub_walk U; rewrite ?expand_text).
  destruct pre; [discriminate|reflexivity].
Qed.

(** The line with the return alone: the return becomes the closing tag of
    bold text. *)
Lemma extract_clean_line_closing :
  Extract.clean_line U (rest ++ str "**NORMAL** " ++ post)
  = [rest ++ str "</strong> " ++ post].
Proof.
  destruct cut_parts as (_ & _ & L3 & L4).
  destruct closing_tight as (_ & S2 & E2 & H2).
  unfold Extract.clean_line. cbv zeta. rewrite (strip_solid _ S2 E2).
  rewrite (lower_head_not (str "{") _ H2 eq_refl).
  rewrite (lower_head_not (str "}") _ H2 eq_refl).
  replace (nonempty (rest ++ str "**NORMAL** " ++ post)) with true
    by (destruct rest; [discriminate|reflexivity]).
  cbn [negb andb].
  change (str "**NORMAL** " ++ post)
    with (42 :: 42 :: 78 :: 79 :: 82 :: 77 :: 65 :: 76 :: 42 :: 42
            :: 32 :: post).
  match goal with
  | |- context [re_sub U Extract.re_bold_span ?rep ?t] =>
      replace (re_sub U Extract.re_bold_span rep t) with t
        by (rewrite re_sub_rsub; repeat rsub_step U; reflexivity)
  end.
  match goal with
  | |- context [re_sub U Extract.re_italic_span ?rep ?t] =>
      replace (re_sub U Extract.re_italic_span rep t) with t
        by (rewrite re_sub_rsub; repeat rsub_step U; reflexivity)
  end.
  do 3 (rsub_walk U; rewrite ?expand_text).
  destruct rest; [discriminate|reflexivity].
Qed.

Lemma cut_lines_absent x :
  in_range 97 122 x || (x =? SPC) = false ->
  has_char x (str " **ITALIC** ") = false ->
  has_char x (str "**NORMAL** ") = false ->
  (x =? NL) = false ->
  has_char x ((pre ++ str " **ITALIC** " ++ first)
                ++ NL :: rest ++ str "**NORMAL** " ++ post) = false.
Proof.
  intros Hx H1 H2 H3.
  rewrite has_char_app, has_char_cons, H3.
  rewrite (opening_absent x Hx H1), (closing_absent x Hx H2). reflexivity.
Qed.

End ItalicCut.

(** X22: in extract_rtf_content.py an italic stretch of a line, between the
    switch to the italic font and the switch back, comes out between the
    tags of emphasis, with the text around it as it was. *)
Theorem X22_italic_pair_becomes_emphasis U before emphasised after :
  sentence before = true ->
  sentence emphasised = true ->
  sentence after = true ->
  Extract.extract_rtf_text U (with_italic before emphasised after)
  = with_em before emphasised after.
Proof.
  intros Hp He Hq.
  unfold Extract.extract_rtf_text.
  rewrite extract_strip_controls_split.
  rewrite (extract_normalised_italic U _ _ _ Hp He Hq).
  pose proof (italic_marked_absent _ _ _ Hp He Hq) as Absent.
  pose proof (Absent BSL eq_refl eq_refl eq_refl) as HB.
  pose proof (Absent NL eq_refl eq_refl eq_refl) as HN.
  pose proof (Absent (ch "{") eq_refl eq_refl eq_refl) as HO.
  pose proof (Absent (ch "}") eq_refl eq_refl eq_refl) as HC.
  clear Absent.
  set (y := before ++ str " **ITALIC** " ++ emphasised
              ++ str "**NORMAL** " ++ after) in *.
  rewrite (re_sub_str_absent U Extract.re_command [] BSL y eq_refl HB).
  rewrite (braces_idle U y HO HC).
  rewrite (split_on_single NL y HN). cbn [flat_map].
  subst y. rewrite (extract_clean_line_italic U _ _ _ Hp He Hq).
  reflexivity.
Qed.

Lemma X22_witness :
  Extract.extract_rtf_text ascii_db
    (str "the goods are sold \f2\i as is\f1\i0 by the seller")
  = str "the goods are sold <em> as is</em> by the seller".
Proof.
  exact (X22_italic_pair_becomes_emphasis ascii_db
           (str "the goods are sold") (str "as is") (str "by the seller")
           eq_refl eq_refl eq_refl).
Defined.

(** X23: in extract_rtf_content.py an italic stretch with a line break
    before the switch back is opened by the tag of emphasis on its first
    line and closed by the closing tag of bold text on the next one. *)
Theorem X23_italic_over_lines_is_closed_as_bold U before first rest after :
  sentence before = true ->
  sentence first = true ->
  sentence rest = true ->
  sentence after = true ->
  Extract.extract_rtf_text U (italic_over_lines before first rest after)
  = before ++ str " <em> " ++ first ++ [NL]
      ++ rest ++ str "</strong> " ++ after.
Proof.
  intros Hp Hf Hr Hq.
  unfold Extract.extract_rtf_text.
  rewrite extract_strip_controls_split.
  rewrite (extract_normalised_cut U _ _ _ _ Hp Hf Hr Hq).
  pose proof (cut_lines_absent _ _ _ _ Hp Hf Hr Hq) as Absent.
  pose proof (Absent BSL eq_refl eq_refl eq_refl eq_refl) as HB.
  pose proof (Absent (ch "{") eq_refl eq_refl eq_refl eq_refl) as HO.
  pose proof (Absent (ch "}") eq_refl eq_refl eq_refl eq_refl) as HC.
  clear Absent.
  rewrite (re_sub_str_absent U Extract.re_command [] BSL _ eq_refl HB).
  rewrite (braces_idle U _ HO HC).
  rewrite split_on_app
    by (apply (opening_absent _ _ _ _ Hp Hf Hr Hq); reflexivity).
  rewrite split_on_single
    by (apply (closing_absent _ _ _ _ Hp Hf Hr Hq); reflexivity).
  cbn [flat_map].
  rewrite (extract_clean_line_opening U _ _ _ _ Hp Hf Hr Hq).
  rewrite (extract_clean_line_closing U _ _ _ _ Hp Hf Hr Hq).
  cbn [app join]. rewrite <- !app_assoc. reflexivity.
Qed.

Lemma X23_witness :
  Extract.extract_rtf_text ascii_db
    (str "the goods are sold \f2\i as is" ++ [NL]
       ++ str "and as seen\f1\i0 by the seller")
  = str "the goods are sold <em> as is" ++ [NL]
      ++ str "and as seen</strong> by the seller".
Proof.
  exact (X23_italic_over_lines_is_closed_as_bold ascii_db
           (str "the goods are sold") (str "as is") (str "and as seen")
           (str "by the seller") eq_refl eq_refl eq_refl eq_refl).
Defined.
